(** * RunwayML Act-Two batch automation: a shallow embedding

    The development follows [src/runway_generator.py] (class
    [RunwayActTwoBatchGenerator]) and [src/gui_selectors.py]
    ([GUISelectors._matches_pattern]).

    Conventions of the embedding:
    - Python [str] values are Stdlib [string]s, read as ASCII text: characters
      with a code of 128 or more are neither letters, digits nor white space
      and are left alone by [lower] and [upper];
    - Python [float] values are IEEE 754 binary64 numbers ([PrimFloat.float]);
    - a path is the list of its components; the file system is a finite list
      of entries in the order the operating system enumerates them;
    - the remote API, the image decoder and the file system are a [World]
      that the stateful functions thread explicitly. *)

From Stdlib Require Import ZArith List Bool Ascii String Lia Reals Lra Floats.
From Stdlib Require Import Sorting.Permutation Sorting.Sorted.
From Equations Require Import Equations.
Import ListNotations.

Set Warnings "-register-all".

Local Open Scope string_scope.
Local Open Scope list_scope.

(** ** Python string primitives *)

Module Py.

Definition code (c : ascii) : nat := nat_of_ascii c.

Definition between (lo hi n : nat) : bool := (lo <=? n)%nat && (n <=? hi)%nat.

(** [str.isspace] on one character: TAB..CR, FS..US and the blank. *)
Definition isspace (c : ascii) : bool :=
  between 9 13 (code c) || between 28 31 (code c) || (code c =? 32)%nat.

Definition is_upper (c : ascii) : bool := between 65 90 (code c).
Definition is_lower (c : ascii) : bool := between 97 122 (code c).
Definition is_digit (c : ascii) : bool := between 48 57 (code c).

(** [str.isalnum] on one character. *)
Definition isalnum (c : ascii) : bool := is_upper c || is_lower c || is_digit c.

Definition lower_char (c : ascii) : ascii :=
  if is_upper c then ascii_of_nat (code c + 32) else c.

Definition upper_char (c : ascii) : ascii :=
  if is_lower c then ascii_of_nat (code c - 32) else c.

Fixpoint map_string (f : ascii -> ascii) (s : string) : string :=
  match s with
  | EmptyString => EmptyString
  | String c r => String (f c) (map_string f r)
  end.

(** [s.lower()] and [s.upper()]. *)
Definition lower : string -> string := map_string lower_char.
Definition upper : string -> string := map_string upper_char.

(** [s.split()]: the maximal runs of characters that are not white space. *)
Fixpoint split (s : string) : list string :=
  match s with
  | EmptyString => []
  | String c r =>
      if isspace c then split r
      else match r with
           | EmptyString => [String c EmptyString]
           | String c' _ =>
               if isspace c' then String c EmptyString :: split r
               else match split r with
                    | w :: ws => String c w :: ws
                    | [] => [String c EmptyString]
                    end
           end
  end.

(** [sep.join(parts)]. *)
Fixpoint join (sep : string) (parts : list string) : string :=
  match parts with
  | [] => EmptyString
  | [w] => w
  | w :: ws => w ++ sep ++ join sep ws
  end.

(** [s.startswith(p)]. *)
Fixpoint startswith (p s : string) : bool :=
  match p, s with
  | EmptyString, _ => true
  | String a p', String b s' => Ascii.eqb a b && startswith p' s'
  | String _ _, EmptyString => false
  end.

(** [s.find(p)]: the least index at which [p] occurs in [s]. *)
Fixpoint find (p s : string) : option nat :=
  if startswith p s then Some 0
  else match s with
       | EmptyString => None
       | String _ r => option_map S (find p r)
       end.

(** [p in s]. *)
Definition contains (p s : string) : bool :=
  match find p s with Some _ => true | None => false end.

(** [s[i]], when [i] is in range. *)
Definition char_at (i : nat) (s : string) : option ascii := String.get i s.

(** [s.rfind('.')]. *)
Fixpoint rfind_dot (s : string) : option nat :=
  match s with
  | EmptyString => None
  | String c r =>
      match rfind_dot r with
      | Some i => Some (S i)
      | None => if Ascii.eqb c "."%char then Some 0 else None
      end
  end.

(** [s[:i]] and [s[i:]]. *)
Definition take (i : nat) (s : string) : string := substring 0 i s.
Definition drop (i : nat) (s : string) : string := substring i (String.length s - i) s.

(** [s.replace(a, b)] for one-character [a] and [b]. *)
Definition replace_char (a b : ascii) : string -> string :=
  map_string (fun c => if Ascii.eqb c a then b else c).

(** [x in xs] for a list of strings. *)
Definition mem (x : string) (xs : list string) : bool :=
  existsb (String.eqb x) xs.

(** [xs[-1]]. *)
Definition last_item (xs : list string) : option string :=
  match xs with [] => None | x :: r => Some (List.last r x) end.

(** [xs[1:-1]]. *)
Definition middle (xs : list string) : list string := removelast (tl xs).

End Py.

(** ** [pathlib] on one path component *)

Module PurePath.

(** [PurePath.suffix]: from the last dot on, unless that dot is the first
    or the last character of the name. *)
Definition suffix (name : string) : string :=
  match Py.rfind_dot name with
  | Some i =>
      if (0 <? i)%nat && (i <? String.length name - 1)%nat
      then Py.drop i name else EmptyString
  | None => EmptyString
  end.

(** [PurePath.stem]: the name without its suffix. *)
Definition stem (name : string) : string :=
  match Py.rfind_dot name with
  | Some i =>
      if (0 <? i)%nat && (i <? String.length name - 1)%nat
      then Py.take i name else name
  | None => name
  end.

End PurePath.

(** ** Pattern matching: the two exact-match implementations *)

Module PatternMatcher.

(** The character class [[-_\s.]] of [re.split] in [_matches_pattern]. *)
Definition is_delim (c : ascii) : bool :=
  Ascii.eqb c "-"%char || Ascii.eqb c "_"%char || Py.isspace c || Ascii.eqb c "."%char.

(** [re.split(r'[-_\s.]+', s)]: [in_run] tells that the previous character
    already was a delimiter. *)
Fixpoint re_split_from (in_run : bool) (s : string) : list string :=
  match s with
  | EmptyString => [EmptyString]
  | String c r =>
      if is_delim c then
        if in_run then re_split_from true r
        else EmptyString :: re_split_from true r
      else match re_split_from false r with
           | w :: ws => String c w :: ws
           | [] => [String c EmptyString]
           end
  end.

Definition re_split (s : string) : list string := re_split_from false s.

(** [filename_lower.rsplit('.', 1)[0] if '.' in filename_lower else filename_lower] *)
Definition name_without_ext (filename_lower : string) : string :=
  match Py.rfind_dot filename_lower with
  | Some i => Py.take i filename_lower
  | None => filename_lower
  end.

(** [GUISelectors._matches_pattern] (gui_selectors.py, 150-197). *)
Definition _matches_pattern (filename pattern : string) (exact_match : bool) : bool :=
  let filename_lower := Py.lower filename in
  let pattern_lower := Py.lower pattern in
  if exact_match then
    let name := name_without_ext filename_lower in
    if Py.startswith "-" pattern_lower || Py.startswith "_" pattern_lower then
      match Py.find pattern_lower name with
      | Some pos =>
          if (0 <? pos)%nat then
            let end_pos := (pos + String.length pattern_lower)%nat in
            if (String.length name <=? end_pos)%nat then true
            else match Py.char_at end_pos name with
                 | Some c => negb (Py.isalnum c)
                 | None => true
                 end
          else false
      | None => false
      end
    else Py.mem pattern_lower (re_split name)
  else Py.contains pattern_lower filename_lower.

(** The class [[a-z0-9]] of the generator's regular expression. *)
Definition is_az09 (c : ascii) : bool := Py.is_lower c || Py.is_digit c.

(** The pattern followed by [([^a-z0-9]|$)], anchored at the head of [s]. *)
Fixpoint pattern_then_boundary (p s : string) : bool :=
  match p with
  | EmptyString =>
      match s with
      | EmptyString => true
      | String c _ => negb (is_az09 c)
      end
  | String a p' =>
      match s with
      | EmptyString => false
      | String b s' => Ascii.eqb a b && pattern_then_boundary p' s'
      end
  end.

(** [re.search(r'(^|[^a-z0-9])' + re.escape(p) + r'([^a-z0-9]|$)', s)]:
    [prev] is the character before the current position, if any. *)
Fixpoint regex_search_from (prev : option ascii) (p s : string) : bool :=
  let left_ok := match prev with None => true | Some c => negb (is_az09 c) end in
  (left_ok && pattern_then_boundary p s)
  || match s with
     | EmptyString => false
     | String c r => regex_search_from (Some c) p r
     end.

(** The filter of [get_genx_image_files] (runway_generator.py, 345-357). *)
Definition generator_matches (file_name search_pattern : string) (exact_match : bool) : bool :=
  let pattern_lower := Py.lower search_pattern in
  let filename_lower := Py.lower file_name in
  if exact_match then regex_search_from None pattern_lower filename_lower
  else Py.contains pattern_lower filename_lower.

End PatternMatcher.

(** ** Subject names *)

Module Subject.

(** [extract_name_from_genx_filename] (runway_generator.py, 280-296). *)
Definition extract_name_from_genx_filename (filename : string) : option string :=
  let name_part := PurePath.stem filename in
  let parts := Py.split name_part in
  match parts, Py.last_item parts with
  | first :: _, Some last_part =>
      if (3 <=? List.length parts)%nat
         && String.eqb (Py.lower first) "genx"
         && String.eqb (Py.lower last_part) "self"
      then Some (Py.join " " (Py.middle parts))
      else None
  | _, _ => None
  end.

End Subject.


(** ** Images as PIL sees them

    Pixels are kept symbolic: an image is the decoded file together with
    the operations applied to it; [Image.size] and [Image.mode] follow
    Pillow's documented contract for [convert], [crop] and [resize]. *)

Module Image.

Inductive t : Type :=
| Decoded (raw : string) (mode : string) (width height : Z)
| Convert (mode : string) (im : t)
| Crop (left top right bottom : Z) (im : t)
| Resize (width height : Z) (resample : string) (im : t).

Fixpoint size (im : t) : Z * Z :=
  match im with
  | Decoded _ _ w h => (w, h)
  | Convert _ im' => size im'
  | Crop l u r b _ => (r - l, b - u)%Z
  | Resize w h _ _ => (w, h)
  end.

Fixpoint mode (im : t) : string :=
  match im with
  | Decoded _ m _ _ => m
  | Convert m _ => m
  | Crop _ _ _ _ im' => mode im'
  | Resize _ _ _ im' => mode im'
  end.

End Image.

(** ** The file system *)

Module FS.

Definition path := list string.

(** What a file holds: bytes as found on disk, or an image that PIL
    saved as JPEG. *)
Inductive content : Type :=
| Raw (bytes : string)
| Jpeg (quality : Z) (im : Image.t).

Inductive node : Type :=
| Dir
| File (readable : bool) (data : content).

Definition t := list (path * node).

Definition path_eqb (p q : path) : bool :=
  if list_eq_dec string_dec p q then true else false.

Fixpoint lookup (p : path) (fs : t) : option node :=
  match fs with
  | [] => None
  | (q, n) :: r => if path_eqb p q then Some n else lookup p r
  end.

(** [Path(p).exists()], [is_file()], [is_dir()]. *)
Definition exists_ (fs : t) (p : path) : bool :=
  match lookup p fs with Some _ => true | None => false end.
Definition is_file (fs : t) (p : path) : bool :=
  match lookup p fs with Some (File _ _) => true | _ => false end.
Definition is_dir (fs : t) (p : path) : bool :=
  match lookup p fs with Some Dir => true | _ => false end.

(** [Path(p).name] and [Path(p).parent]. *)
Definition name (p : path) : string := List.last p EmptyString.
Definition parent (p : path) : path := removelast p.

(** [q] is a direct entry of [p]; [q] lies strictly below [p]. *)
Definition child_of (p q : path) : bool :=
  match q with [] => false | _ => path_eqb (parent q) p end.

Fixpoint below (p q : path) : bool :=
  match p, q with
  | [], _ :: _ => true
  | a :: p', b :: q' => String.eqb a b && below p' q'
  | _, _ => false
  end.

(** [Path(p).iterdir()], in the order of the operating system. *)
Definition iterdir (fs : t) (p : path) : list path :=
  map fst (filter (fun e => child_of p (fst e)) fs).

(** The walk behind [Path(p).rglob(...)]: every entry below [p]. *)
Definition walk (fs : t) (p : path) : list path :=
  map fst (filter (fun e => below p (fst e)) fs).

(** Replace or add the entry for [p]. *)
Definition put (p : path) (n : node) (fs : t) : t :=
  filter (fun e => negb (path_eqb (fst e) p)) fs ++ [(p, n)].

(** [Path(p).mkdir(exist_ok=True)]; [None] when it raises. *)
Definition mkdir (fs : t) (p : path) : option t :=
  match lookup p fs with
  | Some Dir => Some fs
  | Some (File _ _) => None
  | None => if is_dir fs (parent p) then Some (put p Dir fs) else None
  end.

(** [Path(p).mkdir(parents=True, exist_ok=True)], creating the missing
    ancestors first; [prefix] is the part of the path already known to
    be a directory. *)
Fixpoint mkdir_from (fs : t) (prefix : path) (rest : list string) : option t :=
  match rest with
  | [] => Some fs
  | c :: rest' =>
      let p := prefix ++ [c] in
      match lookup p fs with
      | Some Dir => mkdir_from fs p rest'
      | Some (File _ _) => None
      | None => mkdir_from (put p Dir fs) p rest'
      end
  end.

Definition mkdir_parents (fs : t) (p : path) : option t := mkdir_from fs [] p.

(** [open(p, 'rb').read()]; [None] when it raises. *)
Definition read (fs : t) (p : path) : option content :=
  match lookup p fs with
  | Some (File true d) => Some d
  | _ => None
  end.

(** [open(p, 'wb').write(data)]; [None] when it raises. *)
Definition write (fs : t) (p : path) (d : content) : option t :=
  match lookup p fs with
  | Some Dir => None
  | Some (File false _) => None
  | _ => if is_dir fs (parent p) then Some (put p (File true d) fs) else None
  end.

End FS.

(** ** Dynamic values: configuration entries, JSON bodies, payload fields *)

Inductive data_uri : Type :=
  (** [f"data:{mime_type};base64,{b64encode(data)}"] *)
  DataUri (mime_type : string) (data : FS.content).

Inductive value : Type :=
| VNone
| VBool (b : bool)
| VInt (z : Z)
| VFloat (f : float)
| VStr (s : string)
| VUri (u : data_uri)
| VList (xs : list value)
| VDict (kvs : list (string * value)).

Module Dict.

Definition t := list (string * value).

(** [d[k]], [None] standing for [KeyError]. *)
Fixpoint lookup (k : string) (d : t) : option value :=
  match d with
  | [] => None
  | (k', v) :: r => if String.eqb k k' then Some v else lookup k r
  end.

(** [d.get(k, default)]. *)
Definition get (k : string) (default : value) (d : t) : value :=
  match lookup k d with Some v => v | None => default end.

(** [d[k] = v] on a dict that has no key [k] yet. *)
Definition set (k : string) (v : value) (d : t) : t := d ++ [(k, v)].

End Dict.

(** Python truthiness. *)
Definition truthy (v : value) : bool :=
  match v with
  | VNone => false
  | VBool b => b
  | VInt z => negb (z =? 0)%Z
  | VFloat f => negb (PrimFloat.eqb f 0%float)
  | VStr s => negb (String.eqb s EmptyString)
  | VUri _ => true
  | VList xs => match xs with [] => false | _ => true end
  | VDict kvs => match kvs with [] => false | _ => true end
  end.

(** [v == 'text'] for a string literal. *)
Definition is_str (text : string) (v : value) : bool :=
  match v with VStr s => String.eqb s text | _ => false end.

(** ** Python numbers *)

Module Num.

(** [float(n)] for an [int] of magnitude below 2^53 (image sizes). *)
Definition of_int (n : Z) : float :=
  if (n <? 0)%Z then PrimFloat.opp (PrimFloat.of_uint63 (Uint63.of_Z (- n)))
  else PrimFloat.of_uint63 (Uint63.of_Z n).

(** [int(x)]: truncation towards zero; [None] when it raises
    ([OverflowError] on an infinity, [ValueError] on a NaN). *)
Definition to_int (x : float) : option Z :=
  match Prim2SF x with
  | S754_zero _ => Some 0%Z
  | S754_finite s m e =>
      let v := if (0 <=? e)%Z then (Zpos m * 2 ^ e)%Z
               else (Zpos m / 2 ^ (- e))%Z in
      Some (if s then (- v)%Z else v)
  | S754_infinity _ => None
  | S754_nan => None
  end.

(** [a / b] on two [int]s; [None] for [ZeroDivisionError]. *)
Definition true_div (a b : Z) : option float :=
  if (b =? 0)%Z then None else Some (PrimFloat.div (of_int a) (of_int b)).

(** [math.isfinite]. *)
Definition is_finite (x : float) : bool :=
  match Prim2SF x with
  | S754_zero _ | S754_finite _ _ _ => true
  | _ => false
  end.

End Num.

(** ** The ratio catalog and the selector *)

Module Ratio.

(** A ratio configuration dict; [name] is [None] when the dict has no
    ["name"] key. *)
Record t : Type := mk {
  name : option string;
  api_value : string;
  width : Z;
  height : Z;
  aspect : float
}.

(** [AVAILABLE_RATIOS], in insertion order (runway_generator.py, 18-25). *)
Definition AVAILABLE_RATIOS : list (string * t) :=
  [ ("16:9", mk None "1280:720" 1280 720 (16 / 9)%float);
    ("9:16", mk None "720:1280" 720 1280 (9 / 16)%float);
    ("1:1", mk None "960:960" 960 960 1%float);
    ("4:3", mk None "1104:832" 1104 832 (4 / 3)%float);
    ("3:4", mk None "832:1104" 832 1104 (3 / 4)%float);
    ("21:9", mk None "1584:672" 1584 672 (21 / 9)%float) ].

(** [AVAILABLE_RATIOS[key]]. *)
Fixpoint lookup (key : string) (d : list (string * t)) : option t :=
  match d with
  | [] => None
  | (k, r) :: rest => if String.eqb key k then Some r else lookup key rest
  end.

(** [{"name": ratio_name, **ratio_config}]. *)
Definition named (ratio_name : string) (ratio_config : t) : t :=
  mk (Some ratio_name) (api_value ratio_config) (width ratio_config)
     (height ratio_config) (aspect ratio_config).

(** [abs(image_aspect - ratio_config["aspect"])]. *)
Definition difference (image_aspect : float) (ratio_config : t) : float :=
  PrimFloat.abs (PrimFloat.sub image_aspect (aspect ratio_config)).

(** One turn of the loop of [select_best_ratio], on the pair
    [(best_ratio, min_difference)]. *)
Definition select_step (image_aspect : float)
    (acc : option t * float) (item : string * t) : option t * float :=
  let d := difference image_aspect (snd item) in
  if PrimFloat.ltb d (snd acc) then (Some (named (fst item) (snd item)), d)
  else acc.

Definition select_loop (image_aspect : float) (items : list (string * t))
    (acc : option t * float) : option t * float :=
  fold_left (select_step image_aspect) items acc.

(** [select_best_ratio] (runway_generator.py, 116-143). The result is
    [None] when [best_ratio] is still [None] at the log statement, which
    then raises. *)
Definition select_best_ratio (image_aspect : float) : option t :=
  fst (select_loop image_aspect AVAILABLE_RATIOS (None, infinity)).

End Ratio.


(** ** The world outside the program *)

(** A [requests] response. [json] is [None] when [response.json()] raises. *)
Record response : Type := {
  status_code : Z;
  text : string;
  json : option value;
  content : string
}.

(** What the program does to the outside, in the order it does it: the
    requests and the [time.sleep(10)] of the client, then the log lines
    ["Processing"], ["Success"] and ["Failed"] of the orchestrator and its
    [time.sleep(delay_between_generations)]. *)
Inductive event : Type :=
| Sleep (seconds : Z)
| Post (payload : Dict.t)
| GetTask (task_id : value)
| Download (url : string)
| Processing (image_path : FS.path)
| Success (result : FS.path)
| Failure (image_path : FS.path)
| Delay (seconds : Z).

(** What the program cannot change: the platform, the image decoder, the
    remote service (an oracle answers [None] when the request raises) and
    the attributes of the generator object that are set once. *)
Record Env : Type := {
  cwd : FS.path;
  windows : bool;
  pil_identify : string -> option (string * Z * Z);
  http_post : Dict.t -> option response;
  http_task : value -> Z -> option response;
  http_download : string -> option response;
  driver_video_path : FS.path;
  downloads_folder : FS.path
}.

(** What the program changes: the disk, the cached driver video and the
    trace of its effects. *)
Record State : Type := {
  fs : FS.t;
  driver_video_data_uri : option data_uri;
  trace : list event
}.

Definition emit (e : event) (st : State) : State :=
  {| fs := fs st; driver_video_data_uri := driver_video_data_uri st;
     trace := trace st ++ [e] |}.

Definition with_fs (fs' : FS.t) (st : State) : State :=
  {| fs := fs'; driver_video_data_uri := driver_video_data_uri st;
     trace := trace st |}.

Definition with_driver (u : data_uri) (st : State) : State :=
  {| fs := fs st; driver_video_data_uri := Some u; trace := trace st |}.

(** [time.sleep(seconds)]. *)
Definition sleep (seconds : Z) (st : State) : State := emit (Sleep seconds) st.

(** [Image.open(path)]: [None] when it raises. A file that PIL wrote
    itself is read back as the image that was saved. *)
Definition pil_open (env : Env) (fs : FS.t) (p : FS.path) : option Image.t :=
  match FS.read fs p with
  | Some (FS.Raw bytes) =>
      match pil_identify env bytes with
      | Some (m, w, h) => Some (Image.Decoded bytes m w h)
      | None => None
      end
  | Some (FS.Jpeg _ im) => Some im
  | None => None
  end.

(** ** Encoding (runway_generator.py, 48-97) *)

Module Encode.

Definition image_mime (ext : string) : string :=
  if Py.mem ext [".jpg"; ".jpeg"] then "image/jpeg"
  else if String.eqb ext ".png" then "image/png"
  else if String.eqb ext ".webp" then "image/webp"
  else "image/jpeg".

Definition video_mime (ext : string) : string :=
  if String.eqb ext ".mp4" then "video/mp4"
  else if String.eqb ext ".mov" then "video/quicktime"
  else if String.eqb ext ".webm" then "video/webm"
  else "video/mp4".

(** [encode_image_to_data_uri]: [None] as in the source. *)
Definition encode_image_to_data_uri (fs : FS.t) (image_path : FS.path) : option data_uri :=
  match FS.read fs image_path with
  | Some image_data =>
      let ext := Py.lower (PurePath.suffix (FS.name image_path)) in
      Some (DataUri (image_mime ext) image_data)
  | None => None
  end.

(** [encode_video_to_data_uri]. *)
Definition encode_video_to_data_uri (fs : FS.t) (video_path : FS.path) : option data_uri :=
  match FS.read fs video_path with
  | Some video_data =>
      let ext := Py.lower (PurePath.suffix (FS.name video_path)) in
      Some (DataUri (video_mime ext) video_data)
  | None => None
  end.

End Encode.

(** ** The image transformer (runway_generator.py, 99-114 and 145-217) *)

Module Transform.

(** [analyze_image_aspect_ratio]. *)
Definition analyze_image_aspect_ratio (env : Env) (fs : FS.t) (image_path : FS.path)
    : float * Z * Z :=
  match pil_open env fs image_path with
  | Some img =>
      let '(width, height) := Image.size img in
      match Num.true_div width height with
      | Some aspect_ratio => (aspect_ratio, width, height)
      | None => (1%float, 0%Z, 0%Z)
      end
  | None => (1%float, 0%Z, 0%Z)
  end.

(** The crop box [(left, top, right, bottom)] of lines 172-198; [None]
    when the arithmetic raises. *)
Definition crop_box (original_width original_height : Z) (target_aspect : float)
    : option (Z * Z * Z * Z) :=
  match Num.true_div original_width original_height with
  | None => None
  | Some current_aspect =>
      if PrimFloat.ltb target_aspect current_aspect then
        match Num.to_int (PrimFloat.mul (Num.of_int original_height) target_aspect) with
        | None => None
        | Some new_width =>
            let left := ((original_width - new_width) / 2)%Z in
            (* crop_percent divides by original_width *)
            if (original_width =? 0)%Z then None
            else Some (left, 0%Z, (left + new_width)%Z, original_height)
        end
      else
        match Num.to_int (PrimFloat.div (Num.of_int original_width) target_aspect) with
        | None => None
        | Some new_height =>
            let top := ((original_height - new_height) / 2)%Z in
            Some (0%Z, top, original_width, (top + new_height)%Z)
        end
  end.

(** [img.crop(box)]: PIL raises when the box is turned inside out. *)
Definition crop (box : Z * Z * Z * Z) (img : Image.t) : option Image.t :=
  let '(x0, y0, x1, y1) := box in
  if (x1 <? x0)%Z || (y1 <? y0)%Z then None
  else Some (Image.Crop x0 y0 x1 y1 img).

(** [img.resize((w, h), Image.LANCZOS)]: PIL raises on an empty target. *)
Definition resize (w h : Z) (img : Image.t) : option Image.t :=
  if (w <? 1)%Z || (h <? 1)%Z then None
  else Some (Image.Resize w h "LANCZOS" img).

(** The body of the [try] of [resize_image_smart]: the disk as it is
    left, and the resized image with the path it was saved under, or
    [None] when an exception was raised. *)
Definition resize_attempt (env : Env) (fs : FS.t) (image_path : FS.path)
    (target_ratio : Ratio.t) (temp_folder : string)
    : FS.t * option (FS.path * Image.t) :=
  let temp_path := cwd env ++ [temp_folder] in
  match FS.mkdir fs temp_path with
  | None => (fs, None)
  | Some fs1 =>
      match pil_open env fs1 image_path with
      | None => (fs1, None)
      | Some img0 =>
          let img := if String.eqb (Image.mode img0) "RGB" then img0
                     else Image.Convert "RGB" img0 in
          let '(original_width, original_height) := Image.size img in
          let target_width := Ratio.width target_ratio in
          let target_height := Ratio.height target_ratio in
          match crop_box original_width original_height (Ratio.aspect target_ratio) with
          | None => (fs1, None)
          | Some box =>
              match crop box img with
              | None => (fs1, None)
              | Some cropped_img =>
                  match resize target_width target_height cropped_img with
                  | None => (fs1, None)
                  | Some resized_img =>
                      let original_name := PurePath.stem (FS.name image_path) in
                      match Ratio.name target_ratio with
                      | None => (fs1, None)
                      | Some n =>
                          let ratio_name := Py.replace_char ":" "x" n in
                          let resized_path :=
                            temp_path ++ [(original_name ++ "_" ++ ratio_name ++ ".jpg")%string] in
                          match FS.write fs1 resized_path (FS.Jpeg 95 resized_img) with
                          | None => (fs1, None)
                          | Some fs2 => (fs2, Some (resized_path, resized_img))
                          end
                      end
                  end
              end
          end
      end
  end.

(** [resize_image_smart]: the path of the resized image, or the
    original path when anything above raised. *)
Definition resize_image_smart (env : Env) (fs : FS.t) (image_path : FS.path)
    (target_ratio : Ratio.t) (temp_folder : string) : FS.t * FS.path :=
  match resize_attempt env fs image_path target_ratio temp_folder with
  | (fs', Some (resized_path, _)) => (fs', resized_path)
  | (fs', None) => (fs', image_path)
  end.

End Transform.

(** ** The duplicate guard (runway_generator.py, 298-330) *)

Module DuplicateGuard.

Definition video_extensions : list string := [".mp4"; ".mov"; ".avi"; ".mkv"; ".webm"].

(** [s.endswith(ext)]. *)
Definition endswith (ext s : string) : bool :=
  (String.length ext <=? String.length s)%nat
  && String.eqb (Py.drop (String.length s - String.length ext) s) ext.

(** A name matches the glob ['*' + ext]; Windows compares without case. *)
Definition glob_match (env : Env) (ext name : string) : bool :=
  if windows env then endswith (Py.lower ext) (Py.lower name) else endswith ext name.

(** [downloads_path.rglob('*' + video_ext)]. *)
Definition rglob (env : Env) (fs : FS.t) (root : FS.path) (video_ext : string) : list FS.path :=
  filter (fun p => glob_match env video_ext (FS.name p)) (FS.walk fs root).

(** The paths the two nested loops visit, in order. *)
Definition candidates (env : Env) (fs : FS.t) (root : FS.path) : list FS.path :=
  flat_map (rglob env fs root) video_extensions.

(** [all(part.upper() in video_name for part in name_parts)] with
    [video_name = video_file.stem.upper()]. *)
Definition all_parts_in (name_parts : list string) (video_file : FS.path) : bool :=
  let video_name := Py.upper (PurePath.stem (FS.name video_file)) in
  forallb (fun part => Py.contains (Py.upper part) video_name) name_parts.

(** The scan: the verdict and the files that were looked at. *)
Fixpoint scan (name_parts : list string) (videos : list FS.path) : bool * list FS.path :=
  match videos with
  | [] => (false, [])
  | video_file :: rest =>
      if all_parts_in name_parts video_file then (true, [video_file])
      else let '(found, seen) := scan name_parts rest in (found, video_file :: seen)
  end.

Definition check_existing_videos_seen (env : Env) (fs : FS.t) (name : string)
    (downloads : FS.path) : bool * list FS.path :=
  if negb (FS.exists_ fs downloads) then (false, [])
  else scan (Py.split name) (candidates env fs downloads).

(** [check_existing_videos(name, downloads_folder)]. *)
Definition check_existing_videos (env : Env) (fs : FS.t) (name : string)
    (downloads : FS.path) : bool :=
  fst (check_existing_videos_seen env fs name downloads).

End DuplicateGuard.

(** ** The folder scanner (runway_generator.py, 332-395) *)

Module Scanner.

Definition image_extensions : list string :=
  [".jpg"; ".jpeg"; ".png"; ".bmp"; ".gif"; ".webp"; ".tiff"; ".tif"].

(** [file_path.is_file() and file_path.suffix.lower() in image_extensions] *)
Definition is_image_file (fs : FS.t) (file_path : FS.path) : bool :=
  FS.is_file fs file_path
  && Py.mem (Py.lower (PurePath.suffix (FS.name file_path))) image_extensions.

(** The body of the loop of [get_genx_image_files] for one entry: is the
    entry appended to [matching_image_files]? *)
Definition keeps (env : Env) (fs : FS.t) (search_pattern : string) (exact_match : bool)
    (file_path : FS.path) : bool :=
  if is_image_file fs file_path then
    if PatternMatcher.generator_matches (FS.name file_path) search_pattern exact_match then
      match Subject.extract_name_from_genx_filename (FS.name file_path) with
      | Some person_name =>
          if negb (String.eqb person_name EmptyString) then
            negb (DuplicateGuard.check_existing_videos env fs person_name (downloads_folder env))
          else true
      | None => true
      end
    else false
  else false.

(** [get_genx_image_files(folder_path, search_pattern, exact_match)]. *)
Definition get_genx_image_files (env : Env) (fs : FS.t) (folder_path : FS.path)
    (search_pattern : string) (exact_match : bool) : list FS.path :=
  if negb (FS.exists_ fs folder_path) then []
  else filter (keeps env fs search_pattern exact_match) (FS.iterdir fs folder_path).

(** A stable insertion sort on the key [Path(x).name.upper()]. *)
Definition sort_key (p : FS.path) : string := Py.upper (FS.name p).

Fixpoint insert_sorted (x : FS.path) (sorted : list FS.path) : list FS.path :=
  match sorted with
  | [] => [x]
  | y :: rest =>
      if String.leb (sort_key y) (sort_key x) then y :: insert_sorted x rest
      else x :: sorted
  end.

Definition sort_folders (folders : list FS.path) : list FS.path :=
  fold_left (fun acc x => insert_sorted x acc) folders [].

(** [get_all_folders(root_directory)]. *)
Definition get_all_folders (fs : FS.t) (root_directory : FS.path) : list FS.path :=
  if negb (FS.exists_ fs root_directory) then []
  else sort_folders (filter (FS.is_dir fs) (FS.iterdir fs root_directory)).

End Scanner.

(** ** The generation client (runway_generator.py, 396-570) *)

Module Client.

(** Why a generation returned [None]: one constructor for each
    [return None] of [create_act_two_generation], named after the error
    that is logged just before it; [Exception] is the handler at the end. *)
Inductive failure : Type :=
| DriverVideoNotFound
| DriverEncodeFailed
| ImageEncodeFailed
| TaskCreationFailed
| StatusCheckFailed
| DownloadFailed
| NoVideoUrl
| TaskFailed
| TimedOut
| Exception.

Inductive outcome : Type :=
| Saved (output_path : FS.path)
| Failed (why : failure).

(** The value the Python function returns. *)
Definition result (o : outcome) : option FS.path :=
  match o with Saved p => Some p | Failed _ => None end.

Definition max_wait : Z := 600.

(** The measure of the polling loop: the seconds left before [max_wait]. *)
Definition remaining (wait_time : Z) : nat := Z.to_nat (max_wait - wait_time).
Arguments remaining : simpl never.

(** [status_data.get('output', [None])[0]]; [None] when it raises. *)
Definition first_output (status_data : Dict.t) : option value :=
  match Dict.get "output" (VList [VNone]) status_data with
  | VList (x :: _) => Some x
  | VStr (String c _) => Some (VStr (String c EmptyString))
  | _ => None
  end.

(** Lines 538-559: the task has succeeded. *)
Definition fetch_video (env : Env) (output_path : FS.path) (status_data : Dict.t)
    (st : State) : State * outcome :=
  match first_output status_data with
  | None => (st, Failed Exception)
  | Some video_url =>
      if truthy video_url then
        match video_url with
        | VStr url =>
            let st1 := emit (Download url) st in
            match http_download env url with
            | None => (st1, Failed Exception)
            | Some video_response =>
                if (status_code video_response =? 200)%Z then
                  match FS.mkdir_parents (fs st1) (FS.parent output_path) with
                  | None => (st1, Failed Exception)
                  | Some fs1 =>
                      match FS.write fs1 output_path (FS.Raw (content video_response)) with
                      | None => (with_fs fs1 st1, Failed Exception)
                      | Some fs2 => (with_fs fs2 st1, Saved output_path)
                      end
                  end
                else (st1, Failed DownloadFailed)
            end
        | _ => (st, Failed Exception)
        end
      else (st, Failed NoVideoUrl)
  end.

(** Lines 522-563: one status check, after [wait_time] seconds of
    polling. [None] means that the loop goes on. *)
Definition check_status (env : Env) (output_path : FS.path) (task_id : value)
    (wait_time : Z) (st : State) : State * option outcome :=
  let st1 := emit (GetTask task_id) st in
  match http_task env task_id wait_time with
  | None => (st1, Some (Failed Exception))
  | Some status_response =>
      if negb (status_code status_response =? 200)%Z then (st1, Some (Failed StatusCheckFailed))
      else
        match json status_response with
        | Some (VDict status_data) =>
            let status := Dict.get "status" (VStr "UNKNOWN") status_data in
            if is_str "SUCCEEDED" status then
              let '(st2, o) := fetch_video env output_path status_data st1 in (st2, Some o)
            else if is_str "FAILED" status then (st1, Some (Failed TaskFailed))
            else (st1, None)
        | _ => (st1, Some (Failed Exception))
        end
  end.

(** Lines 514-566: [while wait_time < max_wait]. *)
Equations? poll (env : Env) (output_path : FS.path) (task_id : value)
    (st : State) (wait_time : Z) : State * outcome
    by wf (remaining wait_time) lt :=
  poll env output_path task_id st wait_time with Z_lt_dec wait_time max_wait := {
    | right _ => (st, Failed TimedOut)
    | left _ with check_status env output_path task_id (wait_time + 10) (sleep 10 st) := {
        | (st', Some o) => (st', o)
        | (st', None) => poll env output_path task_id st' (wait_time + 10)
      }
  }.
Proof. clear poll. unfold remaining, max_wait in *. lia. Qed.

(** Lines 461-496: the request body built from the configuration. *)
Definition build_payload (config : Dict.t) (character_image_data_uri reference : data_uri)
    (target_ratio : Ratio.t) : Dict.t :=
  let payload :=
    [ ("character", VDict [("type", VStr "image"); ("uri", VUri character_image_data_uri)]);
      ("reference", VDict [("type", VStr "video"); ("uri", VUri reference)]);
      ("bodyControl", Dict.get "body_control" (VBool false) config);
      ("expressionIntensity", Dict.get "expression_intensity" (VFloat 1) config);
      ("model", Dict.get "model_version" (VStr "act_two") config);
      ("ratio", VStr (Ratio.api_value target_ratio)) ] in
  let payload :=
    if truthy (Dict.get "body_control" (VBool false) config) then
      Dict.set "motionSmoothing" (Dict.get "motion_smoothing" (VFloat 0.5) config)
        (Dict.set "preservePose" (Dict.get "preserve_pose" (VBool false) config)
          (Dict.set "stabilization" (Dict.get "stabilization" (VBool true) config)
            (Dict.set "motionStrength" (Dict.get "motion_strength" (VFloat 1) config) payload)))
    else payload in
  let payload :=
    if truthy (Dict.get "quality" VNone config)
    then Dict.set "quality" (Dict.get "quality" (VStr "standard") config) payload
    else payload in
  let payload :=
    match Dict.get "seed" VNone config with
    | VNone => payload
    | seed => Dict.set "seed" seed payload
    end in
  let payload :=
    if truthy (Dict.get "prompt" VNone config)
    then Dict.set "prompt" (Dict.get "prompt" VNone config) payload
    else payload in
  if truthy (Dict.get "negative_prompt" VNone config)
  then Dict.set "negativePrompt" (Dict.get "negative_prompt" VNone config) payload
  else payload.

(** Lines 423-440: the ratio the configuration asks for; [None] when the
    lookup raises. In fixed mode the catalog entry is used as it is. *)
Definition resolve_ratio (env : Env) (fs : FS.t) (config : Dict.t)
    (character_image_path : FS.path) : option Ratio.t :=
  let aspect_mode := Dict.get "aspect_ratio_mode" (VStr "smart") config in
  if is_str "smart" aspect_mode then
    let '(image_aspect, _, _) :=
      Transform.analyze_image_aspect_ratio env fs character_image_path in
    Ratio.select_best_ratio image_aspect
  else
    match Dict.get "fixed_aspect_ratio" (VStr "16:9") config with
    | VStr fixed_ratio =>
        match Ratio.lookup fixed_ratio Ratio.AVAILABLE_RATIOS with
        | Some r => Some r
        | None => Ratio.lookup "16:9" Ratio.AVAILABLE_RATIOS
        end
    | VList _ | VDict _ => None
    | _ => Ratio.lookup "16:9" Ratio.AVAILABLE_RATIOS
    end.

(** Lines 453-456: the path the video is saved under. *)
Definition output_file (output_folder character_image_path : FS.path) (ratio_name : string)
    : FS.path :=
  let image_name := PurePath.stem (FS.name character_image_path) in
  let ratio_suffix := Py.replace_char ":" "x" ratio_name in
  output_folder ++ [(image_name ++ "_act_two_" ++ ratio_suffix ++ ".mp4")%string].

(** Lines 407-417: the driver video, encoded once and kept. *)
Definition prepare_driver (env : Env) (st : State) : State * (failure + data_uri) :=
  if negb (FS.exists_ (fs st) (driver_video_path env)) then (st, inl DriverVideoNotFound)
  else
    match driver_video_data_uri st with
    | Some u => (st, inr u)
    | None =>
        match Encode.encode_video_to_data_uri (fs st) (driver_video_path env) with
        | Some u => (with_driver u st, inr u)
        | None => (st, inl DriverEncodeFailed)
        end
    end.

(** Lines 500-512: the submission; the task id, or why there is none. *)
Definition submit (env : Env) (payload : Dict.t) (st : State) : State * (failure + value) :=
  let st1 := emit (Post payload) st in
  match http_post env payload with
  | None => (st1, inl Exception)
  | Some response =>
      if negb (status_code response =? 200)%Z then (st1, inl TaskCreationFailed)
      else
        match json response with
        | Some (VDict task_data) =>
            match Dict.lookup "id" task_data with
            | Some task_id => (st1, inr task_id)
            | None => (st1, inl Exception)
            end
        | _ => (st1, inl Exception)
        end
  end.

(** [create_act_two_generation(character_image_path, output_folder, config)]. *)
Definition create_act_two_generation (env : Env) (character_image_path output_folder : FS.path)
    (config : Dict.t) (st : State) : State * outcome :=
  match prepare_driver env st with
  | (st0, inl why) => (st0, Failed why)
  | (st0, inr reference) =>
      match resolve_ratio env (fs st0) config character_image_path with
      | None => (st0, Failed Exception)
      | Some target_ratio =>
          match Ratio.name target_ratio with
          | None => (st0, Failed Exception)
          | Some ratio_name =>
              let '(fs1, resized_image_path) :=
                Transform.resize_image_smart env (fs st0) character_image_path
                  target_ratio "temp_resized" in
              let st1 := with_fs fs1 st0 in
              match Encode.encode_image_to_data_uri fs1 resized_image_path with
              | None => (st1, Failed ImageEncodeFailed)
              | Some character_image_data_uri =>
                  let output_path :=
                    output_file output_folder character_image_path ratio_name in
                  let payload :=
                    build_payload config character_image_data_uri reference target_ratio in
                  match submit env payload st1 with
                  | (st2, inl why) => (st2, Failed why)
                  | (st2, inr task_id) => poll env output_path task_id st2 0
                  end
              end
          end
      end
  end.

End Client.

(** ** The batch orchestrator (runway_generator.py, 571-700) *)

Module Batch.

(** The four counters of the final summary. *)
Record summary : Type := {
  total_images : Z;
  successful_generations : Z;
  failed_generations : Z;
  skipped_duplicates : Z
}.

Definition empty_summary : summary :=
  {| total_images := 0; successful_generations := 0;
     failed_generations := 0; skipped_duplicates := 0 |}.

Definition count_result (r : option FS.path) (s : summary) : summary :=
  match r with
  | Some _ =>
      {| total_images := total_images s;
         successful_generations := successful_generations s + 1;
         failed_generations := failed_generations s;
         skipped_duplicates := skipped_duplicates s |}
  | None =>
      {| total_images := total_images s;
         successful_generations := successful_generations s;
         failed_generations := failed_generations s + 1;
         skipped_duplicates := skipped_duplicates s |}
  end.

Definition count_folder (eligible total_found : Z) (s : summary) : summary :=
  {| total_images := total_images s + eligible;
     successful_generations := successful_generations s;
     failed_generations := failed_generations s;
     skipped_duplicates := skipped_duplicates s + (total_found - eligible) |}.

(** Lines 629-631: the files of the folder that carry ['genx']. *)
Definition total_found (fs : FS.t) (folder : FS.path) : Z :=
  Z.of_nat (List.length
    (filter (fun f => FS.is_file fs f
                      && Py.contains "genx" (Py.lower (FS.name f))
                      && Py.mem (Py.lower (PurePath.suffix (FS.name f))) Scanner.image_extensions)
            (FS.iterdir fs folder))).

(** Lines 650-681: the loop over the images of one folder; [i] is the
    1-based index of the head of [images], [n] is
    [len(genx_image_files)]. *)
Fixpoint process_images (env : Env) (output_directory : FS.path)
    (delay_between_generations : Z) (co_located_output : bool)
    (n : Z) (i : Z) (images : list FS.path) (acc : State * summary) : State * summary :=
  match images with
  | [] => acc
  | image_path :: rest =>
      let '(st, s) := acc in
      let st := emit (Processing image_path) st in
      let specific_output :=
        if co_located_output then FS.parent image_path else output_directory in
      let '(st, o) :=
        Client.create_act_two_generation env image_path specific_output [] st in
      let s := count_result (Client.result o) s in
      let st :=
        match Client.result o with
        | Some result => emit (Success result) st
        | None => emit (Failure image_path) st
        end in
      let st :=
        if (i <? n)%Z && (0 <? delay_between_generations)%Z
        then emit (Delay delay_between_generations) st else st in
      process_images env output_directory delay_between_generations co_located_output
        n (i + 1)%Z rest (st, s)
  end.

(** Lines 623-681: one folder. *)
Definition process_folder (env : Env) (output_directory : FS.path)
    (delay_between_generations : Z) (co_located_output : bool)
    (acc : State * summary) (folder : FS.path) : State * summary :=
  let '(st, s) := acc in
  let genx_image_files := Scanner.get_genx_image_files env (fs st) folder "genx" false in
  let n := Z.of_nat (List.length genx_image_files) in
  let s := count_folder n (total_found (fs st) folder) s in
  process_images env output_directory delay_between_generations co_located_output
    n 1%Z genx_image_files (st, s).

(** [process_all_images]; [None] when it returns before the loop. *)
Definition process_all_images (env : Env) (target_directory output_directory : FS.path)
    (delay_between_generations : Z) (co_located_output : bool) (st : State)
    : State * option summary :=
  if negb (FS.exists_ (fs st) (driver_video_path env)) then (st, None)
  else
    match Scanner.get_all_folders (fs st) target_directory with
    | [] => (st, None)
    | all_folders =>
        let '(st', s) :=
          fold_left (process_folder env output_directory delay_between_generations
                       co_located_output)
                    all_folders (st, empty_summary) in
        (st', Some s)
    end.

End Batch.

(** ** Floats as real numbers

    The definitions the proofs about [float] arithmetic are stated with:
    the real number a float stands for, and the place of a real number
    between two consecutive integers. *)

Module Real.
(** The power of two [2^e] and the real number [m * 2^e]. *)
Definition bpow (e : Z) : R := powerRZ 2 e.
Definition F2R (m e : Z) : R := (IZR m * bpow e)%R.

(** The real number a specified float stands for (0 for what is not a number). *)
Definition SF2R (x : spec_float) : R :=
  match x with
  | S754_finite s m e => if s then (- F2R (Zpos m) e)%R else F2R (Zpos m) e
  | _ => 0%R
  end.

(** [x] lies in [[m, m+1)], at the place [l] says. *)
Definition located (x : R) (m : Z) (l : location) : Prop :=
  match l with
  | loc_Exact => x = IZR m
  | loc_Inexact Lt => (IZR m < x < IZR m + / 2)%R
  | loc_Inexact Eq => x = (IZR m + / 2)%R
  | loc_Inexact Gt => (IZR m + / 2 < x < IZR m + 1)%R
  end.

Definition located_rec (x : R) (r : shr_record) : Prop :=
  located x (shr_m r) (loc_of_shr_record r).
Definition fexp64 (e : Z) : Z := fexp prec emax e.

(** The floats that a distance can be: zero and the positive finite ones. *)
Definition nonneg_finite (f : float) : Prop :=
  match Prim2SF f with
  | S754_zero _ => True
  | S754_finite false _ _ => True
  | _ => False
  end.

Definition fval (f : float) : R := SF2R (Prim2SF f).

(** The largest float of the format. *)
Definition max_m : positive := 9007199254740991.

(** What the proof needs of a target aspect: a positive normal float
    between a quarter and eight whose successor has the same exponent. *)
Definition aspect_ok (target_aspect : float) : Prop :=
  exists mt et,
    Prim2SF target_aspect = S754_finite false mt et /\
    Zpos (digits2_pos mt) = 53%Z /\
    (Zpos mt + 1 < 2 ^ 53)%Z /\ (-54 <= et <= -50)%Z.

(** A float that is positive and finite, of exponent -53 at least, and
    whose value lies between two bounds: what the six aspects of the
    catalog are, at or next to the fractions they are written as. *)
Definition aspect_in (f : float) (lo hi : R) : Prop :=
  (exists ma ea, Prim2SF f = S754_finite false ma ea /\ (-53 <= ea)%Z) /\
  (lo <= fval f <= hi)%R.

End Real.

(** ** Reading a trace *)

Module Trace.

(** The events of the generation client. *)
Definition is_client (e : event) : bool :=
  match e with
  | Sleep _ | Post _ | GetTask _ | Download _ => true
  | _ => false
  end.

(** The images named by the ["Processing"] lines, in order. *)
Fixpoint processed (tr : list event) : list FS.path :=
  match tr with
  | [] => []
  | Processing p :: r => p :: processed r
  | _ :: r => processed r
  end.

(** The numbers of ["Success"] and of ["Failed"] lines. *)
Fixpoint successes (tr : list event) : Z :=
  match tr with
  | [] => 0
  | Success _ :: r => successes r + 1
  | _ :: r => successes r
  end.

Fixpoint failures (tr : list event) : Z :=
  match tr with
  | [] => 0
  | Failure _ :: r => failures r + 1
  | _ :: r => failures r
  end.

(** The pauses between generations, in order. *)
Fixpoint delays (tr : list event) : list Z :=
  match tr with
  | [] => []
  | Delay d :: r => d :: delays r
  | _ :: r => delays r
  end.

(** The status checks and the seconds slept by the polling loop. *)
Fixpoint checks (tr : list event) : Z :=
  match tr with
  | [] => 0
  | GetTask _ :: r => checks r + 1
  | _ :: r => checks r
  end.

Fixpoint slept (tr : list event) : Z :=
  match tr with
  | [] => 0
  | Sleep n :: r => slept r + n
  | _ :: r => slept r
  end.

(** The payloads that were submitted. *)
Fixpoint posted (tr : list event) : list Dict.t :=
  match tr with
  | [] => []
  | Post payload :: r => payload :: posted r
  | _ :: r => posted r
  end.

(** The pauses the loop over one folder makes from its [i]-th image on,
    [count] images being left of the [n] of the folder. *)
Fixpoint pauses (delay n i : Z) (count : nat) : list Z :=
  match count with
  | O => []
  | S count' =>
      (if (i <? n)%Z && (0 <? delay)%Z then [delay] else [])
      ++ pauses delay n (i + 1)%Z count'
  end.

(** [k] turns of the polling loop: a sleep of ten seconds, then a check. *)
Fixpoint rounds (k : nat) (task_id : value) : list event :=
  match k with
  | O => []
  | S k' => Sleep 10 :: GetTask task_id :: rounds k' task_id
  end.


End Trace.

(** ** Small worlds to run the model on *)

Module Sample.

Definition ok_json (kvs : Dict.t) : response :=
  {| status_code := 200; text := "ok"; json := Some (VDict kvs); content := "" |}.

Definition picture_file (bytes : string) : FS.node := FS.File true (FS.Raw bytes).

(** Two folders with one image each, a driver video, empty downloads. *)
Definition disk : FS.t :=
  [ ([], FS.Dir);
    (["work"], FS.Dir);
    (["driver.mp4"], picture_file "driver-bytes");
    (["downloads"], FS.Dir);
    (["out"], FS.Dir);
    (["root"], FS.Dir);
    (["root"; "b"], FS.Dir);
    (["root"; "a"], FS.Dir);
    (["root"; "a"; "genx JANE DOE self.jpg"], picture_file "jane-bytes");
    (["root"; "b"; "genx JOHN SMITH self.jpg"], picture_file "john-bytes") ].

(** A service on which every task has succeeded at the first check. *)
Definition env : Env :=
  {| cwd := ["work"];
     windows := false;
     pil_identify := fun bytes =>
       if String.eqb bytes "jane-bytes" then Some ("RGB", 1920, 1080)%Z
       else if String.eqb bytes "john-bytes" then Some ("RGBA", 600, 800)%Z
       else None;
     http_post := fun _ => Some (ok_json [("id", VStr "task-1")]);
     http_task := fun _ _ =>
       Some (ok_json [("status", VStr "SUCCEEDED"); ("output", VList [VStr "https://cdn/video"])]);
     http_download := fun _ =>
       Some {| status_code := 200; text := ""; json := None; content := "mp4-bytes" |};
     driver_video_path := ["driver.mp4"];
     downloads_folder := ["downloads"] |}.

(** The same service, on which no task ever leaves [RUNNING]. *)
Definition env_running : Env :=
  {| cwd := cwd env; windows := windows env; pil_identify := pil_identify env;
     http_post := http_post env;
     http_task := fun _ _ => Some (ok_json [("status", VStr "RUNNING")]);
     http_download := http_download env;
     driver_video_path := driver_video_path env;
     downloads_folder := downloads_folder env |}.

Definition start : State :=
  {| fs := disk; driver_video_data_uri := None; trace := [] |}.

(** The same disk where the first image holds bytes that PIL does not
    recognise, and where it cannot be read at all. *)
Definition jane : FS.path := ["root"; "a"; "genx JANE DOE self.jpg"].

Definition corrupt : State :=
  {| fs := FS.put jane (FS.File true (FS.Raw "garbage")) disk;
     driver_video_data_uri := None; trace := [] |}.

Definition unreadable : State :=
  {| fs := FS.put jane (FS.File false (FS.Raw "jane-bytes")) disk;
     driver_video_data_uri := None; trace := [] |}.

End Sample.


(** ** The claims in the words of the specification *)

Module Claimed.

(** The subject of a file name as the specification words it: at least
    three tokens, the first equal to the configured pattern token, the
    last equal to the suffix token. *)
Definition subject (pattern_token filename : string) : option string :=
  let parts := Py.split (PurePath.stem filename) in
  match parts, Py.last_item parts with
  | first :: _, Some last_part =>
      if (3 <=? List.length parts)%nat
         && String.eqb first pattern_token
         && String.eqb last_part "self"
      then Some (Py.join " " (Py.middle parts))
      else None
  | _, _ => None
  end.

(** [t] occurs in [s] when case is ignored. *)
Definition ci_substring (t s : string) : Prop :=
  exists before after, Py.upper s = (before ++ Py.upper t ++ after)%string.

(** A video file somewhere below the search root. *)
Definition video_file (env : Env) (fs : FS.t) (root video : FS.path) : Prop :=
  In video (FS.walk fs root) /\
  exists ext, In ext DuplicateGuard.video_extensions /\
              DuplicateGuard.glob_match env ext (FS.name video) = true.

(** The status check answers, and the task is neither done nor lost. *)
Definition pending (r : option response) : Prop :=
  exists resp status_data,
    r = Some resp /\ status_code resp = 200%Z /\
    json resp = Some (VDict status_data) /\
    is_str "SUCCEEDED" (Dict.get "status" (VStr "UNKNOWN") status_data) = false /\
    is_str "FAILED" (Dict.get "status" (VStr "UNKNOWN") status_data) = false.

End Claimed.

(** * Further code *)

(** ** The older transformer (runway_generator.py, 219-279) *)

Module Legacy.

(** The crop box of lines 243-258, for the aspect [16 / 9]. *)
Definition crop_box (original_width original_height : Z) : option (Z * Z * Z * Z) :=
  let target_aspect := (16 / 9)%float in
  match Num.true_div original_width original_height with
  | None => None
  | Some current_aspect =>
      if PrimFloat.ltb target_aspect current_aspect then
        match Num.to_int (PrimFloat.mul (Num.of_int original_height) target_aspect) with
        | None => None
        | Some new_width =>
            let left := ((original_width - new_width) / 2)%Z in
            Some (left, 0%Z, (left + new_width)%Z, original_height)
        end
      else
        match Num.to_int (PrimFloat.div (Num.of_int original_width) target_aspect) with
        | None => None
        | Some new_height =>
            let top := ((original_height - new_height) / 2)%Z in
            Some (0%Z, top, original_width, (top + new_height)%Z)
        end
  end.

(** The body of the [try] of [resize_image_to_16_9]. *)
Definition resize_attempt (env : Env) (fs : FS.t) (image_path : FS.path)
    (temp_folder : string) : FS.t * option (FS.path * Image.t) :=
  let temp_path := cwd env ++ [temp_folder] in
  match FS.mkdir fs temp_path with
  | None => (fs, None)
  | Some fs1 =>
      match pil_open env fs1 image_path with
      | None => (fs1, None)
      | Some img0 =>
          let img := if String.eqb (Image.mode img0) "RGB" then img0
                     else Image.Convert "RGB" img0 in
          let '(original_width, original_height) := Image.size img in
          match crop_box original_width original_height with
          | None => (fs1, None)
          | Some box =>
              match Transform.crop box img with
              | None => (fs1, None)
              | Some cropped_img =>
                  match Transform.resize 1280 720 cropped_img with
                  | None => (fs1, None)
                  | Some resized_img =>
                      let original_name := PurePath.stem (FS.name image_path) in
                      let resized_path :=
                        temp_path ++ [(original_name ++ "_16x9.jpg")%string] in
                      match FS.write fs1 resized_path (FS.Jpeg 95 resized_img) with
                      | None => (fs1, None)
                      | Some fs2 => (fs2, Some (resized_path, resized_img))
                      end
                  end
              end
          end
      end
  end.

(** [resize_image_to_16_9]: the path of the resized image, or the
    original path when anything above raised. *)
Definition resize_image_to_16_9 (env : Env) (fs : FS.t) (image_path : FS.path)
    (temp_folder : string) : FS.t * FS.path :=
  match resize_attempt env fs image_path temp_folder with
  | (fs', Some (resized_path, _)) => (fs', resized_path)
  | (fs', None) => (fs', image_path)
  end.

End Legacy.

(** ** The driver videos of the assets folder (path_utils.py, 104-144) *)

Module PathManager.

Definition video_extensions : list string := [".mp4"; ".mov"; ".webm"; ".avi"; ".mkv"].

(** [assets_dir.glob('*' + ext)]: the direct entries of a directory whose
    name ends with [ext]; nothing for what is not a directory. *)
Definition glob (env : Env) (fs : FS.t) (dir : FS.path) (ext : string) : list FS.path :=
  if FS.is_dir fs dir
  then filter (fun p => DuplicateGuard.glob_match env ext (FS.name p)) (FS.iterdir fs dir)
  else [].

(** Lines 136-139: [all_videos] after the loop over the extensions. *)
Definition all_videos (env : Env) (fs : FS.t) (assets_dir : FS.path) : list FS.path :=
  if FS.exists_ fs assets_dir then
    flat_map (fun ext => glob env fs assets_dir ext ++ glob env fs assets_dir (Py.upper ext))
             video_extensions
  else [].

(** Equality of two [Path]s: Windows paths compare without case. *)
Definition same_path (env : Env) (p q : FS.path) : bool :=
  if windows env then FS.path_eqb (map Py.lower p) (map Py.lower q) else FS.path_eqb p q.

(** [list(set(paths))]: one path of each class of equal paths. The order
    of a set is not specified; the sort below does not depend on it, the
    paths that are left having different names. *)
Fixpoint unique (env : Env) (paths : list FS.path) : list FS.path :=
  match paths with
  | [] => []
  | p :: rest => p :: filter (fun q => negb (same_path env p q)) (unique env rest)
  end.

(** [sorted(unique_videos, key=lambda x: x.name)], a stable sort. *)
Fixpoint insert_sorted (x : FS.path) (sorted : list FS.path) : list FS.path :=
  match sorted with
  | [] => [x]
  | y :: rest =>
      if String.leb (FS.name y) (FS.name x) then y :: insert_sorted x rest
      else x :: sorted
  end.

Definition sorted_by_name (videos : list FS.path) : list FS.path :=
  fold_left (fun acc x => insert_sorted x acc) videos [].

(** [get_all_driver_videos()]. *)
Definition get_all_driver_videos (env : Env) (fs : FS.t) (project_dir : FS.path)
    : list FS.path :=
  let assets_dir := project_dir ++ ["assets"] in
  sorted_by_name (unique env (all_videos env fs assets_dir)).

(** [get_default_driver_video()]. *)
Definition get_default_driver_video (env : Env) (fs : FS.t) (project_dir : FS.path)
    : option FS.path :=
  match get_all_driver_videos env fs project_dir with
  | [] => None
  | (first :: _) as assets_videos =>
      match find (fun video => Py.contains "driver" (Py.lower (FS.name video))) assets_videos with
      | Some video => Some video
      | None => Some first
      end
  end.

End PathManager.

(** ** The counts of the menu (runway_automation_ui.py, 1217-1246 and 1678-1717) *)

Module UI.

Definition image_extensions : list string :=
  [".jpg"; ".jpeg"; ".png"; ".bmp"; ".gif"; ".webp"; ".tiff"; ".tif"].

(** [self.config.get('image_search_pattern', 'genx').lower()]; [None]
    when the entry is not a string, for which [.lower()] raises. *)
Definition pattern (config : Dict.t) : option string :=
  match Dict.get "image_search_pattern" (VStr "genx") config with
  | VStr s => Some (Py.lower s)
  | _ => None
  end.

(** [self.config.get('exact_match', False)] as the [if] reads it. *)
Definition exact_match (config : Dict.t) : bool :=
  truthy (Dict.get "exact_match" (VBool false) config).

(** The body of the loop over the entries of a folder: is the entry counted? *)
Definition matches (fs : FS.t) (pattern : string) (exact_match : bool) (file_path : FS.path)
    : bool :=
  if FS.is_file fs file_path
     && Py.mem (Py.lower (PurePath.suffix (FS.name file_path))) image_extensions
  then
    let filename_lower := Py.lower (FS.name file_path) in
    if exact_match then PatternMatcher.regex_search_from None pattern filename_lower
    else Py.contains pattern filename_lower
  else false.

(** [get_genx_files_in_folder(folder_path)]: what [iterdir] raises on a
    path that is no directory is caught and the empty list returned. *)
Definition get_genx_files_in_folder (config : Dict.t) (fs : FS.t) (folder_path : FS.path)
    : option (list FS.path) :=
  match pattern config with
  | None => None
  | Some pattern =>
      Some (if FS.is_dir fs folder_path
            then filter (matches fs pattern (exact_match config)) (FS.iterdir fs folder_path)
            else [])
  end.

(** [count_genx_files(root_directory)]. *)
Definition count_genx_files (config : Dict.t) (fs : FS.t) (root_directory : FS.path)
    : option Z :=
  match pattern config with
  | None => None
  | Some pattern =>
      Some (if FS.is_dir fs root_directory then
              fold_left
                (fun count folder_path =>
                   if FS.is_dir fs folder_path then
                     fold_left
                       (fun count file_path =>
                          if matches fs pattern (exact_match config) file_path
                          then (count + 1)%Z else count)
                       (FS.iterdir fs folder_path) count
                   else count)
                (FS.iterdir fs root_directory) 0%Z
            else 0%Z)
  end.

(** [get_all_folders(root_directory)] of the menu: the call of
    [get_genx_files_in_folder] is inside the [try], so that a pattern that
    is no string ends the loop at the first folder, with nothing listed. *)
Definition get_all_folders (config : Dict.t) (fs : FS.t) (root_directory : FS.path)
    : list FS.path :=
  if FS.is_dir fs root_directory then
    filter (fun folder_path =>
              FS.is_dir fs folder_path
              && match get_genx_files_in_folder config fs folder_path with
                 | Some (_ :: _) => true
                 | _ => false
                 end)
           (match pattern config with
            | None => []
            | Some _ => FS.iterdir fs root_directory
            end)
  else [].

End UI.

(** ** Words for the further properties *)

Module Terms.

(** A token: not empty, and free of white space. *)
Definition is_token (w : string) : Prop :=
  w <> EmptyString /\ forall c, In c (list_ascii_of_string w) -> Py.isspace c = false.

(** A name of ASCII characters only, on which the string primitives above
    are Python's; a name that is one path component besides: no separator. *)
Definition is_ascii (c : ascii) : bool := (Py.code c <? 128)%nat.

Definition ascii_only (s : string) : Prop :=
  forall c, In c (list_ascii_of_string s) -> is_ascii c = true.

Definition plain_name (s : string) : Prop :=
  forall c, In c (list_ascii_of_string s) ->
            is_ascii c = true /\ c <> "/"%char /\ c <> "\"%char.

(** An extension without a dot inside. *)
Definition dotless (e : string) : Prop :=
  forall c, In c (list_ascii_of_string e) -> c <> "."%char.

(** The order in which [get_all_folders] sorts, and the folders of one key. *)
Definition key_le (a b : FS.path) : Prop :=
  String.leb (Scanner.sort_key a) (Scanner.sort_key b) = true.

Definition has_key (k : string) (p : FS.path) : bool := String.eqb (Scanner.sort_key p) k.

(** The keys of a dict as Python has them: distinct. *)
Fixpoint distinct (keys : list string) : bool :=
  match keys with
  | [] => true
  | k :: r => negb (Py.mem k r) && distinct r
  end.

(** What line 629 counts: an image file whose name carries ['genx']. *)
Definition is_genx_image (fs : FS.t) (f : FS.path) : bool :=
  FS.is_file fs f
  && Py.contains "genx" (Py.lower (FS.name f))
  && Py.mem (Py.lower (PurePath.suffix (FS.name f))) Scanner.image_extensions.

(** The file names a subject for whom the duplicate guard finds a video. *)
Definition already_generated (env : Env) (fs : FS.t) (f : FS.path) : bool :=
  match Subject.extract_name_from_genx_filename (FS.name f) with
  | Some person_name =>
      DuplicateGuard.check_existing_videos env fs person_name (downloads_folder env)
  | None => false
  end.

(** The paths named by the ["Success"] lines, in order. *)
Fixpoint saved (tr : list event) : list FS.path :=
  match tr with
  | [] => []
  | Success p :: r => p :: saved r
  | _ :: r => saved r
  end.

(** The order of the names of two paths. *)
Definition name_le (a b : FS.path) : Prop := String.leb (FS.name a) (FS.name b) = true.

(** An entry of the assets folder whose name ends like a video's, in
    lower or in upper case. *)
Definition is_asset_video (env : Env) (fs : FS.t) (project_dir video : FS.path) : Prop :=
  FS.is_dir fs (project_dir ++ ["assets"]) = true /\
  In video (FS.iterdir fs (project_dir ++ ["assets"])) /\
  exists ext, In ext PathManager.video_extensions /\
              (DuplicateGuard.glob_match env ext (FS.name video) = true \/
               DuplicateGuard.glob_match env (Py.upper ext) (FS.name video) = true).

Definition names_driver (video : FS.path) : bool :=
  Py.contains "driver" (Py.lower (FS.name video)).

(** The number of files that the menu lists for a folder, and a sum. *)
Definition listed (config : Dict.t) (fs : FS.t) (folder_path : FS.path) : Z :=
  match UI.get_genx_files_in_folder config fs folder_path with
  | Some files => Z.of_nat (List.length files)
  | None => 0%Z
  end.

Definition total (counts : list Z) : Z := fold_right Z.add 0%Z counts.

End Terms.

(** ** More small worlds *)

Module Worlds.

(** Folders whose names differ by case only, and a file among them. *)
Definition mixed_case : FS.t :=
  [ ([], FS.Dir); (["root"], FS.Dir);
    (["root"; "beta"], FS.Dir); (["root"; "Alpha"], FS.Dir);
    (["root"; "notes.txt"], FS.File true (FS.Raw "n"));
    (["root"; "ALPHA"], FS.Dir); (["root"; "alpha"], FS.Dir) ].


(** The sample disk after a video for Jane Doe was downloaded. *)
Definition jane_done : State :=
  {| fs := Sample.disk ++ [(["downloads"; "jane_doe_final.mp4"], FS.File true (FS.Raw "v"))];
     driver_video_data_uri := None; trace := [] |}.

End Worlds.

(** * Theorems *)

(** ** Pattern matching *)

(** The selector of the graphical front end: with the pattern ["-selfie"]
    in exact mode, ["person-selfie.jpg"] matches and ["selfie-vacation.jpg"]
    does not. *)
Lemma matches_pattern_selfie :
  PatternMatcher._matches_pattern "person-selfie.jpg" "-selfie" true = true /\
  PatternMatcher._matches_pattern "selfie-vacation.jpg" "-selfie" true = false.
Proof. split; reflexivity. Qed.

(** C8, on the filter of the batch engine: the regular expression of
    [get_genx_image_files] wants a character outside [a-z0-9] (or the start
    of the name) before the pattern, so with the pattern ["-selfie"] in exact
    mode it rejects ["person-selfie.jpg"], which the claim and
    [_matches_pattern] accept; a folder that holds only this image yields
    no eligible image. *)
Theorem C8_generator_rejects_person_selfie :
  PatternMatcher.generator_matches "person-selfie.jpg" "-selfie" true = false /\
  PatternMatcher._matches_pattern "person-selfie.jpg" "-selfie" true = true /\
  PatternMatcher.generator_matches "selfie-vacation.jpg" "-selfie" true = false /\
  Scanner.get_genx_image_files Sample.env
    [([], FS.Dir); (["pics"], FS.Dir);
     (["pics"; "person-selfie.jpg"], FS.File true (FS.Raw "bytes"))]
    ["pics"] "-selfie" true = [].
Proof. repeat split; reflexivity. Qed.

(** ** Subject names *)

Lemma last_item_cons (x : string) (r : list string) :
  Py.last_item (x :: r) = Some (List.last r x).
Proof. reflexivity. Qed.

(** The subject of a file name, case by case. *)
Lemma extract_name_spec (filename subject : string) :
  Subject.extract_name_from_genx_filename filename = Some subject <->
  (let parts := Py.split (PurePath.stem filename) in
   (3 <= List.length parts)%nat /\
   (exists first rest, parts = first :: rest /\ Py.lower first = "genx") /\
   (exists last_part, Py.last_item parts = Some last_part /\ Py.lower last_part = "self") /\
   subject = Py.join " " (Py.middle parts)).
Proof.
  unfold Subject.extract_name_from_genx_filename. cbv zeta.
  destruct (Py.split (PurePath.stem filename)) as [|first rest] eqn:Hparts.
  - simpl. split; [discriminate|]. intros (Hlen & _). simpl in Hlen. lia.
  - rewrite last_item_cons.
    destruct ((3 <=? List.length (first :: rest))%nat
              && String.eqb (Py.lower first) "genx"
              && String.eqb (Py.lower (List.last rest first)) "self") eqn:Hcond.
    + apply andb_true_iff in Hcond as [Hcond Hlast].
      apply andb_true_iff in Hcond as [Hlen Hfirst].
      apply Nat.leb_le in Hlen. apply String.eqb_eq in Hfirst, Hlast.
      split.
      * intros H. injection H as <-. repeat split; eauto.
      * intros (_ & _ & _ & ->). reflexivity.
    + split; [discriminate|].
      intros (Hlen & (f & r & Hfr & Hf) & (l & Hl & Hlow) & _).
      injection Hfr as <- <-. injection Hl as <-.
      apply Nat.leb_le in Hlen. apply String.eqb_eq in Hf, Hlow.
      rewrite Hlen, Hf, Hlow in Hcond. discriminate Hcond.
Qed.

(** C4, amended: a subject is derived exactly when the name without its
    extension splits on white space into at least three tokens of which the
    first is ["genx"] and the last is ["self"], both compared without case
    and whatever the configured pattern is; the subject is the middle tokens
    joined by blanks. An image that matches the pattern and has no subject
    is always among the eligible images. *)
Theorem C4_subject_and_unconditional_inclusion
    (filename subject : string)
    (env : Env) (fs : FS.t) (folder file_path : FS.path)
    (search_pattern : string) (exact_match : bool) :
  (Subject.extract_name_from_genx_filename filename = Some subject <->
   (let parts := Py.split (PurePath.stem filename) in
    (3 <= List.length parts)%nat /\
    (exists first rest, parts = first :: rest /\ Py.lower first = "genx") /\
    (exists last_part, Py.last_item parts = Some last_part /\ Py.lower last_part = "self") /\
    subject = Py.join " " (Py.middle parts))) /\
  (FS.exists_ fs folder = true ->
   In file_path (FS.iterdir fs folder) ->
   Scanner.is_image_file fs file_path = true ->
   PatternMatcher.generator_matches (FS.name file_path) search_pattern exact_match = true ->
   Subject.extract_name_from_genx_filename (FS.name file_path) = None ->
   In file_path (Scanner.get_genx_image_files env fs folder search_pattern exact_match)).
Proof.
  split; [apply extract_name_spec|].
  intros Hex Hin Himg Hmatch Hnone.
  unfold Scanner.get_genx_image_files. rewrite Hex. cbn [negb].
  apply filter_In. split; [exact Hin|].
  unfold Scanner.keeps. now rewrite Himg, Hmatch, Hnone.
Qed.

Lemma C4_subject_and_unconditional_inclusion_witness :
  Subject.extract_name_from_genx_filename "genx CIRILA MUNYON self.jpg" = Some "CIRILA MUNYON" /\
  In ["pics"; "photo one.jpg"]
     (Scanner.get_genx_image_files Sample.env
        [([], FS.Dir); (["pics"], FS.Dir);
         (["pics"; "photo one.jpg"], FS.File true (FS.Raw "bytes"))]
        ["pics"] "photo" false).
Proof.
  pose proof (C4_subject_and_unconditional_inclusion
                "genx CIRILA MUNYON self.jpg" "CIRILA MUNYON" Sample.env
                [([], FS.Dir); (["pics"], FS.Dir);
                 (["pics"; "photo one.jpg"], FS.File true (FS.Raw "bytes"))]
                ["pics"] ["pics"; "photo one.jpg"] "photo" false) as [Hsubject Hkept].
  split.
  - apply Hsubject. cbv zeta. repeat split.
    + vm_compute. lia.
    + exists "genx", ["CIRILA"; "MUNYON"; "self"]. split; reflexivity.
    + exists "self". split; reflexivity.
  - apply Hkept; try reflexivity. vm_compute. auto.
Defined.

(** C4 as it is worded fails: with the configured pattern ["photo"], the
    name ["photo JANE DOE self.jpg"] has three tokens and more, begins with
    the pattern token and ends with the suffix token, yet no subject is
    derived from it; and ["GENX JANE DOE SELF.jpg"], whose first token is not
    the token ["genx"], has one. *)
Lemma C4_counterexample :
  Claimed.subject "photo" "photo JANE DOE self.jpg" = Some "JANE DOE" /\
  Subject.extract_name_from_genx_filename "photo JANE DOE self.jpg" = None /\
  Claimed.subject "genx" "GENX JANE DOE SELF.jpg" = None /\
  Subject.extract_name_from_genx_filename "GENX JANE DOE SELF.jpg" = Some "JANE DOE".
Proof. repeat split; reflexivity. Qed.

(** ** The duplicate guard *)

Lemma startswith_spec (p s : string) :
  Py.startswith p s = true <-> exists after, s = (p ++ after)%string.
Proof.
  revert s. induction p as [|a p IH]; intros s; simpl.
  - split; [intros _; now exists s | reflexivity].
  - destruct s as [|b s].
    + split; [discriminate | intros (x & Hx); discriminate Hx].
    + rewrite andb_true_iff, IH. split.
      * intros (Hab & after & ->). apply Ascii.eqb_eq in Hab as ->. now exists after.
      * intros (after & Heq). injection Heq as -> ->.
        split; [apply Ascii.eqb_refl | now exists after].
Qed.

Lemma contains_spec (p s : string) :
  Py.contains p s = true <->
  exists before after, s = (before ++ p ++ after)%string.
Proof.
  unfold Py.contains. induction s as [|c r IH].
  - simpl. destruct (Py.startswith p "") eqn:Hp.
    + split; [intros _|reflexivity].
      apply startswith_spec in Hp as (after & ->). now exists EmptyString, after.
    + split; [discriminate|]. intros (before & after & Heq).
      assert (Hs : Py.startswith p "" = true).
      { apply startswith_spec. destruct before; [|discriminate Heq]. now exists after. }
      congruence.
  - simpl. destruct (Py.startswith p (String c r)) eqn:Hp.
    + split; [intros _|reflexivity].
      apply startswith_spec in Hp as (after & ->). now exists EmptyString, after.
    + destruct (Py.find p r) as [i|]; simpl.
      * split; [intros _|reflexivity].
        destruct IH as [IH _]. destruct (IH eq_refl) as (before & after & ->).
        now exists (String c before), after.
      * split; [discriminate|]. intros (before & after & Heq).
        destruct before as [|b before].
        -- assert (Hs : Py.startswith p (String c r) = true)
             by (apply startswith_spec; now exists after).
           congruence.
        -- injection Heq as -> ->.
           destruct IH as [_ IH]. discriminate IH. now exists before, after.
Qed.

Lemma all_parts_in_spec (name_parts : list string) (video : FS.path) :
  DuplicateGuard.all_parts_in name_parts video = true <->
  forall part, In part name_parts ->
               Claimed.ci_substring part (PurePath.stem (FS.name video)).
Proof.
  unfold DuplicateGuard.all_parts_in, Claimed.ci_substring.
  rewrite forallb_forall. split; intros H part Hin.
  - apply contains_spec. now apply H.
  - apply contains_spec. now apply H.
Qed.

Lemma candidates_spec (env : Env) (fs : FS.t) (root video : FS.path) :
  In video (DuplicateGuard.candidates env fs root) <-> Claimed.video_file env fs root video.
Proof.
  unfold DuplicateGuard.candidates, Claimed.video_file, DuplicateGuard.rglob.
  rewrite in_flat_map. split.
  - intros (ext & Hext & Hin). apply filter_In in Hin as (Hwalk & Hglob). eauto.
  - intros (Hwalk & ext & Hext & Hglob). exists ext. split; [exact Hext|].
    apply filter_In. auto.
Qed.

(** The scan stops at the first video that carries every part. *)
Lemma scan_spec (name_parts : list string) (videos : list FS.path) :
  (fst (DuplicateGuard.scan name_parts videos) = true <->
   exists video, In video videos /\ DuplicateGuard.all_parts_in name_parts video = true) /\
  (forall seen, DuplicateGuard.scan name_parts videos = (true, seen) ->
     exists before video after,
       videos = before ++ video :: after /\ seen = before ++ [video] /\
       DuplicateGuard.all_parts_in name_parts video = true /\
       forall other, In other before -> DuplicateGuard.all_parts_in name_parts other = false).
Proof.
  induction videos as [|v rest [IHfound IHseen]]; simpl.
  - split.
    + split; [discriminate | intros (x & [] & _)].
    + intros seen H. discriminate H.
  - destruct (DuplicateGuard.all_parts_in name_parts v) eqn:Hv.
    + split.
      * simpl. split; [intros _; eauto | reflexivity].
      * intros seen H. injection H as <-.
        exists [], v, rest. repeat split; auto. intros other [].
    + destruct (DuplicateGuard.scan name_parts rest) as [found seen'] eqn:Hscan.
      simpl in *. split.
      * rewrite IHfound. split.
        -- intros (x & Hin & Hx). eauto.
        -- intros (x & [<-|Hin] & Hx); [congruence | eauto].
      * intros seen H. injection H as -> <-.
        destruct (IHseen seen' eq_refl) as (before & video & after & -> & -> & Hvideo & Hbefore).
        exists (v :: before), video, after. repeat split; auto.
        intros other [<-|Hin]; auto.
Qed.

(** C2: [check_existing_videos] answers [True] exactly when the search
    root exists and some video file below it, however deep, carries every
    white-space separated token of the subject name in its name without
    extension, case being ignored; and the scan looks at the candidates in
    order and at none after the first that matches. *)
Theorem C2_check_existing_videos
    (env : Env) (fs : FS.t) (name : string) (root : FS.path) :
  (DuplicateGuard.check_existing_videos env fs name root = true <->
   FS.exists_ fs root = true /\
   exists video, Claimed.video_file env fs root video /\
     forall part, In part (Py.split name) ->
                  Claimed.ci_substring part (PurePath.stem (FS.name video))) /\
  (forall seen,
     DuplicateGuard.check_existing_videos_seen env fs name root = (true, seen) ->
     exists before video after,
       DuplicateGuard.candidates env fs root = before ++ video :: after /\
       seen = before ++ [video] /\
       DuplicateGuard.all_parts_in (Py.split name) video = true /\
       forall other, In other before ->
                     DuplicateGuard.all_parts_in (Py.split name) other = false).
Proof.
  unfold DuplicateGuard.check_existing_videos, DuplicateGuard.check_existing_videos_seen.
  destruct (FS.exists_ fs root); cbn [negb].
  - destruct (scan_spec (Py.split name) (DuplicateGuard.candidates env fs root))
      as [Hfound Hseen].
    split; [|exact Hseen].
    rewrite Hfound. split.
    + intros (video & Hin & Hall). split; [reflexivity|].
      exists video. split; [now apply candidates_spec | now apply all_parts_in_spec].
    + intros (_ & video & Hvideo & Hall).
      exists video. split; [now apply candidates_spec | now apply all_parts_in_spec].
  - simpl. split.
    + split; [discriminate | intros (H & _); discriminate H].
    + intros seen H. discriminate H.
Qed.

Lemma C2_check_existing_videos_witness :
  DuplicateGuard.check_existing_videos_seen Sample.env
    [([], FS.Dir); (["downloads"], FS.Dir);
     (["downloads"; "john_smith.mp4"], FS.File true (FS.Raw "a"));
     (["downloads"; "old"], FS.Dir);
     (["downloads"; "old"; "jane_doe_final.mp4"], FS.File true (FS.Raw "b"));
     (["downloads"; "old"; "Doe Jane.mp4"], FS.File true (FS.Raw "c"))]
    "JANE DOE" ["downloads"]
  = (true, [["downloads"; "john_smith.mp4"]; ["downloads"; "old"; "jane_doe_final.mp4"]]) /\
  exists before video after,
    DuplicateGuard.candidates Sample.env
      [([], FS.Dir); (["downloads"], FS.Dir);
       (["downloads"; "john_smith.mp4"], FS.File true (FS.Raw "a"));
       (["downloads"; "old"], FS.Dir);
       (["downloads"; "old"; "jane_doe_final.mp4"], FS.File true (FS.Raw "b"));
       (["downloads"; "old"; "Doe Jane.mp4"], FS.File true (FS.Raw "c"))]
      ["downloads"] = before ++ video :: after /\
    [["downloads"; "john_smith.mp4"]; ["downloads"; "old"; "jane_doe_final.mp4"]]
      = before ++ [video] /\
    DuplicateGuard.all_parts_in (Py.split "JANE DOE") video = true /\
    forall other, In other before ->
                  DuplicateGuard.all_parts_in (Py.split "JANE DOE") other = false.
Proof.
  split; [reflexivity|].
  apply (proj2 (C2_check_existing_videos Sample.env _ "JANE DOE" ["downloads"])).
  reflexivity.
Defined.

(** ** The polling loop *)

Lemma poll_body (env : Env) (output_path : FS.path) (task_id : value) (st : State) (w : Z) :
  Client.poll env output_path task_id st w =
  if (w <? Client.max_wait)%Z then
    match Client.check_status env output_path task_id (w + 10) (sleep 10 st) with
    | (st', Some o) => (st', o)
    | (st', None) => Client.poll env output_path task_id st' (w + 10)
    end
  else (st, Client.Failed Client.TimedOut).
Proof.
  simp poll.
  destruct (Z_lt_dec w Client.max_wait) as [Hlt|Hge]; simpl.
  - destruct (Client.check_status env output_path task_id (w + 10) (sleep 10 st)) as [st' [o|]];
      simpl; destruct (Z.ltb_spec w Client.max_wait); try lia; reflexivity.
  - destruct (Z.ltb_spec w Client.max_wait); try lia; reflexivity.
Qed.

Lemma trace_emit (e : event) (st : State) : trace (emit e st) = trace st ++ [e].
Proof. reflexivity. Qed.

Lemma trace_with_fs (fs' : FS.t) (st : State) : trace (with_fs fs' st) = trace st.
Proof. reflexivity. Qed.

(** What fetching the video adds to the trace: at most one download. *)
Lemma fetch_video_trace (env : Env) (output_path : FS.path) (status_data : Dict.t)
    (st st' : State) (o : Client.outcome) :
  Client.fetch_video env output_path status_data st = (st', o) ->
  o <> Client.Failed Client.TimedOut /\
  (trace st' = trace st \/ exists url, trace st' = trace st ++ [Download url]).
Proof.
  unfold Client.fetch_video.
  destruct (Client.first_output status_data) as [video_url|];
    [|intros H; injection H as <- <-; split; [discriminate | auto]].
  destruct (truthy video_url);
    [|intros H; injection H as <- <-; split; [discriminate | auto]].
  destruct video_url;
    try (intros H; injection H as <- <-; split; [discriminate | auto]).
  destruct (http_download env s) as [video_response|];
    [|intros H; injection H as <- <-; split; [discriminate | right; now exists s]].
  destruct (status_code video_response =? 200)%Z;
    [|intros H; injection H as <- <-; split; [discriminate | right; now exists s]].
  destruct (FS.mkdir_parents _ _) as [fs1|];
    [|intros H; injection H as <- <-; split; [discriminate | right; now exists s]].
  destruct (FS.write fs1 output_path _) as [fs2|];
    intros H; injection H as <- <-; (split; [discriminate | right; now exists s]).
Qed.

(** One status check: the request, then either the loop goes on or the
    generation ends, after one download at most. *)
Lemma check_status_trace (env : Env) (output_path : FS.path) (task_id : value)
    (w : Z) (st st' : State) (r : option Client.outcome) :
  Client.check_status env output_path task_id w st = (st', r) ->
  match r with
  | None => trace st' = trace st ++ [GetTask task_id] /\ Claimed.pending (http_task env task_id w)
  | Some o =>
      o <> Client.Failed Client.TimedOut /\
      ~ Claimed.pending (http_task env task_id w) /\
      (trace st' = trace st ++ [GetTask task_id] \/
       exists url, trace st' = trace st ++ [GetTask task_id; Download url])
  end.
Proof.
  unfold Client.check_status, Claimed.pending.
  destruct (http_task env task_id w) as [resp|].
  2:{ intros H; injection H as <- <-. repeat split; [discriminate | | auto].
      intros (resp & d & Heq & _). discriminate Heq. }
  destruct (status_code resp =? 200)%Z eqn:Hcode; cbn [negb].
  2:{ intros H; injection H as <- <-. repeat split; [discriminate | | auto].
      intros (resp' & d & Heq & Hc & _). injection Heq as <-.
      rewrite Hc in Hcode. discriminate Hcode. }
  apply Z.eqb_eq in Hcode.
  destruct (json resp) as [[| | | | | |xs|status_data]|] eqn:Hjson;
    try (intros H; injection H as <- <-; repeat split; [discriminate | | auto];
         intros (resp' & d & Heq & _ & Hj & _); injection Heq as <-; congruence).
  destruct (is_str "SUCCEEDED" _) eqn:Hs.
  - destruct (Client.fetch_video env output_path status_data (emit (GetTask task_id) st))
      as [st2 o] eqn:Hfetch.
    intros H; injection H as <- <-.
    apply fetch_video_trace in Hfetch as [Hno Htr]. repeat split; [exact Hno| |].
    + intros (resp' & d & Heq & _ & Hj & Hs' & _). injection Heq as <-.
      rewrite Hjson in Hj. injection Hj as <-. congruence.
    + rewrite trace_emit in Htr. destruct Htr as [->|(url & ->)]; [auto|].
      right. exists url. now rewrite <- app_assoc.
  - destruct (is_str "FAILED" _) eqn:Hf.
    + intros H; injection H as <- <-. repeat split; [discriminate | | auto].
      intros (resp' & d & Heq & _ & Hj & _ & Hf'). injection Heq as <-.
      rewrite Hjson in Hj. injection Hj as <-. congruence.
    + intros H; injection H as <- <-. split; [reflexivity|].
      exists resp, status_data. auto.
Qed.

Lemma rounds_snoc (k : nat) (task_id : value) (tail : list event) :
  Sleep 10 :: GetTask task_id :: Trace.rounds k task_id ++ tail
  = Trace.rounds (S k) task_id ++ tail.
Proof. reflexivity. Qed.

(** The loop entered with [k] turns left makes [j <= k] turns; it ends in
    the time-out when every one of the [k] checks finds the task pending. *)
Lemma poll_rounds (env : Env) (output_path : FS.path) (task_id : value) :
  forall (k : nat) (w : Z) (st st' : State) (o : Client.outcome),
    w = (Client.max_wait - 10 * Z.of_nat k)%Z ->
    Client.poll env output_path task_id st w = (st', o) ->
    exists (j : nat) (tail : list event),
      (j <= k)%nat /\
      trace st' = trace st ++ Trace.rounds j task_id ++ tail /\
      (tail = [] \/ exists url, tail = [Download url]) /\
      ((forall i : Z, (1 <= i <= Z.of_nat k)%Z ->
                      Claimed.pending (http_task env task_id (w + 10 * i)%Z)) ->
       o = Client.Failed Client.TimedOut /\ j = k /\ tail = []).
Proof.
  induction k as [|k IH]; intros w st st' o Hw; rewrite poll_body.
  - assert (Hlt : (w <? Client.max_wait)%Z = false) by (apply Z.ltb_ge; lia).
    rewrite Hlt. intros H; injection H as <- <-.
    exists 0%nat, []. repeat split; auto. simpl. now rewrite app_nil_r.
  - assert (Hlt : (w <? Client.max_wait)%Z = true) by (apply Z.ltb_lt; lia).
    rewrite Hlt.
    destruct (Client.check_status env output_path task_id (w + 10) (sleep 10 st))
      as [st1 [o1|]] eqn:Hcheck; apply check_status_trace in Hcheck.
    + intros H; injection H as <- <-.
      destruct Hcheck as (Hno & Hnot & Htr).
      unfold sleep in Htr. rewrite trace_emit in Htr.
      assert (Hfirst : (forall i : Z, (1 <= i <= Z.of_nat (S k))%Z ->
                          Claimed.pending (http_task env task_id (w + 10 * i)%Z)) -> False).
      { intros Hall. apply Hnot.
        replace (w + 10)%Z with (w + 10 * 1)%Z by lia. apply Hall. lia. }
      destruct Htr as [Htr|(url & Htr)].
      * exists 1%nat, []. split; [lia|]. split; [|split; [auto|]].
        -- rewrite Htr, <- app_assoc. reflexivity.
        -- intros Hall. destruct (Hfirst Hall).
      * exists 1%nat, [Download url]. split; [lia|]. split; [|split; [eauto|]].
        -- rewrite Htr, <- app_assoc. reflexivity.
        -- intros Hall. destruct (Hfirst Hall).
    + intros Hpoll. destruct Hcheck as [Htr _].
      unfold sleep in Htr. rewrite trace_emit in Htr.
      apply IH in Hpoll; [|lia].
      destruct Hpoll as (j & tail & Hj & Htr' & Htail & Htimeout).
      exists (S j), tail. split; [lia|]. split; [|split; [exact Htail|]].
      * rewrite Htr', Htr, <- !app_assoc. reflexivity.
      * intros Hall.
        destruct Htimeout as (-> & -> & ->); [|auto].
        intros i Hi.
        replace (w + 10 + 10 * i)%Z with (w + 10 * (i + 1))%Z by lia. apply Hall. lia.
Qed.

Lemma rounds_checks_slept (k : nat) (task_id : value) (tail : list event) :
  (tail = [] \/ exists url, tail = [Download url]) ->
  Trace.checks (Trace.rounds k task_id ++ tail) = Z.of_nat k /\
  Trace.slept (Trace.rounds k task_id ++ tail) = (10 * Z.of_nat k)%Z.
Proof.
  intros Htail. induction k as [|k [IH1 IH2]].
  - destruct Htail as [->|(url & ->)]; split; reflexivity.
  - cbn [Trace.rounds app Trace.checks Trace.slept]. rewrite IH1, IH2. split; lia.
Qed.

(** C9: the polling loop of a submission is made of turns [sleep 10
    seconds, check the status]; it makes at most 60 of them, so at most 600
    seconds of sleep, and always ends; when each of the 60 checks finds the
    task neither succeeded nor failed, it ends in the time-out after exactly
    60 turns. *)
Theorem C9_polling_is_bounded
    (env : Env) (output_path : FS.path) (task_id : value) (st : State) :
  exists (st' : State) (o : Client.outcome) (turns : nat) (tail : list event),
    Client.poll env output_path task_id st 0 = (st', o) /\
    trace st' = trace st ++ Trace.rounds turns task_id ++ tail /\
    (tail = [] \/ exists url, tail = [Download url]) /\
    (turns <= 60)%nat /\
    Trace.checks (Trace.rounds turns task_id ++ tail) = Z.of_nat turns /\
    (Trace.slept (Trace.rounds turns task_id ++ tail) = 10 * Z.of_nat turns)%Z /\
    (Trace.slept (Trace.rounds turns task_id ++ tail) <= 600)%Z /\
    ((forall i : Z, (1 <= i <= 60)%Z ->
                    Claimed.pending (http_task env task_id (10 * i)%Z)) ->
     o = Client.Failed Client.TimedOut /\ turns = 60%nat).
Proof.
  destruct (Client.poll env output_path task_id st 0) as [st' o] eqn:Hpoll.
  destruct (poll_rounds env output_path task_id 60 0 st st' o) as
    (j & tail & Hj & Htr & Htail & Htimeout); [reflexivity | exact Hpoll |].
  destruct (rounds_checks_slept j task_id tail Htail) as [Hchecks Hslept].
  exists st', o, j, tail.
  split; [reflexivity|]. split; [exact Htr|]. split; [exact Htail|].
  split; [exact Hj|]. split; [exact Hchecks|]. split; [exact Hslept|].
  split; [lia|].
  intros Hall. destruct Htimeout as (-> & -> & _); [|auto].
  intros i Hi. apply Hall. exact Hi.
Qed.

Lemma C9_polling_is_bounded_witness :
  exists (st' : State) (tail : list event),
    Client.poll Sample.env_running ["out"; "video.mp4"] (VStr "task-1") Sample.start 0
      = (st', Client.Failed Client.TimedOut) /\
    trace st' = trace Sample.start ++ Trace.rounds 60 (VStr "task-1") ++ tail.
Proof.
  destruct (C9_polling_is_bounded Sample.env_running ["out"; "video.mp4"]
              (VStr "task-1") Sample.start)
    as (st' & o & turns & tail & Hpoll & Htrace & _ & _ & _ & _ & _ & Htimeout).
  destruct Htimeout as [-> ->].
  - intros i _. exists (Sample.ok_json [("status", VStr "RUNNING")]), [("status", VStr "RUNNING")].
    repeat split; reflexivity.
  - exists st', tail. split; [exact Hpoll | exact Htrace].
Defined.

(** ** What a generation adds to the trace *)

Lemma prepare_driver_trace (env : Env) (st st0 : State) (r : Client.failure + data_uri) :
  Client.prepare_driver env st = (st0, r) -> trace st0 = trace st.
Proof.
  unfold Client.prepare_driver.
  destruct (negb _); [intros H; injection H as <- <-; reflexivity|].
  destruct (driver_video_data_uri st); [intros H; injection H as <- <-; reflexivity|].
  destruct (Encode.encode_video_to_data_uri _ _);
    intros H; injection H as <- <-; reflexivity.
Qed.

Lemma submit_trace (env : Env) (payload : Dict.t) (st st2 : State) (r : Client.failure + value) :
  Client.submit env payload st = (st2, r) ->
  trace st2 = trace st ++ [Post payload] /\ fs st2 = fs st.
Proof.
  unfold Client.submit.
  destruct (http_post env payload) as [resp|];
    [|intros H; injection H as <- <-; split; reflexivity].
  destruct (negb _); [intros H; injection H as <- <-; split; reflexivity|].
  destruct (json resp) as [[| | | | | | |task_data]|];
    try (intros H; injection H as <- <-; split; reflexivity).
  destruct (Dict.lookup "id" task_data);
    intros H; injection H as <- <-; split; reflexivity.
Qed.

Lemma rounds_client (k : nat) (task_id : value) (tail : list event) :
  (tail = [] \/ exists url, tail = [Download url]) ->
  forallb Trace.is_client (Trace.rounds k task_id ++ tail) = true /\
  Trace.posted (Trace.rounds k task_id ++ tail) = [].
Proof.
  intros Htail. induction k as [|k IH]; [|exact IH].
  destruct Htail as [->|(url & ->)]; split; reflexivity.
Qed.

(** A generation adds events of the client only, and among them at most
    one submission, which then comes first. *)
Lemma create_trace (env : Env) (character_image_path output_folder : FS.path)
    (config : Dict.t) (st st' : State) (o : Client.outcome) :
  Client.create_act_two_generation env character_image_path output_folder config st = (st', o) ->
  exists evs, trace st' = trace st ++ evs /\
              forallb Trace.is_client evs = true /\
              (evs = [] \/ exists payload rest,
                  evs = Post payload :: rest /\ Trace.posted rest = []).
Proof.
  unfold Client.create_act_two_generation.
  destruct (Client.prepare_driver env st) as [st0 [why|reference]] eqn:Hprep;
    apply prepare_driver_trace in Hprep.
  { intros H; injection H as <- <-. exists []. rewrite app_nil_r. auto. }
  destruct (Client.resolve_ratio _ _ _ _) as [target_ratio|];
    [|intros H; injection H as <- <-; exists []; rewrite app_nil_r; auto].
  destruct (Ratio.name target_ratio) as [ratio_name|];
    [|intros H; injection H as <- <-; exists []; rewrite app_nil_r; auto].
  destruct (Transform.resize_image_smart _ _ _ _ _) as [fs1 resized_image_path].
  destruct (Encode.encode_image_to_data_uri fs1 resized_image_path) as [uri|];
    [|intros H; injection H as <- <-; exists []; rewrite app_nil_r; auto].
  destruct (Client.submit env _ (with_fs fs1 st0)) as [st2 [why|task_id]] eqn:Hsub;
    apply submit_trace in Hsub as [Hsub _]; rewrite trace_with_fs, Hprep in Hsub.
  { intros H; injection H as <- <-. eexists. split; [exact Hsub|].
    split; [reflexivity|]. right. eauto. }
  intros Hpoll.
  apply (poll_rounds env _ task_id 60 0) in Hpoll; [|reflexivity].
  destruct Hpoll as (j & tail & _ & Htr & Htail & _).
  destruct (rounds_client j task_id tail Htail) as [Hclient Hposted].
  exists (Post (Client.build_payload config uri reference target_ratio)
            :: Trace.rounds j task_id ++ tail).
  split; [|split].
  - rewrite Htr, Hsub, <- app_assoc. reflexivity.
  - simpl. exact Hclient.
  - right. eauto.
Qed.

(** ** Counting over a trace *)

Lemma processed_app (a b : list event) :
  Trace.processed (a ++ b) = Trace.processed a ++ Trace.processed b.
Proof.
  induction a as [|[] a IH]; simpl; rewrite ?IH; reflexivity.
Qed.

Lemma successes_app (a b : list event) :
  Trace.successes (a ++ b) = (Trace.successes a + Trace.successes b)%Z.
Proof.
  induction a as [|[] a IH]; simpl; rewrite ?IH; lia.
Qed.

Lemma failures_app (a b : list event) :
  Trace.failures (a ++ b) = (Trace.failures a + Trace.failures b)%Z.
Proof.
  induction a as [|[] a IH]; simpl; rewrite ?IH; lia.
Qed.

Lemma delays_app (a b : list event) :
  Trace.delays (a ++ b) = Trace.delays a ++ Trace.delays b.
Proof.
  induction a as [|[] a IH]; simpl; rewrite ?IH; reflexivity.
Qed.

(** The events of the client are invisible to the four readers of the
    orchestrator. *)
Lemma client_events_silent (evs : list event) :
  forallb Trace.is_client evs = true ->
  Trace.processed evs = [] /\ Trace.successes evs = 0%Z /\
  Trace.failures evs = 0%Z /\ Trace.delays evs = [].
Proof.
  induction evs as [|[] evs IH]; simpl; intros H; try discriminate H; auto.
Qed.

(** ** The orchestrator *)

Lemma process_images_cons (env : Env) (output_directory : FS.path) (delay : Z)
    (co_located_output : bool) (n i : Z) (image_path : FS.path) (rest : list FS.path)
    (st : State) (s : Batch.summary) :
  Batch.process_images env output_directory delay co_located_output n i
    (image_path :: rest) (st, s) =
  let run := Client.create_act_two_generation env image_path
               (if co_located_output then FS.parent image_path else output_directory) []
               (emit (Processing image_path) st) in
  let logged := match Client.result (snd run) with
                | Some result => emit (Success result) (fst run)
                | None => emit (Failure image_path) (fst run)
                end in
  Batch.process_images env output_directory delay co_located_output n (i + 1)%Z rest
    (if (i <? n)%Z && (0 <? delay)%Z then emit (Delay delay) logged else logged,
     Batch.count_result (Client.result (snd run)) s).
Proof.
  cbn [Batch.process_images].
  destruct (Client.create_act_two_generation _ _ _ _ _) as [st2 o]. reflexivity.
Qed.

(** The loop over the images of a folder handles every image of the list,
    one after the other and whatever each generation returns: a path adds
    one to the successes, [None] adds one to the failures. *)
Lemma process_images_spec (env : Env) (output_directory : FS.path) (delay : Z)
    (co_located_output : bool) (n : Z) :
  forall (images : list FS.path) (i : Z) (st st' : State) (s s' : Batch.summary),
    Batch.process_images env output_directory delay co_located_output n i images (st, s)
      = (st', s') ->
    exists evs,
      trace st' = trace st ++ evs /\
      Trace.processed evs = images /\
      Batch.successful_generations s' = (Batch.successful_generations s + Trace.successes evs)%Z /\
      Batch.failed_generations s' = (Batch.failed_generations s + Trace.failures evs)%Z /\
      (Trace.successes evs + Trace.failures evs = Z.of_nat (List.length images))%Z /\
      Batch.total_images s' = Batch.total_images s /\
      Batch.skipped_duplicates s' = Batch.skipped_duplicates s /\
      Trace.delays evs = Trace.pauses delay n i (List.length images).
Proof.
  induction images as [|image_path rest IH]; intros i st st' s s'.
  - simpl. intros H; injection H as <- <-. exists []. rewrite app_nil_r.
    repeat split; simpl; lia.
  - rewrite process_images_cons. cbv zeta.
    destruct (Client.create_act_two_generation env image_path _ []
                (emit (Processing image_path) st)) as [st2 o] eqn:Hrun.
    apply create_trace in Hrun as (cevs & Htr2 & Hclient & _).
    apply client_events_silent in Hclient as (Hp & Hs & Hf & Hd).
    rewrite trace_emit in Htr2. cbn [fst snd].
    intros Hrest. apply IH in Hrest as (evs & Htr & Hproc & Hsucc & Hfail & Hsum & Htot & Hskip & Hdel).
    set (outcome_event := match Client.result o with
                          | Some result => Success result
                          | None => Failure image_path
                          end).
    set (pause := if (i <? n)%Z && (0 <? delay)%Z then [Delay delay] else []).
    exists (Processing image_path :: cevs ++ outcome_event :: pause ++ evs).
    assert (Htrace : trace st' =
              trace st ++ Processing image_path :: cevs ++ outcome_event :: pause ++ evs).
    { rewrite Htr. subst outcome_event pause.
      destruct (Client.result o); destruct ((i <? n)%Z && (0 <? delay)%Z);
        rewrite ?trace_emit, Htr2, <- ?app_assoc; reflexivity. }
    split; [exact Htrace|].
    assert (Hpause : Trace.processed pause = [] /\ Trace.successes pause = 0%Z /\
                     Trace.failures pause = 0%Z /\
                     Trace.delays pause =
                       if (i <? n)%Z && (0 <? delay)%Z then [delay] else []).
    { subst pause. destruct ((i <? n)%Z && (0 <? delay)%Z); repeat split. }
    destruct Hpause as (Hpp & Hps & Hpf & Hpd).
    cbn [Trace.processed Trace.successes Trace.failures Trace.delays].
    rewrite processed_app, successes_app, failures_app, delays_app, Hp, Hs, Hf, Hd.
    subst outcome_event.
    destruct (Client.result o) as [result|];
      cbn [Trace.processed Trace.successes Trace.failures Trace.delays app
           Batch.count_result Batch.successful_generations Batch.failed_generations
           Batch.total_images Batch.skipped_duplicates List.length Trace.pauses] in *;
      rewrite processed_app, successes_app, failures_app, delays_app, Hpp, Hps, Hpf, Hpd, Hproc, Hdel;
      repeat split; try reflexivity; try lia.
Qed.








(** ** The pause between two generations *)


(** C5, at two folders of one image each and a delay of seven seconds:
    both images are processed and no pause is made at all, although the
    first image is not the last of the batch. *)
Theorem C5_no_pause_between_folders :
  let st' := fst (Batch.process_all_images Sample.env ["root"] ["out"] 7 false Sample.start) in
  Trace.processed (trace st')
    = [["root"; "a"; "genx JANE DOE self.jpg"]; ["root"; "b"; "genx JOHN SMITH self.jpg"]] /\
  Trace.delays (trace st') = [].
Proof. vm_compute. split; reflexivity. Qed.

(** ** The file system *)

Lemma path_eqb_eq (p q : FS.path) : FS.path_eqb p q = true <-> p = q.
Proof.
  unfold FS.path_eqb. destruct (list_eq_dec string_dec p q); split; congruence.
Qed.

Lemma path_eqb_refl (p : FS.path) : FS.path_eqb p p = true.
Proof. now apply path_eqb_eq. Qed.

Lemma path_eqb_neq (p q : FS.path) : p <> q -> FS.path_eqb p q = false.
Proof.
  intros Hne. destruct (FS.path_eqb p q) eqn:H; [|reflexivity].
  apply path_eqb_eq in H. contradiction.
Qed.

Lemma lookup_app (q : FS.path) (a b : FS.t) :
  FS.lookup q (a ++ b) =
  match FS.lookup q a with Some n => Some n | None => FS.lookup q b end.
Proof.
  induction a as [|[p n] a IH]; simpl; [reflexivity|].
  destruct (FS.path_eqb q p); [reflexivity | exact IH].
Qed.

Lemma lookup_without (p q : FS.path) (fs : FS.t) :
  FS.lookup q (filter (fun e => negb (FS.path_eqb (fst e) p)) fs) =
  if FS.path_eqb q p then None else FS.lookup q fs.
Proof.
  induction fs as [|[r n] fs IH]; simpl.
  - now destruct (FS.path_eqb q p).
  - destruct (FS.path_eqb r p) eqn:Hrp; simpl.
    + rewrite IH. apply path_eqb_eq in Hrp as ->.
      now destruct (FS.path_eqb q p).
    + rewrite IH. destruct (FS.path_eqb q r) eqn:Hqr; [|reflexivity].
      apply path_eqb_eq in Hqr as ->. now rewrite Hrp.
Qed.

Lemma lookup_put (p q : FS.path) (n : FS.node) (fs : FS.t) :
  FS.lookup q (FS.put p n fs) = if FS.path_eqb q p then Some n else FS.lookup q fs.
Proof.
  unfold FS.put. rewrite lookup_app, lookup_without. simpl.
  destruct (FS.path_eqb q p); [reflexivity|].
  now destruct (FS.lookup q fs).
Qed.

(** Making a directory changes no file. *)
Lemma mkdir_read (fs fs' : FS.t) (p q : FS.path) :
  FS.mkdir fs p = Some fs' -> FS.read fs' q = FS.read fs q.
Proof.
  unfold FS.mkdir, FS.read.
  destruct (FS.lookup p fs) as [[|readable d]|] eqn:Hp; try discriminate.
  - intros H; injection H as <-. reflexivity.
  - destruct (FS.is_dir fs (FS.parent p)); [|discriminate].
    intros H; injection H as <-. rewrite lookup_put.
    destruct (FS.path_eqb q p) eqn:Hqp; [|reflexivity].
    apply path_eqb_eq in Hqp as ->. now rewrite Hp.
Qed.

(** A successful write leaves the data under the path, in a directory. *)
Lemma write_read (fs fs' : FS.t) (p : FS.path) (d : FS.content) :
  p <> [] ->
  FS.write fs p d = Some fs' ->
  FS.read fs' p = Some d /\ FS.is_dir fs' (FS.parent p) = true.
Proof.
  intros Hne. unfold FS.write, FS.read.
  assert (Hparent : FS.path_eqb (FS.parent p) p = false).
  { apply path_eqb_neq. unfold FS.parent. intros Heq.
    apply (f_equal (@List.length string)) in Heq.
    destruct (exists_last Hne) as (l & a & ->).
    rewrite removelast_last, length_app in Heq. simpl in Heq. lia. }
  assert (Hput : FS.is_dir fs (FS.parent p) = true ->
                 FS.lookup p (FS.put p (FS.File true d) fs) = Some (FS.File true d) /\
                 FS.is_dir (FS.put p (FS.File true d) fs) (FS.parent p) = true).
  { intros Hdir. unfold FS.is_dir in *.
    rewrite !lookup_put, path_eqb_refl, Hparent. auto. }
  destruct (FS.lookup p fs) as [[|[|] d0]|]; try discriminate;
    destruct (FS.is_dir fs (FS.parent p)) eqn:Hdir; try discriminate;
    intros H; injection H as <-; destruct (Hput eq_refl) as [-> ->]; auto.
Qed.

(** ** Where a generation saves its video *)

Lemma fetch_video_saved (env : Env) (output_path : FS.path) (status_data : Dict.t)
    (st st' : State) (p : FS.path) :
  output_path <> [] ->
  Client.fetch_video env output_path status_data st = (st', Client.Saved p) ->
  p = output_path /\
  (exists url video_response,
     http_download env url = Some video_response /\
     FS.read (fs st') p = Some (FS.Raw (content video_response))) /\
  FS.is_dir (fs st') (FS.parent p) = true.
Proof.
  intros Hne. unfold Client.fetch_video.
  destruct (Client.first_output status_data) as [video_url|]; [|discriminate].
  destruct (truthy video_url); [|discriminate].
  destruct video_url; try discriminate.
  destruct (http_download env s) as [video_response|] eqn:Hget; [|discriminate].
  destruct (status_code video_response =? 200)%Z; [|discriminate].
  destruct (FS.mkdir_parents _ _) as [fs1|]; [|discriminate].
  destruct (FS.write fs1 output_path _) as [fs2|] eqn:Hwrite; [|discriminate].
  intros H; injection H as <- <-.
  apply write_read in Hwrite as [Hread Hdir]; [|exact Hne].
  split; [reflexivity|]. split; [|exact Hdir]. eauto.
Qed.

Lemma check_status_saved (env : Env) (output_path : FS.path) (task_id : value) (w : Z)
    (st st' : State) (p : FS.path) :
  output_path <> [] ->
  Client.check_status env output_path task_id w st = (st', Some (Client.Saved p)) ->
  p = output_path /\
  (exists url video_response,
     http_download env url = Some video_response /\
     FS.read (fs st') p = Some (FS.Raw (content video_response))) /\
  FS.is_dir (fs st') (FS.parent p) = true.
Proof.
  intros Hne. unfold Client.check_status.
  destruct (http_task env task_id w) as [resp|]; [|discriminate].
  destruct (negb _); [discriminate|].
  destruct (json resp) as [[| | | | | | |status_data]|]; try discriminate.
  destruct (is_str "SUCCEEDED" _).
  - destruct (Client.fetch_video env output_path status_data _) as [st2 o] eqn:Hfetch.
    intros H; injection H as <- ->. now apply fetch_video_saved in Hfetch.
  - destruct (is_str "FAILED" _); discriminate.
Qed.

Lemma poll_saved (env : Env) (output_path : FS.path) (task_id : value) :
  output_path <> [] ->
  forall (k : nat) (w : Z) (st st' : State) (p : FS.path),
    w = (Client.max_wait - 10 * Z.of_nat k)%Z ->
    Client.poll env output_path task_id st w = (st', Client.Saved p) ->
    p = output_path /\
    (exists url video_response,
       http_download env url = Some video_response /\
       FS.read (fs st') p = Some (FS.Raw (content video_response))) /\
    FS.is_dir (fs st') (FS.parent p) = true.
Proof.
  intros Hne. induction k as [|k IH]; intros w st st' p Hw; rewrite poll_body.
  - assert (Hlt : (w <? Client.max_wait)%Z = false) by (apply Z.ltb_ge; lia).
    rewrite Hlt. discriminate.
  - assert (Hlt : (w <? Client.max_wait)%Z = true) by (apply Z.ltb_lt; lia).
    rewrite Hlt.
    destruct (Client.check_status env output_path task_id (w + 10) (sleep 10 st))
      as [st1 [o1|]] eqn:Hcheck.
    + intros H; injection H as <- ->. now apply check_status_saved in Hcheck.
    + apply IH. lia.
Qed.

(** The entries of the catalog carry no ["name"]. *)
Lemma catalog_entries_unnamed (key : string) (r : Ratio.t) :
  Ratio.lookup key Ratio.AVAILABLE_RATIOS = Some r -> Ratio.name r = None.
Proof.
  unfold Ratio.AVAILABLE_RATIOS. cbn [Ratio.lookup].
  repeat (destruct (String.eqb key _); [intros H; injection H as <-; reflexivity|]).
  discriminate.
Qed.

(** In fixed mode the ratio that is handed on is an entry of the catalog
    as it stands, without a name. *)
Lemma resolve_ratio_fixed (env : Env) (fs : FS.t) (config : Dict.t)
    (character_image_path : FS.path) (r : Ratio.t) :
  is_str "smart" (Dict.get "aspect_ratio_mode" (VStr "smart") config) = false ->
  Client.resolve_ratio env fs config character_image_path = Some r ->
  Ratio.name r = None.
Proof.
  unfold Client.resolve_ratio. intros ->.
  destruct (Dict.get "fixed_aspect_ratio" (VStr "16:9") config);
    try (now apply catalog_entries_unnamed); try discriminate.
  destruct (Ratio.lookup s Ratio.AVAILABLE_RATIOS) eqn:Hs.
  - intros H; injection H as <-. now apply catalog_entries_unnamed in Hs.
  - now apply catalog_entries_unnamed.
Qed.

(** A generation that saves a video saves it under the output folder, as
    [<stem>_act_two_<ratio name, ':' turned into 'x'>.mp4], with the
    downloaded bytes. *)
Lemma create_saved (env : Env) (character_image_path output_folder : FS.path)
    (config : Dict.t) (st st' : State) (p : FS.path) :
  Client.create_act_two_generation env character_image_path output_folder config st
    = (st', Client.Saved p) ->
  exists st0 reference target_ratio ratio_name,
    Client.prepare_driver env st = (st0, inr reference) /\
    Client.resolve_ratio env (fs st0) config character_image_path = Some target_ratio /\
    Ratio.name target_ratio = Some ratio_name /\
    p = output_folder
          ++ [(PurePath.stem (FS.name character_image_path) ++ "_act_two_"
               ++ Py.replace_char ":" "x" ratio_name ++ ".mp4")%string] /\
    (exists url video_response,
       http_download env url = Some video_response /\
       FS.read (fs st') p = Some (FS.Raw (content video_response))) /\
    FS.is_dir (fs st') output_folder = true.
Proof.
  unfold Client.create_act_two_generation.
  destruct (Client.prepare_driver env st) as [st0 [why|reference]] eqn:Hprep; [discriminate|].
  destruct (Client.resolve_ratio _ _ _ _) as [target_ratio|] eqn:Hratio; [|discriminate].
  destruct (Ratio.name target_ratio) as [ratio_name|] eqn:Hname; [|discriminate].
  destruct (Transform.resize_image_smart _ _ _ _ _) as [fs1 resized_image_path].
  destruct (Encode.encode_image_to_data_uri fs1 resized_image_path) as [uri|]; [|discriminate].
  destruct (Client.submit env _ (with_fs fs1 st0)) as [st2 [why|task_id]]; [discriminate|].
  intros Hpoll.
  apply (poll_saved env _ task_id) with (k := 60%nat) in Hpoll;
    [| unfold Client.output_file; now destruct output_folder | reflexivity].
  destruct Hpoll as (-> & Hread & Hdir).
  exists st0, reference, target_ratio, ratio_name.
  unfold Client.output_file in *. unfold FS.parent in Hdir.
  rewrite removelast_last in Hdir. auto 10.
Qed.

(** In fixed ratio mode no generation ever saves a video: the catalog
    entry has no ["name"], and reading it raises before the image is even
    resized. *)
Lemma fixed_mode_never_saves (env : Env) (character_image_path output_folder : FS.path)
    (config : Dict.t) (st : State) :
  is_str "smart" (Dict.get "aspect_ratio_mode" (VStr "smart") config) = false ->
  Client.result
    (snd (Client.create_act_two_generation env character_image_path output_folder config st))
  = None /\
  Trace.posted
    (trace (fst (Client.create_act_two_generation env character_image_path output_folder
                   config st)))
  = Trace.posted (trace st).
Proof.
  intros Hfixed. unfold Client.create_act_two_generation.
  destruct (Client.prepare_driver env st) as [st0 [why|reference]] eqn:Hprep;
    apply prepare_driver_trace in Hprep; [simpl; now rewrite Hprep|].
  destruct (Client.resolve_ratio _ _ _ _) as [target_ratio|] eqn:Hratio;
    [|simpl; now rewrite Hprep].
  apply resolve_ratio_fixed in Hratio; [|exact Hfixed].
  rewrite Hratio. simpl. now rewrite Hprep.
Qed.

(** C3, at the failing input: with any of the six ratios pinned, on a
    service that accepts and completes every task, the generation returns
    nothing, submits nothing and leaves the output folder without the video
    that the claim names. *)
Theorem C3_fixed_ratio_generation_fails :
  Forall
    (fun ratio_name =>
       let config := [("aspect_ratio_mode", VStr "fixed");
                      ("fixed_aspect_ratio", VStr ratio_name)] in
       let run := Client.create_act_two_generation Sample.env
                    ["root"; "a"; "genx JANE DOE self.jpg"] ["out"] config Sample.start in
       snd run = Client.Failed Client.Exception /\
       Trace.posted (trace (fst run)) = [] /\
       FS.exists_ (fs (fst run))
         (Client.output_file ["out"] ["root"; "a"; "genx JANE DOE self.jpg"] ratio_name)
       = false)
    ["16:9"; "9:16"; "1:1"; "4:3"; "3:4"; "21:9"] /\
  Client.create_act_two_generation Sample.env
    ["root"; "a"; "genx JANE DOE self.jpg"] ["out"] [] Sample.start
  = (fst (Client.create_act_two_generation Sample.env
            ["root"; "a"; "genx JANE DOE self.jpg"] ["out"] [] Sample.start),
     Client.Saved ["out"; "genx JANE DOE self_act_two_16x9.mp4"]).
Proof.
  split; [|vm_compute; reflexivity].
  repeat (apply Forall_cons; [vm_compute; auto|]). apply Forall_nil.
Qed.

(** ** When resizing raises *)

(** A resize that raises has changed no file: it has at most made the
    folder for the resized images. *)
Lemma resize_attempt_raised (env : Env) (fs fs1 : FS.t) (image_path : FS.path)
    (target_ratio : Ratio.t) (temp_folder : string) (q : FS.path) :
  Transform.resize_attempt env fs image_path target_ratio temp_folder = (fs1, None) ->
  FS.read fs1 q = FS.read fs q.
Proof.
  unfold Transform.resize_attempt.
  destruct (FS.mkdir fs _) as [fs0|] eqn:Hmk;
    [|intros H; injection H as <-; reflexivity].
  apply mkdir_read with (q := q) in Hmk.
  destruct (pil_open env fs0 image_path) as [img0|];
    [|intros H; injection H as <-; exact Hmk].
  destruct (Image.size _) as [original_width original_height].
  destruct (Transform.crop_box _ _ _) as [box|];
    [|intros H; injection H as <-; exact Hmk].
  destruct (Transform.crop box _) as [cropped_img|];
    [|intros H; injection H as <-; exact Hmk].
  destruct (Transform.resize _ _ _) as [resized_img|];
    [|intros H; injection H as <-; exact Hmk].
  destruct (Ratio.name target_ratio) as [n|];
    [|intros H; injection H as <-; exact Hmk].
  destruct (FS.write fs0 _ _) as [fs2|];
    [discriminate | intros H; injection H as <-; exact Hmk].
Qed.

(** C10, amended: when resizing raises, [resize_image_smart] gives back
    the path of the original image; the generation then tries to encode that
    original file: if its bytes can be read they are what is submitted to the
    remote service, and if they cannot the generation fails with the encoding
    error and submits nothing. *)
Theorem C10_resize_failure_falls_back
    (env : Env) (character_image_path output_folder : FS.path) (config : Dict.t)
    (st st0 : State) (reference : data_uri) (target_ratio : Ratio.t) (ratio_name : string)
    (fs1 : FS.t) :
  Client.prepare_driver env st = (st0, inr reference) ->
  Client.resolve_ratio env (fs st0) config character_image_path = Some target_ratio ->
  Ratio.name target_ratio = Some ratio_name ->
  Transform.resize_attempt env (fs st0) character_image_path target_ratio "temp_resized"
    = (fs1, None) ->
  Transform.resize_image_smart env (fs st0) character_image_path target_ratio "temp_resized"
    = (fs1, character_image_path) /\
  match FS.read (fs st0) character_image_path with
  | Some original =>
      exists st' o rest,
        Client.create_act_two_generation env character_image_path output_folder config st
          = (st', o) /\
        trace st' =
          trace st
          ++ Post (Client.build_payload config
                     (DataUri (Encode.image_mime
                                 (Py.lower (PurePath.suffix (FS.name character_image_path))))
                              original)
                     reference target_ratio) :: rest /\
        Trace.posted rest = []
  | None =>
      Client.create_act_two_generation env character_image_path output_folder config st
        = (with_fs fs1 st0, Client.Failed Client.ImageEncodeFailed) /\
      trace (with_fs fs1 st0) = trace st
  end.
Proof.
  intros Hprep Hratio Hname Hraised.
  assert (Hsmart : Transform.resize_image_smart env (fs st0) character_image_path
                     target_ratio "temp_resized" = (fs1, character_image_path)).
  { unfold Transform.resize_image_smart. now rewrite Hraised. }
  split; [exact Hsmart|].
  pose proof (resize_attempt_raised _ _ _ _ _ _ character_image_path Hraised) as Hread.
  unfold Client.create_act_two_generation.
  rewrite Hprep, Hratio, Hname, Hsmart.
  unfold Encode.encode_image_to_data_uri. rewrite Hread.
  apply prepare_driver_trace in Hprep.
  destruct (FS.read (fs st0) character_image_path) as [original|].
  - set (payload := Client.build_payload config _ reference target_ratio).
    destruct (Client.submit env payload (with_fs fs1 st0)) as [st2 [why|task_id]] eqn:Hsub;
      apply submit_trace in Hsub as [Hsub _]; rewrite trace_with_fs, Hprep in Hsub.
    + exists st2, (Client.Failed why), []. auto.
    + destruct (Client.poll env _ task_id st2 0) as [st' o] eqn:Hpoll.
      apply (poll_rounds env _ task_id 60 0) in Hpoll; [|reflexivity].
      destruct Hpoll as (j & tail & _ & Htr & Htail & _).
      destruct (rounds_client j task_id tail Htail) as [_ Hposted].
      exists st', o, (Trace.rounds j task_id ++ tail).
      split; [reflexivity|]. split; [|exact Hposted].
      rewrite Htr, Hsub, <- app_assoc. reflexivity.
  - split; [reflexivity|]. now rewrite trace_with_fs.
Qed.

Lemma C10_resize_failure_falls_back_witness :
  exists st' o rest,
    Client.create_act_two_generation Sample.env Sample.jane ["out"] [] Sample.corrupt = (st', o) /\
    trace st' =
      Post (Client.build_payload []
              (DataUri "image/jpeg" (FS.Raw "garbage"))
              (DataUri "video/mp4" (FS.Raw "driver-bytes"))
              (Ratio.named "1:1" (Ratio.mk None "960:960" 960 960 1%float))) :: rest /\
    Trace.posted rest = [].
Proof.
  edestruct (C10_resize_failure_falls_back Sample.env Sample.jane ["out"] [] Sample.corrupt)
    as [_ H].
  - vm_compute. reflexivity.
  - vm_compute. reflexivity.
  - vm_compute. reflexivity.
  - vm_compute. reflexivity.
  - change (FS.read _ Sample.jane) with (Some (FS.Raw "garbage")) in H.
    cbv iota beta in H.
    destruct H as (st' & o & rest & Hrun & Htr & Hposted).
    exists st', o, rest. split; [exact Hrun|]. split; [exact Htr | exact Hposted].
Defined.

(** C10 as it is worded fails on a file that cannot be read, the example
    the claim gives: resizing raises and the original path comes back, but
    encoding that file fails as well, so the generation ends with the
    encoding error and nothing is submitted. *)
Lemma C10_counterexample :
  snd (Transform.resize_attempt Sample.env (fs Sample.unreadable) Sample.jane
         (Ratio.named "1:1" (Ratio.mk None "960:960" 960 960 1%float)) "temp_resized") = None /\
  snd (Transform.resize_image_smart Sample.env (fs Sample.unreadable) Sample.jane
         (Ratio.named "1:1" (Ratio.mk None "960:960" 960 960 1%float)) "temp_resized")
    = Sample.jane /\
  snd (Client.create_act_two_generation Sample.env Sample.jane ["out"] [] Sample.unreadable)
    = Client.Failed Client.ImageEncodeFailed /\
  Trace.posted
    (trace (fst (Client.create_act_two_generation Sample.env Sample.jane ["out"] []
                   Sample.unreadable))) = [].
Proof. repeat split; vm_compute; reflexivity. Qed.

(** ** Rounding in binary64 *)

Module RoundFacts.
Import Real.
Local Open Scope R_scope.

Lemma bpow_gt_0 (e : Z) : 0 < bpow e.
Proof. unfold bpow. apply powerRZ_lt. lra. Qed.

Lemma bpow_plus (a b : Z) : bpow (a + b) = bpow a * bpow b.
Proof. unfold bpow. apply powerRZ_add. lra. Qed.

Lemma bpow_0 : bpow 0 = 1.
Proof. reflexivity. Qed.

Lemma bpow_1 : bpow 1 = 2.
Proof. unfold bpow. simpl. lra. Qed.

Lemma bpow_opp (e : Z) : bpow (- e) = / bpow e.
Proof.
  assert (H := bpow_plus e (- e)). rewrite Z.add_opp_diag_r, bpow_0 in H.
  assert (Hp := bpow_gt_0 e). apply Rmult_eq_reg_l with (bpow e); [|lra].
  rewrite <- H. field. lra.
Qed.

Lemma bpow_IZR (e : Z) : (0 <= e)%Z -> bpow e = IZR (2 ^ e).
Proof.
  intros He. unfold bpow.
  rewrite <- (Z2Nat.id e He) at 1. rewrite <- pow_powerRZ.
  rewrite <- (Z2Nat.id e He) at 2.
  rewrite <- pow_IZR. reflexivity.
Qed.

Lemma bpow_le (a b : Z) : (a <= b)%Z -> bpow a <= bpow b.
Proof.
  intros Hab. replace b with (a + (b - a))%Z by lia.
  rewrite bpow_plus. rewrite (bpow_IZR (b - a)) by lia.
  assert (H1 : (1 <= 2 ^ (b - a))%Z) by (apply Z.lt_pred_le, Z.pow_pos_nonneg; lia).
  apply IZR_le in H1. assert (Ha := bpow_gt_0 a). nra.
Qed.

Lemma bpow_lt (a b : Z) : (a < b)%Z -> bpow a < bpow b.
Proof.
  intros Hab. replace b with (a + (b - a))%Z by lia.
  rewrite bpow_plus. rewrite (bpow_IZR (b - a)) by lia.
  assert (H1 : (2 <= 2 ^ (b - a))%Z).
  { replace 2%Z with (2 ^ 1)%Z at 1 by reflexivity. apply Z.pow_le_mono_r; lia. }
  apply IZR_le in H1. assert (Ha := bpow_gt_0 a). nra.
Qed.

Lemma bpow_lt_inv (a b : Z) : bpow a < bpow b -> (a < b)%Z.
Proof.
  intros H. destruct (Z_lt_le_dec a b) as [Hlt|Hle]; [exact Hlt|].
  apply bpow_le in Hle. lra.
Qed.

(** The number of binary digits. *)
Lemma digits2_pos_bounds (p : positive) :
  (2 ^ (Zpos (digits2_pos p) - 1) <= Zpos p < 2 ^ Zpos (digits2_pos p))%Z.
Proof.
  induction p as [p IH|p IH|]; cbn [digits2_pos].
  - rewrite Pos2Z.inj_succ.
    replace (Z.succ (Zpos (digits2_pos p)) - 1)%Z with (Zpos (digits2_pos p) - 1 + 1)%Z by lia.
    rewrite Z.pow_succ_r by lia.
    assert (0 <= Zpos (digits2_pos p) - 1)%Z by lia.
    rewrite Z.pow_add_r by lia. lia.
  - rewrite Pos2Z.inj_succ.
    replace (Z.succ (Zpos (digits2_pos p)) - 1)%Z with (Zpos (digits2_pos p) - 1 + 1)%Z by lia.
    rewrite Z.pow_succ_r by lia.
    assert (0 <= Zpos (digits2_pos p) - 1)%Z by lia.
    rewrite Z.pow_add_r by lia. lia.
  - simpl. lia.
Qed.

Lemma digits_bounds_R (p : positive) :
  bpow (Zpos (digits2_pos p) - 1) <= IZR (Zpos p) < bpow (Zpos (digits2_pos p)).
Proof.
  destruct (digits2_pos_bounds p) as [Hlo Hhi].
  rewrite !bpow_IZR by lia. split; [apply IZR_le | apply IZR_lt]; assumption.
Qed.


Lemma bpow_m1 : bpow (-1) = / 2.
Proof. unfold bpow. simpl. lra. Qed.

Lemma IZR_xO (p : positive) : IZR (Zpos p~0) = 2 * IZR (Zpos p).
Proof. rewrite Pos2Z.inj_xO, mult_IZR. reflexivity. Qed.

Lemma IZR_xI (p : positive) : IZR (Zpos p~1) = 2 * IZR (Zpos p) + 1.
Proof. rewrite Pos2Z.inj_xI, plus_IZR, mult_IZR. reflexivity. Qed.

(** One shift to the right halves the number the record stands for. *)
Lemma shr_1_located (x : R) (r : shr_record) :
  (0 <= shr_m r)%Z -> located_rec x r ->
  located_rec (x / 2) (shr_1 r) /\ (0 <= shr_m (shr_1 r))%Z.
Proof.
  destruct r as [m rb sb]. unfold located_rec. cbn [shr_m].
  intros Hm Hloc.
  destruct m as [|p|p]; [| |lia].
  - destruct rb, sb; unfold shr_1, loc_of_shr_record, located in *; cbn [shr_m orb];
      (split; [lra | lia]).
  - destruct p as [p|p|]; destruct rb, sb;
      unfold shr_1, loc_of_shr_record, located in *; cbn [shr_m orb];
      try rewrite (IZR_xI p) in Hloc; try rewrite (IZR_xO p) in Hloc;
      (split; [lra | lia]).
Qed.

Lemma iter_shr_located (p : positive) :
  forall (x : R) (r : shr_record),
    (0 <= shr_m r)%Z -> located_rec x r ->
    located_rec (x * bpow (- Zpos p)) (iter_pos shr_1 p r) /\
    (0 <= shr_m (iter_pos shr_1 p r))%Z.
Proof.
  induction p as [p IH|p IH|]; intros x r Hm Hloc; cbn [iter_pos].
  - destruct (shr_1_located x r Hm Hloc) as [H1 Hm1].
    destruct (IH _ _ Hm1 H1) as [H2 Hm2].
    destruct (IH _ _ Hm2 H2) as [H3 Hm3].
    split; [|exact Hm3].
    replace (x * bpow (- Zpos p~1)) with (x / 2 * bpow (- Zpos p) * bpow (- Zpos p)); [exact H3|].
    replace (- Zpos p~1)%Z with (- Zpos p + - Zpos p + - 1)%Z by lia.
    rewrite !bpow_plus, bpow_m1. field.
  - destruct (IH _ _ Hm Hloc) as [H2 Hm2].
    destruct (IH _ _ Hm2 H2) as [H3 Hm3].
    split; [|exact Hm3].
    replace (x * bpow (- Zpos p~0)) with (x * bpow (- Zpos p) * bpow (- Zpos p)); [exact H3|].
    replace (- Zpos p~0)%Z with (- Zpos p + - Zpos p)%Z by lia.
    rewrite !bpow_plus. ring.
  - destruct (shr_1_located x r Hm Hloc) as [H1 Hm1].
    split; [|exact Hm1].
    replace (x * bpow (Z.opp 1)) with (x / 2); [exact H1|].
    change (Z.opp 1) with (-1)%Z. rewrite bpow_m1. field.
Qed.

Lemma located_record_of_loc (x : R) (m : Z) (l : location) :
  located x m l -> located_rec x (shr_record_of_loc m l).
Proof. unfold located_rec. destruct l as [|[]]; exact (fun H => H). Qed.

(** What is located in [[m, m+1)] is between [m] and [m + 1]. *)
Lemma located_bounds (x : R) (m : Z) (l : location) :
  located x m l -> IZR m <= x < IZR m + 1.
Proof. destruct l as [|[]]; simpl; lra. Qed.

(** Rounding to nearest, ties to even: one of the two neighbours, and the
    lower one when the number is exact or below the middle. *)
Lemma round_nearest_even_spec (x : R) (m : Z) (l : location) :
  located x m l ->
  (round_nearest_even m l = m /\ IZR m <= x) \/
  (round_nearest_even m l = (m + 1)%Z /\ IZR m < x).
Proof.
  destruct l as [|[]]; simpl; intros H.
  - left. split; [reflexivity | lra].
  - destruct (Z.even m); [left | right]; split; try reflexivity; lra.
  - left. split; [reflexivity | lra].
  - right. split; [reflexivity | lra].
Qed.


Lemma fexp64_eq (e : Z) : fexp64 e = Z.max (e - 53) (-1074).
Proof. reflexivity. Qed.

(** The first step of rounding: the mantissa is shifted until its
    exponent is the one of the format. *)
Lemma shr_fexp_located (x : R) (m e : Z) (l : location) :
  (0 <= m)%Z -> located x m l ->
  exists r' e',
    shr_fexp prec emax m e l = (r', e') /\
    e' = Z.max e (fexp64 (Zdigits2 m + e)) /\
    located_rec (x * bpow (e - e')) r' /\ (0 <= shr_m r')%Z.
Proof.
  intros Hm Hloc. unfold shr_fexp, shr. fold (fexp64 (Zdigits2 m + e)).
  assert (Hrec := located_record_of_loc x m l Hloc).
  assert (Hm0 : (0 <= shr_m (shr_record_of_loc m l))%Z) by (destruct l as [|[]]; exact Hm).
  destruct (fexp64 (Zdigits2 m + e) - e)%Z as [|p|p] eqn:Hn.
  - eexists _, _. split; [reflexivity|]. split; [lia|].
    replace (e - e)%Z with 0%Z by lia. rewrite bpow_0, Rmult_1_r. auto.
  - destruct (iter_shr_located p x _ Hm0 Hrec) as [H1 H2].
    eexists _, _. split; [reflexivity|]. split; [lia|].
    replace (e - (e + Zpos p))%Z with (- Zpos p)%Z by lia. auto.
  - eexists _, _. split; [reflexivity|]. split; [lia|].
    replace (e - e)%Z with 0%Z by lia. rewrite bpow_0, Rmult_1_r. auto.
Qed.

Lemma located_rec_loc (x : R) (r : shr_record) :
  located_rec x r -> located x (shr_m r) (loc_of_shr_record r).
Proof. exact (fun H => H). Qed.

(** The shape of a rounding: the mantissa [m2] that comes out of rounding
    to nearest at the exponent [e1] of the format, and the float made of it. *)
Lemma binary_round_aux_cases (s : bool) (x : R) (mx ex : Z) (lx : location) :
  (0 < mx)%Z -> located x mx lx ->
  (ex <= fexp64 (Zdigits2 mx + ex))%Z ->
  exists m1 m2 l1,
    let e1 := fexp64 (Zdigits2 mx + ex) in
    let x1 := x * bpow (ex - e1) in
    located x1 m1 l1 /\ (0 <= m1)%Z /\
    ((m2 = m1 /\ IZR m1 <= x1) \/ (m2 = (m1 + 1)%Z /\ IZR m1 < x1)) /\
    (m2 <= 2 ^ 53)%Z /\
    binary_round_aux prec emax s mx ex lx =
      if (m2 =? 0)%Z then S754_zero s
      else if (m2 <? 2 ^ 53)%Z then
        if (e1 <=? 971)%Z then S754_finite s (Z.to_pos m2) e1 else S754_infinity s
      else
        if (e1 + 1 <=? 971)%Z then S754_finite s (Z.to_pos (2 ^ 52)) (e1 + 1)
        else S754_infinity s.
Proof.
  intros Hmx Hloc Halign.
  destruct (shr_fexp_located x mx ex lx) as (r1 & e1 & Hshr & He1 & Hloc1 & Hm1);
    [lia | exact Hloc |].
  rewrite Z.max_r in He1 by exact Halign. subst e1.
  set (e1 := fexp64 (Zdigits2 mx + ex)) in *.
  set (x1 := x * bpow (ex - e1)) in *.
  set (m1 := shr_m r1) in *. set (l1 := loc_of_shr_record r1).
  apply located_rec_loc in Hloc1. fold m1 l1 in Hloc1.
  exists m1, (round_nearest_even m1 l1), l1. cbv zeta.
  split; [exact Hloc1|]. split; [exact Hm1|].
  assert (Hrne := round_nearest_even_spec x1 m1 l1 Hloc1).
  split; [exact Hrne|].
  (* the shifted mantissa has at most 53 digits *)
  assert (Hx1 : x1 < bpow 53).
  { destruct mx as [|p|p]; try lia.
    destruct (digits_bounds_R p) as [_ Hhi].
    destruct (located_bounds _ _ _ Hloc) as [_ Hx].
    destruct (digits2_pos_bounds p) as [_ HhiZ].
    assert (Hx' : x <= bpow (Zpos (digits2_pos p))).
    { rewrite bpow_IZR by lia.
      assert (Zpos p + 1 <= 2 ^ Zpos (digits2_pos p))%Z by lia.
      apply IZR_le in H. rewrite plus_IZR in H. lra. }
    unfold x1.
    assert (Hle : bpow (Zpos (digits2_pos p) + (ex - e1)) <= bpow 53).
    { apply bpow_le. unfold e1. rewrite fexp64_eq. cbn [Zdigits2]. lia. }
    rewrite bpow_plus in Hle.
    assert (Hpos := bpow_gt_0 (ex - e1)).
    assert (x * bpow (ex - e1) < bpow (Zpos (digits2_pos p)) * bpow (ex - e1) \/
            x = bpow (Zpos (digits2_pos p))) by (destruct Hx' as [Hlt|Heq]; [left; nra | right; exact Heq]).
    destruct H as [H|H]; [lra|].
    exfalso. rewrite H in Hx. rewrite bpow_IZR in Hx by lia.
    rewrite <- plus_IZR in Hx. apply lt_IZR in Hx. lia. }
  assert (Hm1lt : (m1 < 2 ^ 53)%Z).
  { apply lt_IZR. rewrite <- bpow_IZR by lia.
    destruct (located_bounds _ _ _ Hloc1). lra. }
  assert (Hm2 : (0 <= round_nearest_even m1 l1 <= 2 ^ 53)%Z)
    by (destruct Hrne as [[-> _]|[-> _]]; lia).
  split; [lia|].
  unfold binary_round_aux. rewrite Hshr. fold m1 l1.
  assert (He1min : (-1074 <= e1)%Z) by (unfold e1; rewrite fexp64_eq; lia).
  set (m2 := round_nearest_even m1 l1) in *.
  unfold shr_fexp, shr. fold (fexp64 (Zdigits2 m2 + e1)).
  destruct (Z.eqb_spec m2 0) as [H0|H0].
  - rewrite H0. cbn [Zdigits2 shr_record_of_loc].
    assert (Hn : (fexp64 (0 + e1) - e1 <= 0)%Z) by (rewrite fexp64_eq; lia).
    destruct (fexp64 (0 + e1) - e1)%Z; try lia; reflexivity.
  - destruct (Z.ltb_spec m2 (2 ^ 53)) as [Hlt|Hge].
    + destruct m2 as [|p|p]; try lia.
      cbn [Zdigits2 shr_record_of_loc].
      assert (Hd : (Zpos (digits2_pos p) <= 53)%Z).
      { destruct (digits2_pos_bounds p) as [Hlo _].
        assert (2 ^ (Zpos (digits2_pos p) - 1) < 2 ^ 53)%Z by lia.
        apply Z.pow_lt_mono_r_iff in H; lia. }
      assert (Hn : (fexp64 (Zpos (digits2_pos p) + e1) - e1 <= 0)%Z)
        by (rewrite fexp64_eq; lia).
      destruct (fexp64 (Zpos (digits2_pos p) + e1) - e1)%Z; try lia; reflexivity.
    + assert (Hm2eq : m2 = (2 ^ 53)%Z) by lia.
      rewrite Hm2eq.
      change (Zdigits2 (2 ^ 53)) with 54%Z.
      assert (Hn : (fexp64 (54 + e1) - e1 = 1)%Z) by (rewrite fexp64_eq; lia).
      rewrite Hn. reflexivity.
Qed.


Lemma bounded_facts (mb : positive) (eb : Z) :
  bounded prec emax mb eb = true ->
  fexp64 (Zpos (digits2_pos mb) + eb) = eb /\ (-1074 <= eb <= 971)%Z /\
  (Zpos (digits2_pos mb) <= 53)%Z /\
  ((-1074 < eb)%Z -> Zpos (digits2_pos mb) = 53%Z).
Proof.
  unfold bounded, canonical_mantissa. fold (fexp64 (Zpos (digits2_pos mb) + eb)).
  intros H. apply andb_true_iff in H as [Hc Hb].
  apply Z.eqb_eq in Hc. apply Z.leb_le in Hb.
  change (emax - prec)%Z with 971%Z in Hb.
  rewrite fexp64_eq in *. repeat split; lia.
Qed.

Lemma F2R_mul_pow (m a b : Z) :
  (b <= a)%Z -> IZR (m * 2 ^ (a - b)) * bpow b = F2R m a.
Proof.
  intros Hab. unfold F2R. rewrite mult_IZR, <- bpow_IZR by lia.
  replace a with ((a - b) + b)%Z at 2 by lia. rewrite bpow_plus. ring.
Qed.

Lemma IZR_pos_lt_bpow (p : positive) :
  IZR (Zpos p) < bpow (Zpos (digits2_pos p)).
Proof. apply digits_bounds_R. Qed.

Section Bound.

Variables (s : bool) (x : R) (mx ex : Z) (lx : location) (mb : positive) (eb : Z).
Hypothesis Hmx : (0 < mx)%Z.
Hypothesis Hloc : located x mx lx.
Hypothesis Halign : (ex <= fexp64 (Zdigits2 mx + ex))%Z.
Hypothesis Hbounded : bounded prec emax mb eb = true.

(** The number that is rounded is at least [2^(D-1)], [D] being the
    position of its leading digit. *)
Lemma value_ge_bpow : bpow (Zdigits2 mx + ex - 1) <= x * bpow ex.
Proof.
  destruct mx as [|p|p]; try lia. cbn [Zdigits2].
  destruct (digits_bounds_R p) as [Hlo _].
  destruct (located_bounds _ _ _ Hloc) as [Hx _].
  replace (Zpos (digits2_pos p) + ex - 1)%Z with (Zpos (digits2_pos p) - 1 + ex)%Z by lia.
  rewrite bpow_plus. assert (Hp := bpow_gt_0 ex). nra.
Qed.

(** Rounding is monotone, seen from above: what is below a float of the
    format is rounded below it, and does not overflow. *)
Lemma binary_round_aux_le :
  x * bpow ex <= F2R (Zpos mb) eb ->
  binary_round_aux prec emax s mx ex lx = S754_zero s \/
  exists m e,
    binary_round_aux prec emax s mx ex lx = S754_finite s m e /\
    F2R (Zpos m) e <= F2R (Zpos mb) eb.
Proof.
  intros Hle.
  destruct (binary_round_aux_cases s x mx ex lx Hmx Hloc Halign)
    as (m1 & m2 & l1 & Hloc1 & Hm1 & Hrne & Hm2 & ->).
  destruct (bounded_facts mb eb Hbounded) as (Hcan & Heb & Hdb & _).
  set (e1 := fexp64 (Zdigits2 mx + ex)) in *.
  set (x1 := x * bpow (ex - e1)) in *.
  assert (Hv : x * bpow ex = x1 * bpow e1).
  { unfold x1. rewrite Rmult_assoc, <- bpow_plus. f_equal. f_equal. lia. }
  assert (Hge := value_ge_bpow).
  assert (HB : F2R (Zpos mb) eb < bpow (Zpos (digits2_pos mb) + eb)).
  { unfold F2R. rewrite bpow_plus. assert (Hp := bpow_gt_0 eb).
    assert (H := IZR_pos_lt_bpow mb). nra. }
  assert (He1 : (e1 <= eb)%Z).
  { assert (Hlt : bpow (Zdigits2 mx + ex - 1) < bpow (Zpos (digits2_pos mb) + eb)) by lra.
    apply bpow_lt_inv in Hlt. unfold e1. rewrite <- Hcan, !fexp64_eq. lia. }
  assert (HK := F2R_mul_pow (Zpos mb) eb e1 He1).
  set (K := (Zpos mb * 2 ^ (eb - e1))%Z) in *.
  assert (Hp1 := bpow_gt_0 e1).
  assert (Hr : IZR m2 * bpow e1 <= F2R (Zpos mb) eb).
  { destruct Hrne as [[-> Hx1]|[-> Hx1]].
    - rewrite Hv in Hle. nra.
    - assert (IZR m1 < IZR K) by (rewrite Hv, <- HK in Hle; nra).
      apply lt_IZR in H. assert (Hk : (m1 + 1 <= K)%Z) by lia.
      apply IZR_le in Hk. rewrite <- HK. nra. }
  destruct (Z.eqb_spec m2 0) as [H0|H0]; [left; reflexivity | right].
  assert (Hm2pos : (0 < m2)%Z) by (destruct Hrne as [[-> _]|[-> _]]; lia).
  destruct (Z.ltb_spec m2 (2 ^ 53)) as [Hlt|Hge2].
  - assert (Hok : (e1 <=? 971)%Z = true) by (apply Z.leb_le; lia).
    rewrite Hok. exists (Z.to_pos m2), e1. split; [reflexivity|].
    unfold F2R at 1. rewrite Z2Pos.id by lia. exact Hr.
  - assert (Hm2eq : m2 = (2 ^ 53)%Z) by lia.
    assert (Hlt : (e1 < eb)%Z).
    { rewrite Hm2eq, <- bpow_IZR, <- bpow_plus in Hr by lia.
      assert (Hlt : bpow (53 + e1) < bpow (Zpos (digits2_pos mb) + eb)) by lra.
      apply bpow_lt_inv in Hlt. lia. }
    assert (Hok : (e1 + 1 <=? 971)%Z = true) by (apply Z.leb_le; lia).
    rewrite Hok. exists (Z.to_pos (2 ^ 52)), (e1 + 1)%Z. split; [reflexivity|].
    rewrite Hm2eq in Hr. unfold F2R at 1. rewrite Z2Pos.id by lia.
    rewrite <- bpow_IZR, <- bpow_plus in * by lia.
    replace (52 + (e1 + 1))%Z with (53 + e1)%Z by lia. exact Hr.
Qed.

(** Rounding is monotone, seen from below: what is above a float of the
    format is rounded above it, or overflows. *)
Lemma binary_round_aux_ge :
  F2R (Zpos mb) eb <= x * bpow ex ->
  binary_round_aux prec emax s mx ex lx = S754_infinity s \/
  exists m e,
    binary_round_aux prec emax s mx ex lx = S754_finite s m e /\
    F2R (Zpos mb) eb <= F2R (Zpos m) e.
Proof.
  intros Hle.
  destruct (binary_round_aux_cases s x mx ex lx Hmx Hloc Halign)
    as (m1 & m2 & l1 & Hloc1 & Hm1 & Hrne & Hm2 & ->).
  destruct (bounded_facts mb eb Hbounded) as (Hcan & Heb & Hdb & _).
  set (e1 := fexp64 (Zdigits2 mx + ex)) in *.
  set (x1 := x * bpow (ex - e1)) in *.
  assert (Hv : x * bpow ex = x1 * bpow e1).
  { unfold x1. rewrite Rmult_assoc, <- bpow_plus. f_equal. f_equal. lia. }
  assert (Hge := value_ge_bpow).
  assert (HB : F2R (Zpos mb) eb < bpow (Zpos (digits2_pos mb) + eb)).
  { unfold F2R. rewrite bpow_plus. assert (Hp := bpow_gt_0 eb).
    assert (H := IZR_pos_lt_bpow mb). nra. }
  assert (HB0 : 0 < F2R (Zpos mb) eb).
  { unfold F2R. assert (Hp := bpow_gt_0 eb).
    assert (H : 0 < IZR (Zpos mb)) by (apply IZR_lt; lia). nra. }
  assert (Hp1 := bpow_gt_0 e1).
  destruct (located_bounds _ _ _ Hloc1) as [Hlo1 Hhi1].
  assert (Hr : F2R (Zpos mb) eb <= IZR m2 * bpow e1).
  { destruct Hrne as [[-> Hx1]|[-> Hx1]].
    - destruct (Z_le_gt_dec e1 eb) as [He1|He1].
      + assert (HK := F2R_mul_pow (Zpos mb) eb e1 He1).
        set (K := (Zpos mb * 2 ^ (eb - e1))%Z) in *.
        assert (IZR K < IZR (m1 + 1)).
        { rewrite plus_IZR. rewrite Hv, <- HK in Hle. nra. }
        apply lt_IZR in H. assert (Hk : (K <= m1)%Z) by lia.
        apply IZR_le in Hk. rewrite <- HK. nra.
      + (* the bound lies in a lower binade *)
        assert (Hnorm : e1 = (Zdigits2 mx + ex - 53)%Z)
          by (unfold e1 in *; rewrite fexp64_eq in *; lia).
        assert (Hx52 : bpow 52 <= x1).
        { assert (H52 : bpow (Zdigits2 mx + ex - 1) = bpow 52 * bpow e1)
            by (rewrite <- bpow_plus; f_equal; lia).
          rewrite H52, Hv in Hge. nra. }
        assert (Hm52 : (2 ^ 52 <= m1)%Z).
        { rewrite bpow_IZR in Hx52 by lia.
          assert (IZR (2 ^ 52) < IZR (m1 + 1)) by (rewrite plus_IZR; lra).
          apply lt_IZR in H. lia. }
        apply IZR_le in Hm52. rewrite <- bpow_IZR in Hm52 by lia.
        assert (Hbb : bpow (Zpos (digits2_pos mb) + eb) <= bpow (52 + e1))
          by (apply bpow_le; lia).
        rewrite (bpow_plus 52 e1) in Hbb. nra.
    - rewrite plus_IZR. rewrite Hv in Hle. nra. }
  assert (Hm2pos : (0 < m2)%Z).
  { apply lt_IZR. nra. }
  destruct (Z.eqb_spec m2 0) as [H0|H0]; [lia|].
  destruct (Z.ltb_spec m2 (2 ^ 53)) as [Hlt|Hge2].
  - destruct (e1 <=? 971)%Z; [right | left; reflexivity].
    exists (Z.to_pos m2), e1. split; [reflexivity|].
    unfold F2R at 2. rewrite Z2Pos.id by lia. exact Hr.
  - assert (Hm2eq : m2 = (2 ^ 53)%Z) by lia.
    destruct (e1 + 1 <=? 971)%Z; [right | left; reflexivity].
    exists (Z.to_pos (2 ^ 52)), (e1 + 1)%Z. split; [reflexivity|].
    rewrite Hm2eq in Hr. unfold F2R at 2. rewrite Z2Pos.id by lia.
    rewrite <- bpow_IZR, <- bpow_plus in * by lia.
    replace (52 + (e1 + 1))%Z with (53 + e1)%Z by lia. exact Hr.
Qed.

End Bound.


(** ** Floats of the format and real numbers *)

Lemma F2R_pos (m : positive) (e : Z) : 0 < F2R (Zpos m) e.
Proof.
  unfold F2R. assert (Hp := bpow_gt_0 e).
  assert (H : 0 < IZR (Zpos m)) by (apply IZR_lt; lia). nra.
Qed.

Lemma F2R_lt_bpow (m : positive) (e : Z) :
  F2R (Zpos m) e < bpow (Zpos (digits2_pos m) + e).
Proof.
  unfold F2R. rewrite bpow_plus. assert (Hp := bpow_gt_0 e).
  assert (H := IZR_pos_lt_bpow m). nra.
Qed.

Lemma F2R_ge_bpow (m : positive) (e : Z) :
  bpow (Zpos (digits2_pos m) - 1 + e) <= F2R (Zpos m) e.
Proof.
  unfold F2R. rewrite bpow_plus. assert (Hp := bpow_gt_0 e).
  destruct (digits_bounds_R m) as [H _]. nra.
Qed.

(** Between floats of the format, a smaller exponent means a smaller number. *)
Lemma bounded_exponent_lt (m1 m2 : positive) (e1 e2 : Z) :
  bounded prec emax m1 e1 = true -> bounded prec emax m2 e2 = true ->
  (e1 < e2)%Z -> F2R (Zpos m1) e1 < F2R (Zpos m2) e2.
Proof.
  intros H1 H2 Hlt.
  destruct (bounded_facts m1 e1 H1) as (_ & He1 & Hd1 & _).
  destruct (bounded_facts m2 e2 H2) as (_ & He2 & _ & Hd2).
  assert (Hhi := F2R_lt_bpow m1 e1). assert (Hlo := F2R_ge_bpow m2 e2).
  rewrite Hd2 in Hlo by lia.
  assert (Hle : bpow (Zpos (digits2_pos m1) + e1) <= bpow (53 - 1 + e2)) by (apply bpow_le; lia).
  lra.
Qed.

(** The comparison of the specification is the comparison of the numbers. *)
Lemma SFltb_finite (m1 m2 : positive) (e1 e2 : Z) :
  bounded prec emax m1 e1 = true -> bounded prec emax m2 e2 = true ->
  (SFltb (S754_finite false m1 e1) (S754_finite false m2 e2) = true <->
   F2R (Zpos m1) e1 < F2R (Zpos m2) e2).
Proof.
  intros H1 H2. unfold SFltb, SFcompare.
  destruct (Z.compare_spec e1 e2) as [Heq|Hlt|Hgt].
  - subst e2. change (Pos.compare_cont Eq m1 m2) with (Pos.compare m1 m2).
    assert (Hp := bpow_gt_0 e1). unfold F2R.
    destruct (Pos.compare_spec m1 m2) as [Hm|Hm|Hm].
    + subst m2. split; [discriminate | lra].
    + split; [intros _ | reflexivity].
      assert (IZR (Zpos m1) < IZR (Zpos m2)) by (apply IZR_lt; lia). nra.
    + split; [discriminate|]. intros H.
      assert (IZR (Zpos m2) < IZR (Zpos m1)) by (apply IZR_lt; lia). nra.
  - split; [intros _ | reflexivity]. now apply bounded_exponent_lt.
  - split; [discriminate|]. intros H.
    assert (F2R (Zpos m2) e2 < F2R (Zpos m1) e1) by (apply bounded_exponent_lt; auto; lia).
    lra.
Qed.

Lemma ltb_nonneg_finite (a b : float) :
  nonneg_finite a -> nonneg_finite b ->
  (PrimFloat.ltb a b = true <-> fval a < fval b).
Proof.
  unfold nonneg_finite, fval. rewrite ltb_spec.
  pose proof (Prim2SF_valid a) as Va. pose proof (Prim2SF_valid b) as Vb.
  destruct (Prim2SF a) as [sa|sa| |[|] ma ea]; try contradiction;
    destruct (Prim2SF b) as [sb|sb| |[|] mb eb]; try contradiction; intros _ _.
  - cbn. split; [discriminate | lra].
  - cbn -[F2R]. assert (H := F2R_pos mb eb). split; [auto | reflexivity].
  - cbn -[F2R]. assert (H := F2R_pos ma ea). split; [discriminate | lra].
  - cbn [SF2R]. now apply SFltb_finite.
Qed.

Lemma ltb_infinity (a : float) : nonneg_finite a -> PrimFloat.ltb a infinity = true.
Proof.
  unfold nonneg_finite. rewrite ltb_spec.
  change (Prim2SF infinity) with (S754_infinity false).
  destruct (Prim2SF a) as [sa|sa| |[|] ma ea]; try contradiction; reflexivity.
Qed.


(** ** Aligning and rounding a mantissa *)

Lemma iter_xO_spec (m d : positive) :
  Zpos (Pos.iter xO m d) = (Zpos m * 2 ^ Zpos d)%Z /\
  Zpos (digits2_pos (Pos.iter xO m d)) = (Zpos (digits2_pos m) + Zpos d)%Z.
Proof.
  induction d as [|d [IH1 IH2]] using Pos.peano_ind.
  - cbn [Pos.iter digits2_pos]. split; lia.
  - rewrite Pos.iter_succ. cbn [digits2_pos]. split.
    + rewrite Pos2Z.inj_xO, IH1, Pos2Z.inj_succ, Z.pow_succ_r by lia. lia.
    + rewrite !Pos2Z.inj_succ, IH2. lia.
Qed.

Lemma shl_align_spec (mx : positive) (ex ex' : Z) :
  exists mz ez,
    shl_align mx ex ex' = (mz, ez) /\
    F2R (Zpos mz) ez = F2R (Zpos mx) ex /\
    ez = Z.min ex ex' /\
    (Zpos (digits2_pos mz) + ez = Zpos (digits2_pos mx) + ex)%Z.
Proof.
  unfold shl_align. destruct (ex' - ex)%Z as [|d|d] eqn:Hd.
  - exists mx, ex. repeat split; lia.
  - exists mx, ex. repeat split; lia.
  - destruct (iter_xO_spec mx d) as [Hv Hdig].
    exists (Pos.iter xO mx d), ex'. split; [reflexivity|]. split; [|split; lia].
    rewrite Hv. replace (Zpos d) with (ex - ex')%Z by lia.
    apply F2R_mul_pow. lia.
Qed.

Section RoundBound.

Variables (s : bool) (mx : positive) (ex : Z) (mb : positive) (eb : Z).
Hypothesis Hbounded : bounded prec emax mb eb = true.

Lemma binary_round_le :
  F2R (Zpos mx) ex <= F2R (Zpos mb) eb ->
  binary_round prec emax s mx ex = S754_zero s \/
  exists m e,
    binary_round prec emax s mx ex = S754_finite s m e /\
    F2R (Zpos m) e <= F2R (Zpos mb) eb.
Proof.
  intros Hle. unfold binary_round.
  destruct (shl_align_spec mx ex (fexp prec emax (Zpos (digits2_pos mx) + ex)))
    as (mz & ez & -> & Hv & Hez & Hdig).
  apply binary_round_aux_le with (x := IZR (Zpos mz)); auto.
  - lia.
  - reflexivity.
  - cbn [Zdigits2]. rewrite Hdig. unfold fexp64. lia.
  - fold (F2R (Zpos mz) ez). lra.
Qed.

Lemma binary_round_ge :
  F2R (Zpos mb) eb <= F2R (Zpos mx) ex ->
  binary_round prec emax s mx ex = S754_infinity s \/
  exists m e,
    binary_round prec emax s mx ex = S754_finite s m e /\
    F2R (Zpos mb) eb <= F2R (Zpos m) e.
Proof.
  intros Hle. unfold binary_round.
  destruct (shl_align_spec mx ex (fexp prec emax (Zpos (digits2_pos mx) + ex)))
    as (mz & ez & -> & Hv & Hez & Hdig).
  apply binary_round_aux_ge with (x := IZR (Zpos mz)); auto.
  - lia.
  - reflexivity.
  - cbn [Zdigits2]. rewrite Hdig. unfold fexp64. lia.
  - fold (F2R (Zpos mz) ez). lra.
Qed.

End RoundBound.

Lemma max_float_bounded : bounded prec emax max_m 971 = true.
Proof. reflexivity. Qed.

(** A float of the format other than the largest is below its predecessor. *)
Lemma bounded_below_max (m : positive) (e : Z) :
  bounded prec emax m e = true ->
  (m, e) <> (max_m, 971%Z) ->
  F2R (Zpos m) e <= F2R (Zpos max_m - 1) 971.
Proof.
  intros Hb Hne.
  destruct (bounded_facts m e Hb) as (_ & He & Hd & _).
  destruct (digits2_pos_bounds m) as [_ Hhi].
  assert (Hm : (Zpos m < 2 ^ 53)%Z).
  { eapply Z.lt_le_trans; [exact Hhi|]. apply Z.pow_le_mono_r; lia. }
  change (2 ^ 53)%Z with 9007199254740992%Z in Hm.
  destruct (Z.eq_dec e 971) as [->|He971].
  - assert (Zpos m <> Zpos max_m) by (intros H; injection H as ->; now apply Hne).
    unfold max_m in *. assert (Hle : (Zpos m <= 9007199254740991 - 1)%Z) by lia.
    apply IZR_le in Hle. unfold F2R. assert (Hp := bpow_gt_0 971). nra.
  - assert (H1 := F2R_lt_bpow m e).
    assert (H2 : bpow (Zpos (digits2_pos m) + e) <= bpow 1023) by (apply bpow_le; lia).
    assert (H3 : bpow 1023 <= F2R (Zpos max_m - 1) 971).
    { unfold F2R. replace 1023%Z with (52 + 971)%Z by lia.
      rewrite (bpow_plus 52 971), (bpow_IZR 52) by lia.
      assert (Hp := bpow_gt_0 971).
      assert (IZR (2 ^ 52) <= IZR (Zpos max_m - 1)) by (apply IZR_le; unfold max_m; lia).
      nra. }
    lra.
Qed.


(** ** The distance to an aspect ratio is a finite number *)

Lemma abs_round_nonneg (s : bool) (mx : positive) (ex : Z) (f : float) :
  Prim2SF f = binary_round prec emax s mx ex ->
  F2R (Zpos mx) ex <= F2R (Zpos max_m) 971 ->
  nonneg_finite (abs f).
Proof.
  intros Hf Hle. unfold nonneg_finite. rewrite abs_spec, Hf.
  destruct (binary_round_le s mx ex max_m 971 max_float_bounded Hle)
    as [->|(m & e & -> & _)]; exact I.
Qed.

Lemma bpow_2 : bpow 2 = 4.
Proof. unfold bpow. simpl. lra. Qed.

Lemma sub_nonneg_finite (x a : float) (sx : bool) (mx ma : positive) (ex ea : Z) :
  Prim2SF x = S754_finite sx mx ex ->
  (mx, ex) <> (max_m, 971%Z) ->
  Prim2SF a = S754_finite false ma ea ->
  F2R (Zpos ma) ea <= 4 ->
  nonneg_finite (abs (x - a)).
Proof.
  intros Hx Hne Ha Hsmall.
  assert (Vx := Prim2SF_valid x). rewrite Hx in Vx. cbn [SpecFloat.valid_binary] in Vx.
  assert (Hxmax := bounded_below_max mx ex Vx Hne).
  assert (Hsub := sub_spec x a). rewrite Hx, Ha in Hsub.
  unfold SF64sub, SFsub in Hsub.
  set (ez := Z.min ex ea) in *.
  destruct (shl_align_spec mx ex ez) as (Mx & e1 & HMx & HvX & He1 & _).
  destruct (shl_align_spec ma ea ez) as (Ma & e2 & HMa & HvA & He2 & _).
  rewrite HMx, HMa in Hsub. cbn [fst] in Hsub.
  assert (He1' : e1 = ez) by (unfold ez in *; lia).
  assert (He2' : e2 = ez) by (unfold ez in *; lia).
  clear He1 He2. subst e1 e2.
  assert (Hbig : F2R (Zpos max_m - 1) 971 + 4 <= F2R (Zpos max_m) 971).
  { unfold F2R. rewrite minus_IZR. rewrite <- bpow_2.
    assert (bpow 2 <= bpow 971) by (apply bpow_le; lia). lra. }
  assert (Hp := bpow_gt_0 ez).
  assert (HX0 := F2R_pos Mx ez). assert (HA0 := F2R_pos Ma ez).
  assert (Habs : forall p : positive,
             (Zpos p <= Zpos Mx + Zpos Ma)%Z ->
             F2R (Zpos p) ez <= F2R (Zpos max_m) 971).
  { intros p Hp'. apply IZR_le in Hp'. rewrite plus_IZR in Hp'.
    assert (IZR (Zpos p) * bpow ez <= (IZR (Zpos Mx) + IZR (Zpos Ma)) * bpow ez)
      by (apply Rmult_le_compat_r; lra).
    unfold F2R in *. lra. }
  unfold binary_normalize in Hsub.
  destruct (cond_Zopp sx (Zpos Mx) - cond_Zopp false (Zpos Ma))%Z as [|p|p] eqn:HZ.
  - unfold nonneg_finite. rewrite abs_spec, Hsub. exact I.
  - apply (abs_round_nonneg false p ez _ Hsub). apply Habs.
    destruct sx; cbn [cond_Zopp] in HZ; lia.
  - apply (abs_round_nonneg true p ez _ Hsub). apply Habs.
    destruct sx; cbn [cond_Zopp] in HZ; lia.
Qed.


Lemma F2R_small (m : positive) (e : Z) :
  (e <= 0)%Z -> (Zpos m <= 4 * 2 ^ (- e))%Z -> F2R (Zpos m) e <= 4.
Proof.
  intros He Hm. apply IZR_le in Hm. rewrite mult_IZR, <- bpow_IZR in Hm by lia.
  unfold F2R. replace e with (- - e)%Z at 1 by lia. rewrite bpow_opp.
  assert (Hp := bpow_gt_0 (- e)).
  apply Rmult_le_reg_r with (bpow (- e)); [exact Hp|].
  rewrite Rmult_assoc, Rinv_l by lra. lra.
Qed.

Lemma finite_cases (x : float) :
  Num.is_finite x = true ->
  (exists s, Prim2SF x = S754_zero s) \/
  (exists s m e, Prim2SF x = S754_finite s m e).
Proof.
  unfold Num.is_finite.
  destruct (Prim2SF x) as [s|s| |s m e]; try discriminate; eauto.
Qed.

(** The distance between a finite aspect and an aspect of the catalog is
    zero or a positive finite float: the subtraction cannot overflow. *)
Lemma difference_nonneg_finite (x : float) (key : string) (cfg : Ratio.t) :
  Num.is_finite x = true ->
  In (key, cfg) Ratio.AVAILABLE_RATIOS ->
  nonneg_finite (Ratio.difference x cfg).
Proof.
  intros Hfin Hin. unfold Ratio.difference.
  assert (Ha : exists ma ea,
             Prim2SF (Ratio.aspect cfg) = S754_finite false ma ea /\
             (ea <= 0)%Z /\ (Zpos ma <= 4 * 2 ^ (- ea))%Z /\
             nonneg_finite (abs (SF2Prim (S754_finite false max_m 971) - Ratio.aspect cfg)) /\
             nonneg_finite (abs (SF2Prim (S754_finite true max_m 971) - Ratio.aspect cfg))).
  { unfold Ratio.AVAILABLE_RATIOS in Hin. cbn [In] in Hin.
    repeat (destruct Hin as [Hin|Hin];
            [injection Hin as _ <-; cbn [Ratio.aspect];
             eexists _, _; split; [vm_compute; reflexivity|];
             split; [vm_compute; discriminate|];
             split; [vm_compute; discriminate|];
             split; vm_compute; exact I|]).
    destruct Hin. }
  destruct Ha as (ma & ea & Ha & Hea & Hma & Hmaxp & Hmaxn).
  destruct (finite_cases x Hfin) as [(s & Hx)|(s & m & e & Hx)].
  - unfold nonneg_finite. rewrite abs_spec, sub_spec, Hx, Ha. exact I.
  - destruct (Z.eq_dec e 971) as [He|He]; [destruct (Pos.eq_dec m max_m) as [Hm|Hm]|].
    + subst e m. rewrite <- (SF2Prim_Prim2SF x), Hx. destruct s; assumption.
    + eapply sub_nonneg_finite; eauto using F2R_small. congruence.
    + eapply sub_nonneg_finite; eauto using F2R_small. congruence.
Qed.


(** ** The selector *)

Lemma select_loop_snoc (x : float) (items : list (string * Ratio.t)) (item : string * Ratio.t)
    (acc : option Ratio.t * float) :
  Ratio.select_loop x (items ++ [item]) acc
  = Ratio.select_step x (Ratio.select_loop x items acc) item.
Proof. unfold Ratio.select_loop. now rewrite fold_left_app. Qed.

(** The loop keeps the first of the entries seen so far whose distance is
    the least. *)
Lemma select_loop_invariant (x : float) (items : list (string * Ratio.t)) :
  (forall entry, In entry items -> nonneg_finite (Ratio.difference x (snd entry))) ->
  match items with
  | [] => Ratio.select_loop x items (None, infinity) = (None, infinity)
  | _ :: _ =>
      exists before key cfg after,
        items = before ++ (key, cfg) :: after /\
        Ratio.select_loop x items (None, infinity)
          = (Some (Ratio.named key cfg), Ratio.difference x cfg) /\
        (forall entry, In entry before ->
           fval (Ratio.difference x cfg) < fval (Ratio.difference x (snd entry))) /\
        (forall entry, In entry after ->
           fval (Ratio.difference x cfg) <= fval (Ratio.difference x (snd entry)))
  end.
Proof.
  induction items as [|item items IH] using rev_ind; intros Hgood; [reflexivity|].
  assert (Hitem : nonneg_finite (Ratio.difference x (snd item)))
    by (apply Hgood, in_or_app; right; now left).
  assert (Hitems : forall entry, In entry items ->
                     nonneg_finite (Ratio.difference x (snd entry)))
    by (intros entry Hin; apply Hgood, in_or_app; now left).
  specialize (IH Hitems).
  assert (Hgoal :
    exists before key cfg after,
      items ++ [item] = before ++ (key, cfg) :: after /\
      Ratio.select_loop x (items ++ [item]) (None, infinity)
        = (Some (Ratio.named key cfg), Ratio.difference x cfg) /\
      (forall entry, In entry before ->
         fval (Ratio.difference x cfg) < fval (Ratio.difference x (snd entry))) /\
      (forall entry, In entry after ->
         fval (Ratio.difference x cfg) <= fval (Ratio.difference x (snd entry)))).
  { rewrite select_loop_snoc. destruct item as [k c]. cbn [snd] in Hitem.
    destruct items as [|i0 items'].
    - rewrite IH. unfold Ratio.select_step. cbn [fst snd].
      rewrite (ltb_infinity _ Hitem).
      exists [], k, c, []. repeat split; auto; intros entry [].
    - destruct IH as (before & key & cfg & after & Heq & Hsel & Hbefore & Hafter).
      rewrite Hsel. unfold Ratio.select_step. cbn [fst snd].
      assert (Hcfg : nonneg_finite (Ratio.difference x cfg)).
      { apply (Hitems (key, cfg)). rewrite Heq. apply in_or_app. right. now left. }
      destruct (PrimFloat.ltb (Ratio.difference x c) (Ratio.difference x cfg)) eqn:Hlt.
      + apply ltb_nonneg_finite in Hlt; auto.
        exists (i0 :: items'), k, c, []. repeat split; auto; [|intros entry []].
        intros entry Hin. rewrite Heq in Hin. apply in_app_or in Hin.
        destruct Hin as [Hin|[<-|Hin]].
        * specialize (Hbefore _ Hin). lra.
        * exact Hlt.
        * specialize (Hafter _ Hin). lra.
      + exists before, key, cfg, (after ++ [(k, c)]).
        split; [rewrite Heq, <- app_assoc; reflexivity|].
        split; [reflexivity|]. split; [exact Hbefore|].
        intros entry Hin. apply in_app_or in Hin. destruct Hin as [Hin|[<-|[]]].
        * now apply Hafter.
        * cbn [snd]. apply Rnot_lt_le. intros Habs.
          apply ltb_nonneg_finite in Habs; auto. congruence. }
  destruct (items ++ [item]) eqn:Hl; [|exact Hgoal].
  destruct items; discriminate Hl.
Qed.

(** ** Integers as floats *)

Lemma digits_unique (p : positive) (d : Z) :
  (2 ^ (d - 1) <= Zpos p < 2 ^ d)%Z -> (0 < d)%Z -> Zpos (digits2_pos p) = d.
Proof.
  intros [Hlo Hhi] Hd. destruct (digits2_pos_bounds p) as [Hlo' Hhi'].
  assert (H1 : (2 ^ (d - 1) < 2 ^ Zpos (digits2_pos p))%Z) by lia.
  assert (H2 : (2 ^ (Zpos (digits2_pos p) - 1) < 2 ^ d)%Z) by lia.
  apply Z.pow_lt_mono_r_iff in H1; [|lia|lia].
  apply Z.pow_lt_mono_r_iff in H2; [|lia|lia]. lia.
Qed.

Lemma digits_le_53 (p : positive) : (Zpos p < 2 ^ 53)%Z -> (Zpos (digits2_pos p) <= 53)%Z.
Proof.
  intros Hp. destruct (digits2_pos_bounds p) as [Hlo _].
  assert (H : (2 ^ (Zpos (digits2_pos p) - 1) < 2 ^ 53)%Z) by lia.
  apply Z.pow_lt_mono_r_iff in H; lia.
Qed.

(** Every [n * 2^k] with [n] below [2^53] is a float of the format, as
    long as [k] stays away from the ends of the exponent range. *)
Lemma exists_bounded (n : positive) (k : Z) :
  (Zpos n < 2 ^ 53)%Z -> (-1021 <= k <= 971)%Z ->
  exists mb eb,
    bounded prec emax mb eb = true /\
    F2R (Zpos mb) eb = F2R (Zpos n) k /\
    Zpos (digits2_pos mb) = 53%Z.
Proof.
  intros Hn Hk. assert (Hd := digits_le_53 n Hn).
  destruct (shl_align_spec n k (k + Zpos (digits2_pos n) - 53))
    as (mz & ez & _ & Hv & Hez & Hdig).
  assert (Hez' : ez = (k + Zpos (digits2_pos n) - 53)%Z) by lia.
  assert (Hdz : Zpos (digits2_pos mz) = 53%Z) by lia.
  exists mz, ez. split; [|split; assumption].
  unfold bounded, canonical_mantissa. fold (fexp64 (Zpos (digits2_pos mz) + ez)).
  rewrite Hdz, fexp64_eq. change (emax - prec)%Z with 971%Z.
  apply andb_true_iff. split; [apply Z.eqb_eq | apply Z.leb_le]; lia.
Qed.

Lemma to_Z_of_Z (n : Z) : (0 <= n < 2 ^ 63)%Z -> Uint63.to_Z (Uint63.of_Z n) = n.
Proof.
  intros Hn. rewrite Uint63.of_Z_spec. apply Z.mod_small. exact Hn.
Qed.

(** [float(n)] is [n] itself for a positive [n] below [2^53]. *)
Lemma of_int_exact (n : Z) :
  (0 < n < 2 ^ 53)%Z ->
  exists m e,
    Prim2SF (Num.of_int n) = S754_finite false m e /\
    F2R (Zpos m) e = IZR n /\
    bounded prec emax m e = true /\
    Zpos (digits2_pos m) = 53%Z.
Proof.
  intros Hn. unfold Num.of_int.
  assert (Hneg : (n <? 0)%Z = false) by (apply Z.ltb_ge; lia). rewrite Hneg.
  assert (Hspec := of_uint63_spec (Uint63.of_Z n)).
  rewrite to_Z_of_Z in Hspec by (split; [lia|]; eapply Z.lt_trans; [apply Hn | reflexivity]).
  destruct n as [|p|p]; try lia. cbn [binary_normalize] in Hspec.
  destruct (exists_bounded p 0) as (mb & eb & Hb & Hv & _); [lia | lia |].
  assert (HvR : F2R (Zpos p) 0 = IZR (Zpos p)) by (unfold F2R; rewrite bpow_0; ring).
  destruct (binary_round_le false p 0 mb eb Hb) as [Hz|(m & e & Hr & Hle)]; [lra | |];
    destruct (binary_round_ge false p 0 mb eb Hb) as [Hi|(m' & e' & Hr' & Hge)]; try lra;
    try congruence.
  rewrite Hr in Hr'. injection Hr' as <- <-.
  rewrite Hr in Hspec.
  assert (Hvalid := Prim2SF_valid (of_uint63 (Uint63.of_Z (Zpos p)))).
  rewrite Hspec in Hvalid. cbn [SpecFloat.valid_binary] in Hvalid.
  exists m, e. split; [exact Hspec|]. split; [lra|]. split; [exact Hvalid|].
  destruct (bounded_facts m e Hvalid) as (_ & He & Hd & Hnorm).
  apply Hnorm.
  destruct (Z.eq_dec e (-1074)) as [->|Hne]; [exfalso | lia].
  assert (H1 := F2R_lt_bpow m (-1074)).
  assert (H2 : bpow (Zpos (digits2_pos m) + -1074) <= bpow 0) by (apply bpow_le; lia).
  rewrite bpow_0 in H2.
  assert (H3 : 1 <= IZR (Zpos p)) by (apply IZR_le; lia). lra.
Qed.


(** ** Products and quotients *)

Lemma digits_gt (p : positive) (k : Z) :
  (0 <= k)%Z -> (2 ^ k <= Zpos p)%Z -> (k < Zpos (digits2_pos p))%Z.
Proof.
  intros Hk Hp. destruct (digits2_pos_bounds p) as [_ Hhi].
  assert (H : (2 ^ k < 2 ^ Zpos (digits2_pos p))%Z) by lia.
  apply Z.pow_lt_mono_r_iff in H; lia.
Qed.

Lemma digits_53_ge (p : positive) :
  Zpos (digits2_pos p) = 53%Z -> (2 ^ 52 <= Zpos p < 2 ^ 53)%Z.
Proof.
  intros Hd. destruct (digits2_pos_bounds p) as [Hlo Hhi]. rewrite Hd in *. exact (conj Hlo Hhi).
Qed.

Section Product.

Variables (a b : float) (ma mb : positive) (ea eb : Z).
Hypothesis Ha : Prim2SF a = S754_finite false ma ea.
Hypothesis Hb : Prim2SF b = S754_finite false mb eb.
Hypothesis Hdb : Zpos (digits2_pos mb) = 53%Z.

Lemma mul_as_round :
  Prim2SF (a * b) =
    binary_round_aux prec emax false (Zpos (ma * mb)) (ea + eb) loc_Exact /\
  (ea + eb <= fexp64 (Zdigits2 (Zpos (ma * mb)) + (ea + eb)))%Z /\
  IZR (Zpos (ma * mb)) * bpow (ea + eb) = F2R (Zpos ma) ea * F2R (Zpos mb) eb.
Proof.
  split; [|split].
  - rewrite mul_spec, Ha, Hb. reflexivity.
  - cbn [Zdigits2]. rewrite fexp64_eq.
    destruct (digits_53_ge mb Hdb) as [Hlo _].
    assert (H : (52 < Zpos (digits2_pos (ma * mb)))%Z).
    { apply digits_gt; [lia|]. rewrite Pos2Z.inj_mul. nia. }
    lia.
  - unfold F2R. rewrite Pos2Z.inj_mul, mult_IZR, bpow_plus. ring.
Qed.

(** A product below a float of the format is rounded below it. *)
Lemma mul_le (m : positive) (e : Z) :
  bounded prec emax m e = true ->
  F2R (Zpos ma) ea * F2R (Zpos mb) eb <= F2R (Zpos m) e ->
  Prim2SF (a * b) = S754_zero false \/
  exists m' e', Prim2SF (a * b) = S754_finite false m' e' /\
                F2R (Zpos m') e' <= F2R (Zpos m) e.
Proof.
  intros Hbd Hle. destruct mul_as_round as (-> & Halign & Hv).
  apply binary_round_aux_le with (x := IZR (Zpos (ma * mb))); auto.
  - lia.
  - reflexivity.
  - lra.
Qed.

End Product.

(** The place of a remainder [k] of a division by [nb]. *)
Lemma new_location_spec (nb k q : Z) :
  (0 <= k < nb)%Z ->
  located (IZR q + IZR k / IZR nb) q (new_location nb k).
Proof.
  intros Hk.
  assert (Hnb : 0 < IZR nb) by (apply IZR_lt; lia).
  assert (Hk0 : 0 <= IZR k) by (apply IZR_le; lia).
  assert (Hfrac : forall c : R, (IZR k / IZR nb < c <-> IZR k < c * IZR nb) /\
                                (c < IZR k / IZR nb <-> c * IZR nb < IZR k)).
  { intros c. unfold Rdiv. split; split; intros H.
    - apply Rmult_lt_compat_r with (r := IZR nb) in H; [|exact Hnb].
      rewrite Rmult_assoc, Rinv_l in H by lra. lra.
    - apply Rmult_lt_reg_r with (IZR nb); [exact Hnb|].
      rewrite Rmult_assoc, Rinv_l by lra. lra.
    - apply Rmult_lt_compat_r with (r := IZR nb) in H; [|exact Hnb].
      rewrite Rmult_assoc, Rinv_l in H by lra. lra.
    - apply Rmult_lt_reg_r with (IZR nb); [exact Hnb|].
      rewrite Rmult_assoc, Rinv_l by lra. lra. }
  assert (Hzero : k = 0%Z -> located (IZR q + IZR k / IZR nb) q loc_Exact).
  { intros ->. unfold located, Rdiv. rewrite Rmult_0_l. ring. }
  assert (Hlow : (k <> 0)%Z -> (2 * k < nb)%Z ->
                 located (IZR q + IZR k / IZR nb) q (loc_Inexact Lt)).
  { intros Hk1 Hlt. assert (Hkpos : 0 < IZR k) by (apply IZR_lt; lia).
    apply IZR_lt in Hlt. rewrite mult_IZR in Hlt.
    destruct (Hfrac (/ 2)) as [[_ H1] _]. destruct (Hfrac 0) as [_ [_ H2]].
    unfold located. split; [|apply Rplus_lt_compat_l, H1; lra].
    assert (0 < IZR k / IZR nb) by (apply H2; lra). lra. }
  assert (Hhigh : (nb < 2 * k)%Z ->
                  located (IZR q + IZR k / IZR nb) q (loc_Inexact Gt)).
  { intros Hgt. apply IZR_lt in Hgt. rewrite mult_IZR in Hgt.
    destruct (Hfrac (/ 2)) as [_ [_ H1]]. destruct (Hfrac 1) as [[_ H2] _].
    unfold located. split; [apply Rplus_lt_compat_l, H1; lra|].
    assert (IZR k / IZR nb < 1)
      by (apply H2; destruct Hk as [_ Hk]; apply IZR_lt in Hk; lra).
    lra. }
  unfold new_location. destruct (Z.even nb) eqn:Heven.
  - unfold new_location_even. destruct (Z.eqb_spec k 0) as [Hk0'|Hk1]; [auto|].
    destruct (Z.compare_spec (2 * k) nb) as [Heq|Hlt|Hgt]; auto.
    unfold located. rewrite <- Heq, mult_IZR. field.
    apply not_0_IZR. exact Hk1.
  - unfold new_location_odd. destruct (Z.eqb_spec k 0) as [Hk0'|Hk1]; [auto|].
    assert (Hodd : (2 * k <> nb)%Z).
    { intros Heq. rewrite <- Heq, Z.even_mul in Heven. discriminate Heven. }
    destruct (Z.compare_spec (2 * k + 1) nb) as [Heq|Hlt|Hgt].
    + apply Hlow; lia.
    + apply Hlow; lia.
    + apply Hhigh; lia.
Qed.


Section Quotient.

Variables (a b : float) (ma mb : positive) (ea eb : Z).
Hypothesis Ha : Prim2SF a = S754_finite false ma ea.
Hypothesis Hb : Prim2SF b = S754_finite false mb eb.
Hypothesis Hda : Zpos (digits2_pos ma) = 53%Z.
Hypothesis Hdb : Zpos (digits2_pos mb) = 53%Z.
Hypothesis Hrange : (-1074 <= ea - eb - 53)%Z.

Lemma div_core_eq :
  SFdiv_core_binary prec emax (Zpos ma) ea (Zpos mb) eb =
  (let '(q, r) := Z.div_eucl (Zpos ma * 2 ^ 53) (Zpos mb) in
   (q, (ea - eb - 53)%Z, new_location (Zpos mb) r)).
Proof.
  unfold SFdiv_core_binary. cbn [Zdigits2]. rewrite Hda, Hdb.
  fold (fexp64 (53 + ea - (53 + eb))).
  assert (He : Z.min (fexp64 (53 + ea - (53 + eb))) (ea - eb) = (ea - eb - 53)%Z)
    by (rewrite fexp64_eq; lia).
  rewrite He.
  replace (ea - eb - (ea - eb - 53))%Z with 53%Z by lia.
  rewrite Z.shiftl_mul_pow2 by lia. reflexivity.
Qed.

Lemma div_as_round :
  exists q l x,
    Prim2SF (a / b) = binary_round_aux prec emax false q (ea - eb - 53) l /\
    (0 < q)%Z /\ located x q l /\
    (ea - eb - 53 <= fexp64 (Zdigits2 q + (ea - eb - 53)))%Z /\
    x * bpow (ea - eb - 53) = F2R (Zpos ma) ea / F2R (Zpos mb) eb.
Proof.
  assert (Hdiv := Z_div_mod (Zpos ma * 2 ^ 53) (Zpos mb) eq_refl).
  assert (Hcore := div_core_eq).
  destruct (Z.div_eucl (Zpos ma * 2 ^ 53) (Zpos mb)) as [q r].
  destruct Hdiv as [Heq Hr].
  destruct (digits_53_ge ma Hda) as [Halo Hahi].
  destruct (digits_53_ge mb Hdb) as [Hblo Hbhi].
  assert (Hq : (2 ^ 52 <= q)%Z) by nia.
  exists q, (new_location (Zpos mb) r), (IZR q + IZR r / IZR (Zpos mb)).
  split; [|split; [|split; [|split]]].
  - rewrite div_spec, Ha, Hb. unfold SF64div, SFdiv. rewrite Hcore. reflexivity.
  - lia.
  - apply new_location_spec. exact Hr.
  - destruct q as [|pq|pq]; try lia. cbn [Zdigits2]. rewrite fexp64_eq.
    assert (H : (52 < Zpos (digits2_pos pq))%Z) by (apply digits_gt; lia). lia.
  - assert (Hmb : 0 < IZR (Zpos mb)) by (apply IZR_lt; lia).
    assert (Hx : IZR q + IZR r / IZR (Zpos mb) = IZR (Zpos ma) * bpow 53 / IZR (Zpos mb)).
    { rewrite (bpow_IZR 53), <- mult_IZR, Heq, plus_IZR, mult_IZR by lia. field. lra. }
    rewrite Hx. unfold F2R.
    replace (ea - eb - 53)%Z with (ea + (- eb + - (53)))%Z by lia.
    rewrite !bpow_plus, !bpow_opp.
    assert (Hp1 := bpow_gt_0 eb). assert (Hp2 := bpow_gt_0 53).
    field. repeat split; lra.
Qed.

(** A quotient below a float of the format is rounded below it, and one
    above a float of the format is rounded above it. *)
Lemma div_le (m : positive) (e : Z) :
  bounded prec emax m e = true ->
  F2R (Zpos ma) ea / F2R (Zpos mb) eb <= F2R (Zpos m) e ->
  Prim2SF (a / b) = S754_zero false \/
  exists m' e', Prim2SF (a / b) = S754_finite false m' e' /\
                F2R (Zpos m') e' <= F2R (Zpos m) e.
Proof.
  intros Hbd Hle. destruct div_as_round as (q & l & x & -> & Hq & Hloc & Halign & Hv).
  apply binary_round_aux_le with (x := x); auto. lra.
Qed.

Lemma div_ge (m : positive) (e : Z) :
  bounded prec emax m e = true ->
  F2R (Zpos m) e <= F2R (Zpos ma) ea / F2R (Zpos mb) eb ->
  Prim2SF (a / b) = S754_infinity false \/
  exists m' e', Prim2SF (a / b) = S754_finite false m' e' /\
                F2R (Zpos m) e <= F2R (Zpos m') e'.
Proof.
  intros Hbd Hle. destruct div_as_round as (q & l & x & -> & Hq & Hloc & Halign & Hv).
  apply binary_round_aux_ge with (x := x); auto. lra.
Qed.

End Quotient.

(** ** Truncation *)

Lemma to_int_spec (f : float) (m : positive) (e : Z) :
  Prim2SF f = S754_finite false m e ->
  exists z, Num.to_int f = Some z /\ (0 <= z)%Z /\
            IZR z <= F2R (Zpos m) e < IZR z + 1.
Proof.
  intros Hf. unfold Num.to_int. rewrite Hf.
  destruct (Z.leb_spec 0 e) as [He|He].
  - exists (Zpos m * 2 ^ e)%Z. split; [reflexivity|]. split; [lia|].
    unfold F2R. rewrite mult_IZR, <- bpow_IZR by lia. lra.
  - exists (Zpos m / 2 ^ (- e))%Z. split; [reflexivity|].
    assert (Hpow : (0 < 2 ^ (- e))%Z) by (apply Z.pow_pos_nonneg; lia).
    split; [apply Z.div_pos; lia|].
    assert (Hdm := Z.div_mod (Zpos m) (2 ^ (- e)) ltac:(lia)).
    assert (Hmod := Z.mod_pos_bound (Zpos m) (2 ^ (- e)) Hpow).
    set (z := (Zpos m / 2 ^ (- e))%Z) in *. set (r := (Zpos m mod 2 ^ (- e))%Z) in *.
    unfold F2R. rewrite Hdm, plus_IZR, mult_IZR, <- bpow_IZR by lia.
    replace e with (- - e)%Z at 2 4 by lia. rewrite (bpow_opp (- e)).
    assert (Hp := bpow_gt_0 (- e)).
    assert (Hr0 : 0 <= IZR r) by (apply IZR_le; lia).
    assert (Hr1 : IZR r < bpow (- e)) by (rewrite bpow_IZR by lia; apply IZR_lt; lia).
    assert (Hfr : 0 <= IZR r * / bpow (- e) < 1).
    { split.
      - apply Rmult_le_pos; [lra|]. left. now apply Rinv_0_lt_compat.
      - apply Rmult_lt_reg_r with (bpow (- e)); [lra|].
        rewrite Rmult_assoc, Rinv_l by lra. lra. }
    replace ((bpow (- e) * IZR z + IZR r) * / bpow (- e))
      with (IZR z + IZR r * / bpow (- e)) by (field; lra).
    lra.
Qed.


(** ** The crop box *)

Lemma ltb_false_of_le (t c : float) (mt : positive) (et : Z) :
  Prim2SF t = S754_finite false mt et ->
  (Prim2SF c = S754_zero false \/
   exists m e, Prim2SF c = S754_finite false m e /\ F2R (Zpos m) e <= F2R (Zpos mt) et) ->
  PrimFloat.ltb t c = false.
Proof.
  intros Ht Hc. rewrite ltb_spec, Ht.
  assert (Vt := Prim2SF_valid t). rewrite Ht in Vt.
  assert (Vc := Prim2SF_valid c).
  destruct Hc as [Hc|(m & e & Hc & Hle)]; rewrite Hc in *; [reflexivity|].
  cbn [SpecFloat.valid_binary] in *.
  destruct (SFltb _ _) eqn:Hlt; [|reflexivity].
  apply SFltb_finite in Hlt; auto. lra.
Qed.

Lemma ltb_true_of_gt (t c : float) (mt : positive) (et : Z) :
  Prim2SF t = S754_finite false mt et ->
  (Prim2SF c = S754_infinity false \/
   exists m e, Prim2SF c = S754_finite false m e /\ F2R (Zpos mt) et < F2R (Zpos m) e) ->
  PrimFloat.ltb t c = true.
Proof.
  intros Ht Hc. rewrite ltb_spec, Ht.
  assert (Vt := Prim2SF_valid t). rewrite Ht in Vt.
  assert (Vc := Prim2SF_valid c).
  destruct Hc as [Hc|(m & e & Hc & Hle)]; rewrite Hc in *; [reflexivity|].
  cbn [SpecFloat.valid_binary] in *. now apply SFltb_finite.
Qed.

Lemma to_int_le (f : float) (bound : Z) (half : R) :
  0 <= half < 1 -> (0 <= bound)%Z ->
  (Prim2SF f = S754_zero false \/
   exists m e, Prim2SF f = S754_finite false m e /\ F2R (Zpos m) e <= IZR bound + half) ->
  exists z, Num.to_int f = Some z /\ (0 <= z <= bound)%Z.
Proof.
  intros Hhalf Hb [Hf|(m & e & Hf & Hle)].
  - exists 0%Z. unfold Num.to_int. rewrite Hf. split; [reflexivity | lia].
  - destruct (to_int_spec f m e Hf) as (z & Hz & Hz0 & Hzlo & _).
    exists z. split; [exact Hz|]. split; [exact Hz0|].
    assert (H : IZR z < IZR (bound + 1)) by (rewrite plus_IZR; lra).
    apply lt_IZR in H. lia.
Qed.

Lemma int_exponent_range (n : Z) (m : positive) (e : Z) :
  (1 <= n < 2 ^ 51)%Z -> F2R (Zpos m) e = IZR n -> Zpos (digits2_pos m) = 53%Z ->
  (-52 <= e <= -2)%Z.
Proof.
  intros Hn Hv Hd.
  assert (Hlo := F2R_ge_bpow m e). assert (Hhi := F2R_lt_bpow m e).
  rewrite Hd, Hv in *.
  assert (H1 : IZR n < bpow 51) by (rewrite bpow_IZR by lia; apply IZR_lt; lia).
  assert (H2 : bpow 0 <= IZR n) by (rewrite bpow_0; apply IZR_le; lia).
  assert (Ha : bpow (53 - 1 + e) < bpow 51) by lra.
  assert (Hb : bpow 0 < bpow (53 + e)) by lra.
  apply bpow_lt_inv in Ha, Hb. lia.
Qed.

Lemma mul_ge (a b : float) (ma mb : positive) (ea eb : Z) (m : positive) (e : Z) :
  Prim2SF a = S754_finite false ma ea ->
  Prim2SF b = S754_finite false mb eb ->
  Zpos (digits2_pos mb) = 53%Z ->
  bounded prec emax m e = true ->
  F2R (Zpos m) e <= F2R (Zpos ma) ea * F2R (Zpos mb) eb ->
  Prim2SF (a * b) = S754_infinity false \/
  exists m' e', Prim2SF (a * b) = S754_finite false m' e' /\
                F2R (Zpos m) e <= F2R (Zpos m') e'.
Proof.
  intros Ha Hb Hdb Hbd Hle.
  destruct (mul_as_round a b ma mb ea eb Ha Hb Hdb) as (-> & Halign & Hv).
  apply binary_round_aux_ge with (x := IZR (Zpos (ma * mb))); auto.
  - lia.
  - reflexivity.
  - lra.
Qed.

(** An integer between 1 and [2^53] as a float of the format. *)
Lemma int_bounded (n : Z) :
  (1 <= n < 2 ^ 53)%Z ->
  exists mb eb, bounded prec emax mb eb = true /\ F2R (Zpos mb) eb = IZR n.
Proof.
  intros Hn. destruct (exists_bounded (Z.to_pos n) 0) as (mb & eb & Hb & Hv & _);
    [rewrite Z2Pos.id by lia; lia | lia |].
  exists mb, eb. split; [exact Hb|]. rewrite Hv. unfold F2R.
  rewrite Z2Pos.id, bpow_0 by lia. ring.
Qed.

(** A product that lies between two integers is rounded between them. *)
Lemma mul_between (a b : float) (ma mb : positive) (ea eb : Z) (lo hi : Z) :
  Prim2SF a = S754_finite false ma ea ->
  Prim2SF b = S754_finite false mb eb ->
  Zpos (digits2_pos mb) = 53%Z ->
  (0 <= lo)%Z -> (1 <= hi < 2 ^ 53)%Z ->
  IZR lo <= F2R (Zpos ma) ea * F2R (Zpos mb) eb <= IZR hi ->
  (Prim2SF (a * b) = S754_zero false /\ lo = 0%Z) \/
  exists m e, Prim2SF (a * b) = S754_finite false m e /\
              IZR lo <= F2R (Zpos m) e <= IZR hi.
Proof.
  intros Ha Hb Hdb Hlo Hhi [Hle Hge].
  destruct (int_bounded hi Hhi) as (mh & eh & Hbh & Hvh).
  destruct (mul_le a b ma mb ea eb Ha Hb Hdb mh eh Hbh) as [Hz|(m & e & Hf & Hup)];
    [lra| |].
  - destruct (Z.eq_dec lo 0) as [->|Hne]; [now left|exfalso].
    assert (Hlo' : (1 <= lo < 2 ^ 53)%Z).
    { split; [lia|]. apply lt_IZR. eapply Rle_lt_trans; [apply (Rle_trans _ _ _ Hle Hge)|].
      apply IZR_lt. lia. }
    destruct (int_bounded lo Hlo') as (ml & el & Hbl & Hvl).
    destruct (mul_ge a b ma mb ea eb ml el Ha Hb Hdb Hbl) as [Hi|(m & e & Hf & _)];
      [lra| |]; congruence.
  - right. exists m, e. split; [exact Hf|]. split; [|lra].
    destruct (Z.eq_dec lo 0) as [->|Hne]; [left; apply F2R_pos|].
    assert (Hlo' : (1 <= lo < 2 ^ 53)%Z).
    { split; [lia|]. apply lt_IZR. eapply Rle_lt_trans; [apply (Rle_trans _ _ _ Hle Hge)|].
      apply IZR_lt. lia. }
    destruct (int_bounded lo Hlo') as (ml & el & Hbl & Hvl).
    destruct (mul_ge a b ma mb ea eb ml el Ha Hb Hdb Hbl) as [Hi|(m' & e' & Hf' & Hdown)];
      [lra| |]; [congruence|].
    rewrite Hf in Hf'. injection Hf' as <- <-. lra.
Qed.

(** A quotient that lies between two integers is rounded between them. *)
Lemma div_between (a b : float) (ma mb : positive) (ea eb : Z) (lo hi : Z) :
  Prim2SF a = S754_finite false ma ea ->
  Prim2SF b = S754_finite false mb eb ->
  Zpos (digits2_pos ma) = 53%Z ->
  Zpos (digits2_pos mb) = 53%Z ->
  (-1074 <= ea - eb - 53)%Z ->
  (0 <= lo)%Z -> (1 <= hi < 2 ^ 53)%Z ->
  IZR lo <= F2R (Zpos ma) ea / F2R (Zpos mb) eb <= IZR hi ->
  (Prim2SF (a / b) = S754_zero false /\ lo = 0%Z) \/
  exists m e, Prim2SF (a / b) = S754_finite false m e /\
              IZR lo <= F2R (Zpos m) e <= IZR hi.
Proof.
  intros Ha Hb Hda Hdb Hrange Hlo Hhi [Hle Hge].
  destruct (int_bounded hi Hhi) as (mh & eh & Hbh & Hvh).
  destruct (div_le a b ma mb ea eb Ha Hb Hda Hdb Hrange mh eh Hbh) as [Hz|(m & e & Hf & Hup)];
    [lra| |].
  - destruct (Z.eq_dec lo 0) as [->|Hne]; [now left|exfalso].
    assert (Hlo' : (1 <= lo < 2 ^ 53)%Z).
    { split; [lia|]. apply lt_IZR. eapply Rle_lt_trans; [apply (Rle_trans _ _ _ Hle Hge)|].
      apply IZR_lt. lia. }
    destruct (int_bounded lo Hlo') as (ml & el & Hbl & Hvl).
    destruct (div_ge a b ma mb ea eb Ha Hb Hda Hdb Hrange ml el Hbl) as [Hi|(m & e & Hf & _)];
      [lra| |]; congruence.
  - right. exists m, e. split; [exact Hf|]. split; [|lra].
    destruct (Z.eq_dec lo 0) as [->|Hne]; [left; apply F2R_pos|].
    assert (Hlo' : (1 <= lo < 2 ^ 53)%Z).
    { split; [lia|]. apply lt_IZR. eapply Rle_lt_trans; [apply (Rle_trans _ _ _ Hle Hge)|].
      apply IZR_lt. lia. }
    destruct (int_bounded lo Hlo') as (ml & el & Hbl & Hvl).
    destruct (div_ge a b ma mb ea eb Ha Hb Hda Hdb Hrange ml el Hbl)
      as [Hi|(m' & e' & Hf' & Hdown)]; [lra| |]; [congruence|].
    rewrite Hf in Hf'. injection Hf' as <- <-. lra.
Qed.

(** The integer part of a float that lies between two integers. *)
Lemma to_int_between (f : float) (lo hi : Z) :
  (0 <= lo <= hi)%Z ->
  (Prim2SF f = S754_zero false /\ lo = 0%Z) \/
  (exists m e, Prim2SF f = S754_finite false m e /\
               IZR lo <= F2R (Zpos m) e <= IZR hi) ->
  exists z, Num.to_int f = Some z /\ (lo <= z <= hi)%Z.
Proof.
  intros Hlo [[Hf ->]|(m & e & Hf & Hle & Hge)].
  - exists 0%Z. unfold Num.to_int. rewrite Hf. split; [reflexivity|].
    lia.
  - destruct (to_int_spec f m e Hf) as (z & Hz & Hz0 & Hzlo & Hzhi).
    exists z. split; [exact Hz|]. split.
    + assert (H : IZR lo < IZR (z + 1)) by (rewrite plus_IZR; lra).
      apply lt_IZR in H. lia.
    + apply le_IZR. lra.
Qed.

(** A real number that is not negative lies between two integers that
    are equal or consecutive, and within one of both. *)
Lemma integer_bracket (r : R) :
  0 <= r ->
  exists lo hi, (0 <= lo <= hi)%Z /\ IZR lo <= r <= IZR hi /\ IZR hi - 1 < r < IZR lo + 1.
Proof.
  intros Hr. destruct (archimed r) as [Hup Hdown].
  set (k := (up r - 1)%Z).
  assert (Hk : IZR k = IZR (up r) - 1) by (unfold k; rewrite minus_IZR; ring).
  assert (Hk0 : (0 <= k)%Z).
  { assert (H : IZR 0 < IZR (k + 1)) by (rewrite plus_IZR; lra).
    apply lt_IZR in H. lia. }
  destruct (Req_dec r (IZR k)) as [Heq|Hne].
  - exists k, k. split; [lia|]. lra.
  - exists k, (k + 1)%Z. split; [lia|]. rewrite plus_IZR. lra.
Qed.

(** The crop box lies inside the image, is centred (the margins on the
    two sides of the cropped direction differ by one pixel at most), spans
    the other direction in full, and has the target aspect up to one pixel:
    its width is within one of the height times the aspect when the width
    is cropped, its height within one of the width divided by the aspect
    when the height is cropped. *)
Lemma crop_box_inside (W H : Z) (target_aspect : float) :
  (1 <= W < 2 ^ 51)%Z -> (1 <= H < 2 ^ 51)%Z -> aspect_ok target_aspect ->
  exists x0 y0 x1 y1,
    Transform.crop_box W H target_aspect = Some (x0, y0, x1, y1) /\
    (0 <= x0 <= x1)%Z /\ (x1 <= W)%Z /\ (0 <= y0 <= y1)%Z /\ (y1 <= H)%Z /\
    (((y0 = 0 /\ y1 = H /\ x0 <= W - x1 <= x0 + 1)%Z /\
      Rabs (IZR (x1 - x0) - IZR H * fval target_aspect) < 1) \/
     ((x0 = 0 /\ x1 = W /\ y0 <= H - y1 <= y0 + 1)%Z /\
      Rabs (IZR (y1 - y0) - IZR W / fval target_aspect) < 1)).
Proof.
  intros HW HH (mt & et & Ht & Hdt & Hmt & Het).
  unfold fval. rewrite Ht. cbn [SF2R].
  destruct (of_int_exact W) as (mw & ew & HfW & HvW & HbW & HdW);
    [split; [lia|]; eapply Z.lt_trans; [apply HW | reflexivity]|].
  destruct (of_int_exact H) as (mh & eh & HfH & HvH & HbH & HdH);
    [split; [lia|]; eapply Z.lt_trans; [apply HH | reflexivity]|].
  assert (Hew := int_exponent_range W mw ew HW HvW HdW).
  assert (Heh := int_exponent_range H mh eh HH HvH HdH).
  assert (HWr : 1 <= IZR W) by (apply IZR_le; lia).
  assert (HHr : 1 <= IZR H) by (apply IZR_le; lia).
  assert (HT := F2R_pos mt et).
  assert (Vt := Prim2SF_valid target_aspect). rewrite Ht in Vt.
  cbn [SpecFloat.valid_binary] in Vt.
  unfold Transform.crop_box, Num.true_div.
  assert (HH0 : (H =? 0)%Z = false) by (apply Z.eqb_neq; lia). rewrite HH0.
  destruct (PrimFloat.ltb target_aspect (Num.of_int W / Num.of_int H)) eqn:Hcmp.
  - (* the image is wider than the target *)
    assert (Hlt : IZR H * F2R (Zpos mt) et < IZR W).
    { apply Rnot_le_lt. intros Habs.
      assert (Hq : F2R (Zpos mw) ew / F2R (Zpos mh) eh <= F2R (Zpos mt) et).
      { rewrite HvW, HvH. apply Rmult_le_reg_r with (IZR H); [lra|].
        unfold Rdiv. rewrite Rmult_assoc, Rinv_l by lra. lra. }
      pose proof (div_le _ _ mw mh ew eh HfW HfH HdW HdH ltac:(lia) mt et Vt Hq) as Hd.
      rewrite (ltb_false_of_le _ _ mt et Ht Hd) in Hcmp. discriminate Hcmp. }
    assert (Hpos : 0 < IZR H * F2R (Zpos mt) et) by (apply Rmult_lt_0_compat; lra).
    destruct (integer_bracket (IZR H * F2R (Zpos mt) et)) as (lo & hi & Hlh & Hbr & Hnear);
      [lra|].
    assert (Hhi : (1 <= hi <= W)%Z).
    { split.
      - assert (H0 : IZR 0 < IZR hi) by lra. apply lt_IZR in H0. lia.
      - assert (H1 : IZR hi < IZR (W + 1)) by (rewrite plus_IZR; lra).
        apply lt_IZR in H1. lia. }
    destruct (to_int_between (Num.of_int H * target_aspect) lo hi Hlh) as (nw & -> & Hnw).
    { apply (mul_between _ _ mh mt eh et lo hi HfH Ht Hdt); [lia | | rewrite HvH; exact Hbr].
      split; [lia|]. eapply Z.le_lt_trans; [apply Hhi|].
      eapply Z.lt_trans; [apply HW | reflexivity]. }
    assert (HW0 : (W =? 0)%Z = false) by (apply Z.eqb_neq; lia). rewrite HW0.
    eexists _, _, _, _. split; [reflexivity|].
    assert (Hdiv := Z.div_mod (W - nw) 2 ltac:(lia)).
    assert (Hmod := Z.mod_pos_bound (W - nw) 2 ltac:(lia)).
    do 4 (split; [lia|]). left. split; [lia|].
    replace ((W - nw) / 2 + nw - (W - nw) / 2)%Z with nw by lia.
    assert (Hlo : IZR lo <= IZR nw) by (apply IZR_le; lia).
    assert (Hup : IZR nw <= IZR hi) by (apply IZR_le; lia).
    apply Rabs_def1; lra.
  - (* the image is taller than the target, or just as wide *)
    assert (Hsucc : bounded prec emax (Pos.succ mt) et = true).
    { unfold bounded, canonical_mantissa.
      fold (fexp64 (Zpos (digits2_pos (Pos.succ mt)) + et)).
      destruct (digits_53_ge mt Hdt) as [Hlo _].
      rewrite (digits_unique (Pos.succ mt) 53) by lia.
      rewrite fexp64_eq. change (emax - prec)%Z with 971%Z.
      apply andb_true_iff. split; [apply Z.eqb_eq | apply Z.leb_le]; lia. }
    assert (Hlt : IZR W / IZR H < F2R (Zpos (Pos.succ mt)) et).
    { apply Rnot_le_lt. intros Habs.
      assert (Hq : F2R (Zpos (Pos.succ mt)) et <= F2R (Zpos mw) ew / F2R (Zpos mh) eh)
        by (rewrite HvW, HvH; exact Habs).
      pose proof (div_ge _ _ mw mh ew eh HfW HfH HdW HdH ltac:(lia) _ et Hsucc Hq) as Hd.
      assert (Hgt : F2R (Zpos mt) et < F2R (Zpos (Pos.succ mt)) et).
      { unfold F2R. rewrite Pos2Z.inj_succ, succ_IZR.
        assert (Hp := bpow_gt_0 et). nra. }
      rewrite (ltb_true_of_gt _ _ mt et Ht) in Hcmp; [discriminate Hcmp|].
      destruct Hd as [Hd|(m' & e' & Hd & Hle)]; [now left | right].
      exists m', e'. split; [exact Hd | lra]. }
    destruct (exists_bounded (Z.to_pos (2 * H + 1)) (-1)) as (mb & eb & Hb & Hvb & _);
      [rewrite Z2Pos.id by lia; change (2 ^ 53)%Z with 9007199254740992%Z;
       change (2 ^ 51)%Z with 2251799813685248%Z in HH; lia | lia |].
    assert (Hhalf : F2R (Zpos mb) eb = IZR H + / 2).
    { rewrite Hvb. unfold F2R. rewrite Z2Pos.id by lia.
      rewrite plus_IZR, mult_IZR, bpow_m1. lra. }
    assert (Hquot : F2R (Zpos mw) ew / F2R (Zpos mt) et <= F2R (Zpos mb) eb).
    { rewrite Hhalf, HvW.
      apply Rmult_le_reg_r with (F2R (Zpos mt) et); [exact HT|].
      unfold Rdiv. rewrite Rmult_assoc, Rinv_l by lra. rewrite Rmult_1_r.
      assert (HWlt : IZR W < IZR H * F2R (Zpos (Pos.succ mt)) et).
      { apply Rmult_lt_compat_r with (r := IZR H) in Hlt; [|lra].
        unfold Rdiv in Hlt. rewrite Rmult_assoc, Rinv_l in Hlt by lra. lra. }
      unfold F2R in *. rewrite Pos2Z.inj_succ, succ_IZR in HWlt.
      assert (Hp := bpow_gt_0 et).
      destruct (digits_53_ge mt Hdt) as [Hlo _].
      assert (Hmt2 : 2 * IZR H <= IZR (Zpos mt)).
      { rewrite <- mult_IZR. apply IZR_le.
        change (2 ^ 51)%Z with 2251799813685248%Z in HH.
        change (2 ^ 52)%Z with 4503599627370496%Z in Hlo. lia. }
      nra. }
    pose proof (div_le _ _ mw mt ew et HfW Ht HdW Hdt ltac:(lia) mb eb Hb Hquot) as Hd.
    destruct (to_int_le (Num.of_int W / target_aspect) H (/ 2)) as (nh & Hint & Hnh);
      [lra | lia | |].
    { destruct Hd as [Hd|(m' & e' & Hd & Hle)]; [now left | right].
      exists m', e'. split; [exact Hd | lra]. }
    assert (Hpos : 0 < IZR W / F2R (Zpos mt) et).
    { apply Rmult_lt_0_compat; [lra | now apply Rinv_0_lt_compat]. }
    rewrite HvW, Hhalf in Hquot.
    destruct (integer_bracket (IZR W / F2R (Zpos mt) et)) as (lo & hi & Hlh & Hbr & Hnear);
      [lra|].
    assert (Hhi : (1 <= hi <= H + 1)%Z).
    { split.
      - assert (H0 : IZR 0 < IZR hi) by lra. apply lt_IZR in H0. lia.
      - assert (H1 : IZR hi < IZR (H + 2)) by (rewrite plus_IZR; lra).
        apply lt_IZR in H1. lia. }
    destruct (to_int_between (Num.of_int W / target_aspect) lo hi Hlh) as (nh' & Hint' & Hnh').
    { apply (div_between _ _ mw mt ew et lo hi HfW Ht HdW Hdt); [lia | lia | |
        rewrite HvW; exact Hbr].
      split; [lia|]. eapply Z.le_lt_trans; [apply Hhi|].
      change (2 ^ 53)%Z with 9007199254740992%Z.
      change (2 ^ 51)%Z with 2251799813685248%Z in HH. lia. }
    rewrite Hint in Hint'. injection Hint' as <-. rewrite Hint.
    eexists _, _, _, _. split; [reflexivity|].
    assert (Hdiv := Z.div_mod (H - nh) 2 ltac:(lia)).
    assert (Hmod := Z.mod_pos_bound (H - nh) 2 ltac:(lia)).
    do 4 (split; [lia|]). right. split; [lia|].
    replace ((H - nh) / 2 + nh - (H - nh) / 2)%Z with nh by lia.
    assert (Hlo : IZR lo <= IZR nh) by (apply IZR_le; lia).
    assert (Hup : IZR nh <= IZR hi) by (apply IZR_le; lia).
    apply Rabs_def1; lra.
Qed.

(** ** The distance to an aspect ratio as a real number *)

Lemma fval_nonneg (f : float) : nonneg_finite f -> 0 <= fval f.
Proof.
  unfold nonneg_finite, fval.
  destruct (Prim2SF f) as [s|s| |[|] m e]; try contradiction; intros _; cbn [SF2R];
    [lra | left; apply F2R_pos].
Qed.

(** The computed distance is the real distance rounded: it stays on the
    same side of every float of the format as the real distance. *)
Lemma difference_between (x a : float) (ma : positive) (ea : Z) :
  Num.is_finite x = true ->
  Prim2SF a = S754_finite false ma ea ->
  nonneg_finite (abs (x - a)) ->
  (Rabs (fval x - fval a) = 0 -> fval (abs (x - a)) = 0) /\
  forall m e, bounded prec emax m e = true ->
    (F2R (Zpos m) e <= Rabs (fval x - fval a) -> F2R (Zpos m) e <= fval (abs (x - a))) /\
    (Rabs (fval x - fval a) <= F2R (Zpos m) e -> fval (abs (x - a)) <= F2R (Zpos m) e).
Proof.
  intros Hfin Ha Hnn.
  assert (HA := F2R_pos ma ea).
  unfold nonneg_finite in Hnn. unfold fval. rewrite abs_spec in *. rewrite Ha. cbn [SF2R].
  destruct (finite_cases x Hfin) as [(s & Hx)|(sx & mx & ex & Hx)].
  - rewrite sub_spec, Hx, Ha. cbn [SF64sub SFsub SFabs SF2R negb].
    rewrite Rminus_0_l, Rabs_Ropp, Rabs_pos_eq by lra.
    split; [intros; lra | intros m e Hb; split; auto].
  - assert (Hsub := sub_spec x a). rewrite Hx, Ha in Hsub.
    unfold SF64sub, SFsub in Hsub.
    set (ez := Z.min ex ea) in *.
    destruct (shl_align_spec mx ex ez) as (Mx & e1 & HMx & HvX & He1 & _).
    destruct (shl_align_spec ma ea ez) as (Ma & e2 & HMa & HvA & He2 & _).
    rewrite HMx, HMa in Hsub. cbn [fst] in Hsub.
    assert (He1' : e1 = ez) by (unfold ez in *; lia).
    assert (He2' : e2 = ez) by (unfold ez in *; lia).
    clear He1 He2. subst e1 e2.
    assert (Hval : SF2R (S754_finite sx mx ex) - F2R (Zpos ma) ea
                   = IZR (cond_Zopp sx (Zpos Mx) - cond_Zopp false (Zpos Ma)) * bpow ez).
    { rewrite minus_IZR.
      destruct sx; cbn [SF2R cond_Zopp]; rewrite <- HvX, <- HvA; unfold F2R;
        [rewrite opp_IZR|]; ring. }
    rewrite Hx, Hval. rewrite Hsub in Hnn |- *. clear Hsub.
    unfold binary_normalize in *.
    destruct (cond_Zopp sx (Zpos Mx) - cond_Zopp false (Zpos Ma))%Z as [|p|p] eqn:HZ.
    + cbn [SFabs SF2R]. rewrite Rmult_0_l, Rabs_R0.
      split; [reflexivity|]. intros m e Hb. assert (HM := F2R_pos m e). split; intros; lra.
    + assert (HP := F2R_pos p ez). fold (F2R (Zpos p) ez).
      rewrite Rabs_pos_eq by lra. split; [intros; lra|]. intros m e Hb. split; intros Hle.
      * destruct (binary_round_ge false p ez m e Hb Hle) as [Hi|(m' & e' & Hr & Hge)].
        -- rewrite Hi in Hnn. contradiction.
        -- rewrite Hr. exact Hge.
      * destruct (binary_round_le false p ez m e Hb Hle) as [Hz|(m' & e' & Hr & Hge)].
        -- rewrite Hz. cbn [SFabs SF2R]. lra.
        -- rewrite Hr. exact Hge.
    + assert (HP := F2R_pos p ez).
      replace (IZR (Zneg p) * bpow ez) with (- F2R (Zpos p) ez)
        by (unfold F2R; change (Zneg p) with (- Zpos p)%Z; rewrite opp_IZR; ring).
      rewrite Rabs_Ropp, Rabs_pos_eq by lra.
      split; [intros; lra|]. intros m e Hb. split; intros Hle.
      * destruct (binary_round_ge true p ez m e Hb Hle) as [Hi|(m' & e' & Hr & Hge)].
        -- rewrite Hi in Hnn. contradiction.
        -- rewrite Hr. exact Hge.
      * destruct (binary_round_le true p ez m e Hb Hle) as [Hz|(m' & e' & Hr & Hge)].
        -- rewrite Hz. cbn [SFabs SF2R]. lra.
        -- rewrite Hr. exact Hge.
Qed.

Lemma bpow_m4 : bpow (-4) = / 16.
Proof. change (-4)%Z with (Z.opp 4). rewrite bpow_opp, bpow_IZR by lia. reflexivity. Qed.

(** Below [2^48], the computed distance is within a sixteenth of the
    real distance. *)
Lemma difference_near (x a : float) (ma : positive) (ea : Z) :
  Num.is_finite x = true ->
  Prim2SF a = S754_finite false ma ea ->
  nonneg_finite (abs (x - a)) ->
  Rabs (fval x - fval a) < IZR (2 ^ 48) ->
  Rabs (fval x - fval a) - / 16 <= fval (abs (x - a)) <= Rabs (fval x - fval a) + / 16.
Proof.
  intros Hfin Ha Hnn Hlt.
  destruct (difference_between x a ma ea Hfin Ha Hnn) as [_ Hbetween].
  assert (Hd0 := fval_nonneg _ Hnn).
  set (r := Rabs (fval x - fval a)) in *.
  assert (Hr0 : 0 <= r) by apply Rabs_pos.
  destruct (integer_bracket (16 * r)) as (lo & hi & Hlh & Hbr & Hnear); [lra|].
  change (2 ^ 48)%Z with 281474976710656%Z in Hlt.
  assert (Hhi : (hi < 2 ^ 53)%Z).
  { apply lt_IZR. change (2 ^ 53)%Z with 9007199254740992%Z. lra. }
  split.
  - destruct (Z.eq_dec lo 0) as [->|Hne]; [lra|].
    destruct (exists_bounded (Z.to_pos lo) (-4)) as (mb & eb & Hb & Hv & _);
      [rewrite Z2Pos.id by lia; lia | lia |].
    destruct (Hbetween mb eb Hb) as [Hlow _].
    assert (Hval : F2R (Zpos mb) eb = IZR lo * / 16).
    { rewrite Hv. unfold F2R. rewrite Z2Pos.id, bpow_m4 by lia. reflexivity. }
    rewrite Hval in Hlow. assert (Hl := Hlow ltac:(lra)). lra.
  - destruct (exists_bounded (Z.to_pos (Z.max hi 1)) (-4)) as (mb & eb & Hb & Hv & _);
      [rewrite Z2Pos.id by lia; lia | lia |].
    destruct (Hbetween mb eb Hb) as [_ Hup].
    assert (Hval : F2R (Zpos mb) eb = IZR (Z.max hi 1) * / 16).
    { rewrite Hv. unfold F2R. rewrite Z2Pos.id, bpow_m4 by lia. reflexivity. }
    rewrite Hval in Hup.
    destruct (Z.max_spec hi 1) as [[Hcmp Hm]|[Hcmp Hm]]; rewrite Hm in Hup.
    + assert (H1 : IZR hi <= 0) by (apply IZR_le; lia).
      assert (Hu := Hup ltac:(lra)). lra.
    + assert (Hu := Hup ltac:(lra)). lra.
Qed.

(** From one half on, a distance below one is computed exactly. *)
Lemma difference_exact (x a : float) (ma : positive) (ea : Z) :
  Num.is_finite x = true ->
  Prim2SF a = S754_finite false ma ea ->
  nonneg_finite (abs (x - a)) ->
  (-53 <= ea)%Z ->
  / 2 <= fval x -> Rabs (fval x - fval a) < 1 ->
  fval (abs (x - a)) = Rabs (fval x - fval a).
Proof.
  intros Hfin Ha Hnn Hea Hhalf Hlt.
  destruct (difference_between x a ma ea Hfin Ha Hnn) as [Hzero Hbetween].
  assert (Vx := Prim2SF_valid x).
  unfold fval in Hhalf, Hlt, Hzero, Hbetween |- *. rewrite Ha in *. cbn [SF2R] in *.
  destruct (finite_cases x Hfin) as [(s & Hx)|(sx & mx & ex & Hx)];
    rewrite Hx in *; cbn [SF2R] in *; [lra|].
  assert (HX := F2R_pos mx ex).
  destruct sx; [lra|]. cbn [SpecFloat.valid_binary] in Vx.
  destruct (bounded_facts mx ex Vx) as (_ & _ & Hd & _).
  assert (Hex : (-53 <= ex)%Z).
  { assert (H1 := F2R_lt_bpow mx ex).
    assert (H2 : bpow (Zpos (digits2_pos mx) + ex) <= bpow (53 + ex)) by (apply bpow_le; lia).
    assert (H3 : bpow (-1) < bpow (53 + ex)) by (rewrite bpow_m1; lra).
    apply bpow_lt_inv in H3. lia. }
  set (N := (Zpos mx * 2 ^ (ex - -53) - Zpos ma * 2 ^ (ea - -53))%Z).
  assert (Hval : F2R (Zpos mx) ex - F2R (Zpos ma) ea = IZR N * bpow (-53)).
  { unfold N. rewrite minus_IZR, Rmult_minus_distr_r, !F2R_mul_pow by lia. reflexivity. }
  assert (Hp := bpow_gt_0 (-53)).
  assert (Habs : Rabs (F2R (Zpos mx) ex - F2R (Zpos ma) ea) = IZR (Z.abs N) * bpow (-53)).
  { rewrite Hval, Rabs_mult, (Rabs_pos_eq (bpow (-53))), abs_IZR by lra. reflexivity. }
  rewrite Habs in *.
  destruct (Z.eq_dec (Z.abs N) 0) as [Hz|Hnz].
  - rewrite Hz in *. rewrite Rmult_0_l in *. now apply Hzero.
  - assert (HN : (Z.abs N < 2 ^ 53)%Z).
    { apply lt_IZR. rewrite <- bpow_IZR by lia.
      apply Rmult_lt_reg_r with (bpow (-53)); [exact Hp|].
      rewrite <- bpow_plus. change (53 + -53)%Z with 0%Z. rewrite bpow_0. exact Hlt. }
    destruct (exists_bounded (Z.to_pos (Z.abs N)) (-53)) as (mb & eb & Hb & Hv & _);
      [rewrite Z2Pos.id by lia; lia | lia |].
    assert (Hv' : F2R (Zpos mb) eb = IZR (Z.abs N) * bpow (-53)).
    { rewrite Hv. unfold F2R. rewrite Z2Pos.id by lia. reflexivity. }
    destruct (Hbetween mb eb Hb) as [Hlow Hup]. rewrite Hv' in *.
    apply Rle_antisym; [apply Hup | apply Hlow]; lra.
Qed.

(** ** The aspects of the catalog as real numbers *)

Lemma fval_finite (f : float) (m : positive) (e : Z) :
  Prim2SF f = S754_finite false m e -> (e <= 0)%Z ->
  fval f = IZR (Zpos m) / IZR (2 ^ (- e)).
Proof.
  intros Hf He. unfold fval. rewrite Hf. cbn [SF2R]. unfold F2R, Rdiv.
  rewrite <- bpow_IZR by lia. rewrite <- bpow_opp, Z.opp_involutive. reflexivity.
Qed.

Lemma fval_known (f : float) (m : positive) (e : Z) (lo hi : R) :
  Prim2SF f = S754_finite false m e -> (-53 <= e <= 0)%Z ->
  lo * IZR (2 ^ (- e)) <= IZR (Zpos m) <= hi * IZR (2 ^ (- e)) ->
  (exists ma ea, Prim2SF f = S754_finite false ma ea /\ (-53 <= ea)%Z) /\
  lo <= fval f <= hi.
Proof.
  intros Hf He [Hlo Hhi]. split; [exists m, e; split; [exact Hf | lia]|].
  rewrite (fval_finite f m e Hf) by lia.
  assert (Hp : 0 < IZR (2 ^ (- e))) by (apply IZR_lt, Z.pow_pos_nonneg; lia).
  split.
  - apply Rmult_le_reg_r with (IZR (2 ^ (- e))); [exact Hp|].
    unfold Rdiv. rewrite Rmult_assoc, Rinv_l by lra. lra.
  - apply Rmult_le_reg_r with (IZR (2 ^ (- e))); [exact Hp|].
    unfold Rdiv. rewrite Rmult_assoc, Rinv_l by lra. lra.
Qed.

Ltac aspect_value m e :=
  apply (fval_known _ m e);
  [ vm_compute; reflexivity
  | lia
  | match goal with
    | |- context [(2 ^ ?k)%Z] =>
        let p := eval vm_compute in (2 ^ k)%Z in change (2 ^ k)%Z with p
    end; lra ].

Lemma aspect_values :
  aspect_in (16 / 9)%float (177 / 100) (178 / 100) /\
  aspect_in (9 / 16)%float (9 / 16) (9 / 16) /\
  aspect_in 1%float 1 1 /\
  aspect_in (4 / 3)%float (133 / 100) (134 / 100) /\
  aspect_in (3 / 4)%float (3 / 4) (3 / 4) /\
  aspect_in (21 / 9)%float (233 / 100) (234 / 100).
Proof.
  unfold aspect_in.
  split; [aspect_value 8006399337547548%positive (-52)%Z|].
  split; [aspect_value 5066549580791808%positive (-53)%Z|].
  split; [aspect_value 4503599627370496%positive (-52)%Z|].
  split; [aspect_value 6004799503160661%positive (-52)%Z|].
  split; [aspect_value 6755399441055744%positive (-53)%Z|].
  aspect_value 5254199565265579%positive (-51)%Z.
Qed.

(** Every aspect of the catalog is a positive float between 0.56 and
    2.34 whose exponent is -53 at least. *)
Lemma catalog_aspect_range (key : string) (cfg : Ratio.t) :
  In (key, cfg) Ratio.AVAILABLE_RATIOS ->
  (exists ma ea, Prim2SF (Ratio.aspect cfg) = S754_finite false ma ea /\ (-53 <= ea)%Z) /\
  56 / 100 <= fval (Ratio.aspect cfg) <= 234 / 100.
Proof.
  destruct aspect_values as ((P1 & H1) & (P2 & H2) & (P3 & H3) & (P4 & H4) & (P5 & H5)
                             & (P6 & H6)).
  unfold Ratio.AVAILABLE_RATIOS.
  generalize dependent (21 / 9)%float. generalize dependent (3 / 4)%float.
  generalize dependent (4 / 3)%float. generalize dependent 1%float.
  generalize dependent (9 / 16)%float. generalize dependent (16 / 9)%float.
  intros f1 P1 H1 f2 P2 H2 f3 P3 H3 f4 P4 H4 f5 P5 H5 f6 P6 H6.
  cbn [In]. intros Hin.
  repeat (destruct Hin as [Hin|Hin];
          [injection Hin as _ <-; cbn [Ratio.aspect]; split; [assumption | lra]|]).
  destruct Hin.
Qed.

(** Two entries of the catalog are the same entry, or their aspects are
    0.18 apart at least. *)
Lemma catalog_separated (entry1 entry2 : string * Ratio.t) :
  In entry1 Ratio.AVAILABLE_RATIOS -> In entry2 Ratio.AVAILABLE_RATIOS ->
  entry1 = entry2 \/
  fval (Ratio.aspect (snd entry1)) + 18 / 100 <= fval (Ratio.aspect (snd entry2)) \/
  fval (Ratio.aspect (snd entry2)) + 18 / 100 <= fval (Ratio.aspect (snd entry1)).
Proof.
  destruct aspect_values as ((_ & H1) & (_ & H2) & (_ & H3) & (_ & H4) & (_ & H5) & (_ & H6)).
  unfold Ratio.AVAILABLE_RATIOS.
  generalize dependent (21 / 9)%float. generalize dependent (3 / 4)%float.
  generalize dependent (4 / 3)%float. generalize dependent 1%float.
  generalize dependent (9 / 16)%float. generalize dependent (16 / 9)%float.
  intros f1 H1 f2 H2 f3 H3 f4 H4 f5 H5 f6 H6.
  cbn [In]. intros Hin1 Hin2.
  repeat (destruct Hin1 as [<-|Hin1];
          [repeat (destruct Hin2 as [<-|Hin2];
                   [cbn [snd Ratio.aspect];
                    first [left; reflexivity | right; left; lra | right; right; lra]|]);
           destruct Hin2|]).
  destruct Hin1.
Qed.

(** For an aspect below [2^47] in absolute value, the computed distances
    to two entries of the catalog compare as the real distances do. *)
Lemma difference_order (x : float) (entry1 entry2 : string * Ratio.t) :
  Num.is_finite x = true ->
  Rabs (fval x) < IZR (2 ^ 47) ->
  In entry1 Ratio.AVAILABLE_RATIOS -> In entry2 Ratio.AVAILABLE_RATIOS ->
  Rabs (fval x - fval (Ratio.aspect (snd entry1)))
    <= Rabs (fval x - fval (Ratio.aspect (snd entry2))) ->
  (Rabs (fval x - fval (Ratio.aspect (snd entry1)))
     < Rabs (fval x - fval (Ratio.aspect (snd entry2))) ->
   fval (Ratio.difference x (snd entry1)) < fval (Ratio.difference x (snd entry2))) /\
  (Rabs (fval x - fval (Ratio.aspect (snd entry1)))
     = Rabs (fval x - fval (Ratio.aspect (snd entry2))) ->
   fval (Ratio.difference x (snd entry1)) = fval (Ratio.difference x (snd entry2))).
Proof.
  intros Hfin Hx Hin1 Hin2 Hle.
  destruct (catalog_separated entry1 entry2 Hin1 Hin2) as [->|Hsep];
    [split; [lra | reflexivity]|].
  destruct entry1 as [k1 c1], entry2 as [k2 c2]. cbn [snd] in *.
  destruct (catalog_aspect_range k1 c1 Hin1) as ((m1 & e1 & Ha1 & He1) & Hr1).
  destruct (catalog_aspect_range k2 c2 Hin2) as ((m2 & e2 & Ha2 & He2) & Hr2).
  assert (Hn1 := difference_nonneg_finite x k1 c1 Hfin Hin1).
  assert (Hn2 := difference_nonneg_finite x k2 c2 Hfin Hin2).
  unfold Ratio.difference in *.
  change (2 ^ 47)%Z with 140737488355328%Z in Hx.
  assert (Hnear1 := difference_near x _ m1 e1 Hfin Ha1 Hn1).
  assert (Hnear2 := difference_near x _ m2 e2 Hfin Ha2 Hn2).
  assert (Hexact1 := difference_exact x _ m1 e1 Hfin Ha1 Hn1 He1).
  assert (Hexact2 := difference_exact x _ m2 e2 Hfin Ha2 Hn2 He2).
  change (2 ^ 48)%Z with 281474976710656%Z in Hnear1, Hnear2.
  set (v := fval x) in *.
  set (a1 := fval (Ratio.aspect c1)) in *. set (a2 := fval (Ratio.aspect c2)) in *.
  set (d1 := fval (abs (x - Ratio.aspect c1))) in *.
  set (d2 := fval (abs (x - Ratio.aspect c2))) in *.
  assert (Hb1 : Rabs (v - a1) < 281474976710656)
    by (revert Hx; unfold Rabs; destruct (Rcase_abs v), (Rcase_abs (v - a1)); lra).
  assert (Hb2 : Rabs (v - a2) < 281474976710656)
    by (revert Hx; unfold Rabs; destruct (Rcase_abs v), (Rcase_abs (v - a2)); lra).
  specialize (Hnear1 Hb1). specialize (Hnear2 Hb2).
  destruct (Rle_or_lt (Rabs (v - a2) - Rabs (v - a1)) (/ 8)) as [Hclose|Hfar];
    [|split; lra].
  assert (Hcond : / 2 <= v /\ Rabs (v - a1) < 1 /\ Rabs (v - a2) < 1).
  { revert Hle Hclose. unfold Rabs.
    destruct (Rcase_abs (v - a1)), (Rcase_abs (v - a2)); lra. }
  destruct Hcond as (Hv & Hs1 & Hs2).
  rewrite <- (Hexact1 Hv Hs1), <- (Hexact2 Hv Hs2). split; lra.
Qed.

End RoundFacts.

Import Real RoundFacts.

(** C7, as amended: for every finite aspect, [select_best_ratio] returns
    the first entry of the catalog whose distance to the aspect, as the
    code computes it, is the least: no entry has a smaller computed distance
    and every entry before it has a larger one. When the aspect is below
    [2^47] in absolute value, as the aspect of every image is, the computed
    distances compare as the real distances [|image_aspect - aspect|] do,
    so the entry returned minimizes the real distance over the catalog and
    every entry before it is strictly farther: it is the first of the
    nearest entries. Each of the six profiles is selected for its own
    aspect. *)
Theorem C7_select_best_ratio (image_aspect : float) :
  (Num.is_finite image_aspect = true ->
   exists before key cfg after,
     Ratio.AVAILABLE_RATIOS = before ++ (key, cfg) :: after /\
     Ratio.select_best_ratio image_aspect = Some (Ratio.named key cfg) /\
     (forall entry, In entry Ratio.AVAILABLE_RATIOS ->
        PrimFloat.ltb (Ratio.difference image_aspect (snd entry))
                      (Ratio.difference image_aspect cfg) = false) /\
     (forall entry, In entry before ->
        PrimFloat.ltb (Ratio.difference image_aspect cfg)
                      (Ratio.difference image_aspect (snd entry)) = true) /\
     ((Rabs (fval image_aspect) < IZR (2 ^ 47))%R ->
      (forall entry, In entry Ratio.AVAILABLE_RATIOS ->
         (Rabs (fval image_aspect - fval (Ratio.aspect cfg))
          <= Rabs (fval image_aspect - fval (Ratio.aspect (snd entry))))%R) /\
      (forall entry, In entry before ->
         (Rabs (fval image_aspect - fval (Ratio.aspect cfg))
          < Rabs (fval image_aspect - fval (Ratio.aspect (snd entry))))%R))) /\
  Forall (fun entry =>
            Ratio.select_best_ratio (Ratio.aspect (snd entry))
            = Some (Ratio.named (fst entry) (snd entry)))
         Ratio.AVAILABLE_RATIOS.
Proof.
  split.
  - intros Hfin.
    assert (Hgood : forall entry, In entry Ratio.AVAILABLE_RATIOS ->
                      nonneg_finite (Ratio.difference image_aspect (snd entry))).
    { intros [k c] Hin. now apply (difference_nonneg_finite image_aspect k c). }
    pose proof (select_loop_invariant image_aspect Ratio.AVAILABLE_RATIOS Hgood) as Hinv.
    change (match Ratio.AVAILABLE_RATIOS with [] => _ | _ :: _ => ?P end) with P in Hinv.
    destruct Hinv as (before & key & cfg & after & Heq & Hsel & Hbefore & Hafter).
    exists before, key, cfg, after. split; [exact Heq|].
    split; [unfold Ratio.select_best_ratio; now rewrite Hsel|].
    assert (Hin_cfg : In (key, cfg) Ratio.AVAILABLE_RATIOS).
    { rewrite Heq. apply in_or_app. right. now left. }
    assert (Hin_before : forall entry, In entry before -> In entry Ratio.AVAILABLE_RATIOS).
    { intros entry Hin. rewrite Heq. apply in_or_app. now left. }
    assert (Hcfg : nonneg_finite (Ratio.difference image_aspect cfg)) by apply (Hgood _ Hin_cfg).
    assert (Hleast : forall entry, In entry Ratio.AVAILABLE_RATIOS ->
                       (fval (Ratio.difference image_aspect cfg)
                        <= fval (Ratio.difference image_aspect (snd entry)))%R).
    { intros entry Hin. rewrite Heq in Hin. apply in_app_or in Hin.
      destruct Hin as [Hin|[<-|Hin]].
      - specialize (Hbefore _ Hin). lra.
      - cbn [snd]. lra.
      - now apply Hafter. }
    split; [|split].
    + intros entry Hin.
      destruct (PrimFloat.ltb _ _) eqn:Hlt; [|reflexivity].
      apply ltb_nonneg_finite in Hlt; auto. specialize (Hleast _ Hin). lra.
    + intros entry Hin. apply ltb_nonneg_finite; auto.
    + intros Hsmall. split.
      * intros entry Hin. apply Rnot_lt_le. intros Hlt.
        destruct (difference_order image_aspect entry (key, cfg) Hfin Hsmall Hin Hin_cfg)
          as [Hstrict _]; [cbn [snd]; lra|].
        cbn [snd] in Hstrict. specialize (Hstrict Hlt). specialize (Hleast _ Hin). lra.
      * intros entry Hin. apply Rnot_le_lt. intros Hle.
        destruct (difference_order image_aspect entry (key, cfg) Hfin Hsmall
                    (Hin_before _ Hin) Hin_cfg Hle) as [Hstrict Hsame].
        cbn [snd] in Hstrict, Hsame. specialize (Hbefore _ Hin).
        destruct Hle as [Hlt|Heq']; [specialize (Hstrict Hlt) | specialize (Hsame Heq')]; lra.
  - repeat (apply Forall_cons; [vm_compute; reflexivity|]). apply Forall_nil.
Qed.

Lemma C7_select_best_ratio_witness :
  Ratio.select_best_ratio 1.5%float
    = Some (Ratio.named "4:3" (Ratio.mk None "1104:832" 1104 832 (4 / 3)%float)) /\
  (forall entry, In entry Ratio.AVAILABLE_RATIOS ->
     (Rabs (fval 1.5%float - fval (4 / 3)%float)
      <= Rabs (fval 1.5%float - fval (Ratio.aspect (snd entry))))%R) /\
  (forall entry,
     In entry [ ("16:9", Ratio.mk None "1280:720" 1280 720 (16 / 9)%float);
                ("9:16", Ratio.mk None "720:1280" 720 1280 (9 / 16)%float);
                ("1:1", Ratio.mk None "960:960" 960 960 1%float) ] ->
     (Rabs (fval 1.5%float - fval (4 / 3)%float)
      < Rabs (fval 1.5%float - fval (Ratio.aspect (snd entry))))%R).
Proof.
  destruct (proj1 (C7_select_best_ratio 1.5%float) eq_refl)
    as (before & key & cfg & after & Heq & Hsel & _ & _ & Hreal).
  destruct Hreal as [Hleast Hfirst].
  { rewrite (fval_finite 1.5%float 6755399441055744 (-52)) by (vm_compute; reflexivity || discriminate).
    change (2 ^ (- -52))%Z with 4503599627370496%Z.
    change (2 ^ 47)%Z with 140737488355328%Z.
    rewrite Rabs_pos_eq; lra. }
  assert (Hkey : key = "4:3").
  { vm_compute in Hsel. now injection Hsel as <-. }
  subst key.
  assert (Hsplit : before = firstn 3 Ratio.AVAILABLE_RATIOS /\
                   cfg = Ratio.mk None "1104:832" 1104 832 (4 / 3)%float).
  { clear -Heq. unfold Ratio.AVAILABLE_RATIOS in Heq.
    destruct before as [|b0 [|b1 [|b2 [|b3 [|b4 [|b5 [|b6 before]]]]]]];
      cbn [app] in Heq; injection Heq; intros; subst; try discriminate.
    split; reflexivity. }
  destruct Hsplit as [-> ->].
  split; [exact Hsel|]. split; [exact Hleast | exact Hfirst].
Defined.

(** C7 as it is worded fails on large aspects, where the subtraction
    rounds: at [1e17] the six computed distances are the same float and the
    first entry, 16:9, is returned, although 21:9 is strictly nearer. *)
Lemma C7_counterexample :
  Num.is_finite 1e17%float = true /\
  Ratio.select_best_ratio 1e17%float
    = Some (Ratio.named "16:9" (Ratio.mk None "1280:720" 1280 720 (16 / 9)%float)) /\
  In ("21:9", Ratio.mk None "1584:672" 1584 672 (21 / 9)%float) Ratio.AVAILABLE_RATIOS /\
  (Rabs (fval 1e17%float - fval (21 / 9)%float)
   < Rabs (fval 1e17%float - fval (16 / 9)%float))%R.
Proof.
  split; [reflexivity|]. split; [vm_compute; reflexivity|].
  split; [unfold Ratio.AVAILABLE_RATIOS; cbn [In]; auto 10|].
  destruct aspect_values as ((_ & H1) & _ & _ & _ & _ & (_ & H6)).
  assert (Hx : fval 1e17%float = 100000000000000000%R).
  { unfold fval. replace (Prim2SF 1e17%float) with (S754_finite false 6250000000000000 4)
      by (vm_compute; reflexivity).
    cbn [SF2R]. unfold F2R. rewrite bpow_IZR by lia. change (2 ^ 4)%Z with 16%Z. lra. }
  rewrite Hx, !Rabs_pos_eq; lra.
Qed.

(** ** The image transformer *)

Lemma catalog_aspect_ok (key : string) (cfg : Ratio.t) :
  In (key, cfg) Ratio.AVAILABLE_RATIOS -> aspect_ok (Ratio.aspect cfg).
Proof.
  unfold Ratio.AVAILABLE_RATIOS. cbn [In]. intros Hin.
  repeat (destruct Hin as [Hin|Hin];
          [injection Hin as _ <-; cbn [Ratio.aspect]; unfold aspect_ok;
           eexists _, _; split; [vm_compute; reflexivity|];
           split; [vm_compute; reflexivity|];
           split; [vm_compute; reflexivity|];
           split; vm_compute; discriminate|]).
  destruct Hin.
Qed.

Lemma mkdir_is_dir (fs fs' : FS.t) (p : FS.path) :
  FS.mkdir fs p = Some fs' -> FS.is_dir fs' p = true.
Proof.
  unfold FS.mkdir, FS.is_dir.
  destruct (FS.lookup p fs) as [[|readable d]|] eqn:Hp; try discriminate.
  - intros H; injection H as <-. now rewrite Hp.
  - destruct (match FS.lookup (FS.parent p) fs with Some FS.Dir => true | _ => false end);
      [|discriminate].
    intros H; injection H as <-. now rewrite lookup_put, path_eqb_refl.
Qed.

(** C6: for a readable image of at least 1 x 1 pixels (and of sides below
    2^51, which every PIL image is) and a profile of the catalog, as
    [select_best_ratio] hands it on, the resized image has exactly the width
    and the height of the profile and the mode RGB; it is the image,
    converted to RGB if it was not, cropped and then resized. The crop box
    lies inside the image, so nothing is padded; it spans the full height or
    the full width and is centred up to one pixel in the other direction;
    and it has the target aspect up to one pixel: when the width is cropped,
    the width of the box is within one pixel of the height times the
    profile's aspect, and when the height is cropped, the height of the box
    is within one pixel of the width divided by the profile's aspect. The
    premises on the disk say that nothing raises: the folder for the resized
    images can be made and the resized file can be written. *)
Theorem C6_resize_image_smart
    (env : Env) (fs fs1 : FS.t) (image_path : FS.path) (key : string) (cfg : Ratio.t)
    (temp_folder : string) (img0 : Image.t) (W H : Z) :
  let resized_path :=
    (cwd env ++ [temp_folder])
    ++ [(PurePath.stem (FS.name image_path) ++ "_"
         ++ Py.replace_char ":" "x" key ++ ".jpg")%string] in
  let rgb := if String.eqb (Image.mode img0) "RGB" then img0 else Image.Convert "RGB" img0 in
  In (key, cfg) Ratio.AVAILABLE_RATIOS ->
  FS.mkdir fs (cwd env ++ [temp_folder]) = Some fs1 ->
  pil_open env fs1 image_path = Some img0 ->
  Image.size img0 = (W, H) ->
  (1 <= W < 2 ^ 51)%Z -> (1 <= H < 2 ^ 51)%Z ->
  match FS.lookup resized_path fs1 with
  | Some FS.Dir | Some (FS.File false _) => False
  | _ => True
  end ->
  exists fs2 resized_img x0 y0 x1 y1,
    Transform.resize_attempt env fs image_path (Ratio.named key cfg) temp_folder
      = (fs2, Some (resized_path, resized_img)) /\
    Transform.resize_image_smart env fs image_path (Ratio.named key cfg) temp_folder
      = (fs2, resized_path) /\
    FS.read fs2 resized_path = Some (FS.Jpeg 95 resized_img) /\
    Image.size resized_img = (Ratio.width cfg, Ratio.height cfg) /\
    Image.mode resized_img = "RGB" /\
    resized_img = Image.Resize (Ratio.width cfg) (Ratio.height cfg) "LANCZOS"
                    (Image.Crop x0 y0 x1 y1 rgb) /\
    (0 <= x0 <= x1)%Z /\ (x1 <= W)%Z /\ (0 <= y0 <= y1)%Z /\ (y1 <= H)%Z /\
    (((y0 = 0 /\ y1 = H /\ x0 <= W - x1 <= x0 + 1)%Z /\
      (Rabs (IZR (x1 - x0) - IZR H * fval (Ratio.aspect cfg)) < 1)%R) \/
     ((x0 = 0 /\ x1 = W /\ y0 <= H - y1 <= y0 + 1)%Z /\
      (Rabs (IZR (y1 - y0) - IZR W / fval (Ratio.aspect cfg)) < 1)%R)).
Proof.
  intros resized_path rgb Hin Hmkdir Hopen Hsize HW HH Hfree.
  assert (Hrgb_size : Image.size rgb = (W, H)).
  { subst rgb. destruct (String.eqb _ _); exact Hsize. }
  assert (Hrgb_mode : Image.mode rgb = "RGB").
  { subst rgb. destruct (String.eqb_spec (Image.mode img0) "RGB"); [assumption | reflexivity]. }
  destruct (crop_box_inside W H (Ratio.aspect cfg) HW HH (catalog_aspect_ok key cfg Hin))
    as (x0 & y0 & x1 & y1 & Hbox & Hx & Hx1 & Hy & Hy1 & Hcentre).
  assert (Hdims : (1 <= Ratio.width cfg)%Z /\ (1 <= Ratio.height cfg)%Z).
  { unfold Ratio.AVAILABLE_RATIOS in Hin. cbn [In] in Hin.
    repeat (destruct Hin as [Hin|Hin]; [injection Hin as _ <-; cbn; lia|]).
    destruct Hin. }
  assert (Hwrite : exists fs2,
             FS.write fs1 resized_path
               (FS.Jpeg 95 (Image.Resize (Ratio.width cfg) (Ratio.height cfg) "LANCZOS"
                              (Image.Crop x0 y0 x1 y1 rgb))) = Some fs2).
  { unfold FS.write.
    assert (Hparent : FS.is_dir fs1 (FS.parent resized_path) = true).
    { subst resized_path. unfold FS.parent.
      rewrite removelast_last. now apply mkdir_is_dir in Hmkdir. }
    rewrite Hparent.
    destruct (FS.lookup resized_path fs1) as [[|[|] d]|]; try contradiction; eauto. }
  destruct Hwrite as (fs2 & Hwrite).
  assert (Hattempt :
    Transform.resize_attempt env fs image_path (Ratio.named key cfg) temp_folder
    = (fs2, Some (resized_path,
                  Image.Resize (Ratio.width cfg) (Ratio.height cfg) "LANCZOS"
                    (Image.Crop x0 y0 x1 y1 rgb)))).
  { unfold Transform.resize_attempt. rewrite Hmkdir, Hopen.
    fold rgb. rewrite Hrgb_size. cbn [Ratio.aspect Ratio.named Ratio.width Ratio.height Ratio.name].
    rewrite Hbox. unfold Transform.crop.
    assert (Hx' : (x1 <? x0)%Z = false) by (apply Z.ltb_ge; lia).
    assert (Hy' : (y1 <? y0)%Z = false) by (apply Z.ltb_ge; lia).
    rewrite Hx', Hy'. cbn [orb]. unfold Transform.resize.
    assert (Hw' : (Ratio.width cfg <? 1)%Z = false) by (apply Z.ltb_ge; lia).
    assert (Hh' : (Ratio.height cfg <? 1)%Z = false) by (apply Z.ltb_ge; lia).
    rewrite Hw', Hh'. cbn [orb].
    subst resized_path. rewrite Hwrite. reflexivity. }
  eexists fs2, _, x0, y0, x1, y1.
  split; [exact Hattempt|].
  split; [unfold Transform.resize_image_smart; now rewrite Hattempt|].
  split.
  { apply write_read in Hwrite as [Hread _]; [exact Hread|].
    subst resized_path. intros Hnil. apply app_eq_nil in Hnil as [_ Hnil].
    discriminate Hnil. }
  split; [reflexivity|]. split; [exact Hrgb_mode|]. split; [reflexivity|].
  auto 10.
Qed.

Lemma C6_resize_image_smart_witness :
  exists fs2,
    Transform.resize_attempt Sample.env Sample.disk Sample.jane
      (Ratio.named "4:3" (Ratio.mk None "1104:832" 1104 832 (4 / 3)%float)) "temp_resized"
      = (fs2, Some (["work"; "temp_resized"; "genx JANE DOE self_4x3.jpg"],
                    Image.Resize 1104 832 "LANCZOS"
                      (Image.Crop 240 0 1680 1080
                         (Image.Decoded "jane-bytes" "RGB" 1920 1080)))) /\
    (Rabs (IZR (1680 - 240) - IZR 1080 * fval (4 / 3)%float) < 1)%R.
Proof.
  pose proof (C6_resize_image_smart Sample.env Sample.disk
                (FS.put ["work"; "temp_resized"] FS.Dir Sample.disk) Sample.jane
                "4:3" (Ratio.mk None "1104:832" 1104 832 (4 / 3)%float) "temp_resized"
                (Image.Decoded "jane-bytes" "RGB" 1920 1080) 1920 1080) as Hspec.
  cbv zeta in Hspec.
  destruct Hspec as (fs2 & resized_img & x0 & y0 & x1 & y1 & Hrun & _ & _ & _ & _
                     & Himg & _ & _ & _ & _ & Haspect).
  - vm_compute. auto 10.
  - vm_compute. reflexivity.
  - vm_compute. reflexivity.
  - reflexivity.
  - split; [lia | reflexivity].
  - split; [lia | reflexivity].
  - vm_compute. exact I.
  - exists fs2.
    assert (Hbox : resized_img = Image.Resize 1104 832 "LANCZOS"
                     (Image.Crop 240 0 1680 1080
                        (Image.Decoded "jane-bytes" "RGB" 1920 1080))).
    { vm_compute in Hrun. injection Hrun as _ Hrun. now symmetry. }
    rewrite Hbox in Himg. cbn in Himg. injection Himg as E0 E1 E2 E3.
    subst x0 y0 x1 y1.
    split; [rewrite Hbox in Hrun; exact Hrun|].
    destruct Haspect as [[_ Ha]|[[Hx _] _]]; [exact Ha | discriminate Hx].
Defined.

(** * Further properties *)

Import Terms.

(** ** The two exact-match implementations compared *)

Lemma startswith_contains (p s : string) :
  Py.startswith p s = true -> Py.contains p s = true.
Proof.
  intros H. unfold Py.contains. destruct s; simpl; rewrite H; reflexivity.
Qed.

Lemma contains_cons (p : string) (c : ascii) (s : string) :
  Py.contains p s = true -> Py.contains p (String c s) = true.
Proof.
  unfold Py.contains. intros H. cbn [Py.find].
  destruct (Py.startswith p (String c s)); [reflexivity|].
  destruct (Py.find p s); [reflexivity|discriminate].
Qed.

Lemma contains_app_r (p s rest : string) :
  Py.contains p s = true -> Py.contains p (s ++ rest) = true.
Proof.
  intros H. apply contains_spec in H. destruct H as (before & after & ->).
  apply contains_spec. exists before, (after ++ rest)%string.
  induction before as [|c before IH]; simpl.
  - induction p as [|a p IHp]; simpl; [reflexivity|]. now rewrite IHp.
  - now rewrite IH.
Qed.

Lemma take_prefix (i : nat) (s : string) : exists rest, s = (Py.take i s ++ rest)%string.
Proof.
  unfold Py.take. revert i. induction s as [|c s IH]; intros i.
  - exists EmptyString. now destruct i.
  - destruct i as [|i].
    + exists (String c s). reflexivity.
    + destruct (IH i) as (rest & Hrest). exists rest. cbn. now rewrite <- Hrest.
Qed.

Lemma rfind_dot_split (s : string) (i : nat) :
  Py.rfind_dot s = Some i ->
  exists rest, s = (Py.take i s ++ String "."%char rest)%string.
Proof.
  unfold Py.take. revert i. induction s as [|c s IH]; intros i H; [discriminate|].
  cbn [Py.rfind_dot] in H. destruct (Py.rfind_dot s) as [j|] eqn:Hj.
  - injection H as <-. destruct (IH j eq_refl) as (rest & Hrest).
    exists rest. cbn. now rewrite <- Hrest.
  - destruct (Ascii.eqb_spec c "."%char) as [->|]; [|discriminate].
    injection H as <-. exists s. reflexivity.
Qed.

(** What follows the name without extension in the file name: nothing,
    or the dot of the extension. *)
Lemma name_without_ext_split (s : string) :
  exists rest, s = (PatternMatcher.name_without_ext s ++ rest)%string /\
               PatternMatcher.pattern_then_boundary EmptyString rest = true.
Proof.
  unfold PatternMatcher.name_without_ext. destruct (Py.rfind_dot s) as [i|] eqn:Hi.
  - destruct (rfind_dot_split s i Hi) as (rest & Hrest).
    exists (String "."%char rest). split; [exact Hrest|reflexivity].
  - exists EmptyString. split; [|reflexivity].
    clear Hi. induction s as [|c s IH]; simpl; [reflexivity|]. now rewrite <- IH.
Qed.

Lemma delim_not_az09 (c : ascii) :
  PatternMatcher.is_delim c = true -> PatternMatcher.is_az09 c = false.
Proof.
  destruct c as [[] [] [] [] [] [] [] []]; vm_compute; congruence.
Qed.

Lemma re_split_nonempty (b : bool) (s : string) : PatternMatcher.re_split_from b s <> [].
Proof.
  revert b. induction s as [|c s IH]; intros b; cbn [PatternMatcher.re_split_from].
  - discriminate.
  - destruct (PatternMatcher.is_delim c).
    + destruct b; [apply IH|discriminate].
    + destruct (PatternMatcher.re_split_from false s); discriminate.
Qed.

(** The first segment is followed by a delimiter or by the end of the name. *)
Lemma first_segment_boundary (rest : string) :
  PatternMatcher.pattern_then_boundary EmptyString rest = true ->
  forall (s w : string) (ws : list string),
    PatternMatcher.re_split_from false s = w :: ws ->
    PatternMatcher.pattern_then_boundary w (s ++ rest) = true.
Proof.
  intros Hrest. induction s as [|c s IH]; intros w ws H; cbn [PatternMatcher.re_split_from] in H.
  - injection H as <- <-. exact Hrest.
  - destruct (PatternMatcher.is_delim c) eqn:Hc.
    + injection H as <- <-. cbn. now rewrite (delim_not_az09 c Hc).
    + destruct (PatternMatcher.re_split_from false s) as [|w' ws'] eqn:Hs.
      * now apply re_split_nonempty in Hs.
      * injection H as <- <-. cbn. rewrite Ascii.eqb_refl. cbn. now apply (IH w' ws').
Qed.

Lemma regex_search_skip (prev : option ascii) (p : string) (c : ascii) (s : string) :
  PatternMatcher.regex_search_from (Some c) p s = true ->
  PatternMatcher.regex_search_from prev p (String c s) = true.
Proof.
  intros H. cbn [PatternMatcher.regex_search_from]. rewrite H. apply orb_true_r.
Qed.

Lemma regex_search_here (prev : option ascii) (p s : string) :
  match prev with None => true | Some c => negb (PatternMatcher.is_az09 c) end = true ->
  PatternMatcher.pattern_then_boundary p s = true ->
  PatternMatcher.regex_search_from prev p s = true.
Proof.
  intros Hl Hp. destruct s; cbn [PatternMatcher.regex_search_from]; rewrite Hl, Hp; reflexivity.
Qed.

(** Every segment of the name is found by the regular expression of the
    generator in the name followed by [rest]. *)
Lemma segment_found (p rest : string) :
  PatternMatcher.pattern_then_boundary EmptyString rest = true ->
  forall s : string,
    (forall (b : bool) (prev : option ascii),
       match prev with None => true | Some c => negb (PatternMatcher.is_az09 c) end = true ->
       In p (PatternMatcher.re_split_from b s) ->
       PatternMatcher.regex_search_from prev p (s ++ rest) = true) /\
    (forall prev : option ascii,
       In p (tl (PatternMatcher.re_split_from false s)) ->
       PatternMatcher.regex_search_from prev p (s ++ rest) = true).
Proof.
  intros Hrest. induction s as [|c s [IHa IHb]].
  - split.
    + intros b prev Hl [<-|[]]. apply regex_search_here; assumption.
    + intros prev [].
  - split.
    + intros b prev Hl Hin. cbn [PatternMatcher.re_split_from] in Hin.
      destruct (PatternMatcher.is_delim c) eqn:Hc.
      * assert (Hnext : In p (PatternMatcher.re_split_from true s) ->
                        PatternMatcher.regex_search_from prev p (String c s ++ rest) = true).
        { intros H. apply regex_search_skip. apply (IHa true); [|exact H].
          cbn. now rewrite (delim_not_az09 c Hc). }
        destruct b; [now apply Hnext|].
        destruct Hin as [<-|Hin]; [|now apply Hnext].
        apply regex_search_here; [exact Hl|]. cbn. now rewrite (delim_not_az09 c Hc).
      * destruct (PatternMatcher.re_split_from false s) as [|w ws] eqn:Hs.
        { now apply re_split_nonempty in Hs. }
        destruct Hin as [<-|Hin].
        -- apply regex_search_here; [exact Hl|]. cbn. rewrite Ascii.eqb_refl. cbn.
           now apply (first_segment_boundary rest Hrest s w ws).
        -- apply regex_search_skip. apply IHb. exact Hin.
    + intros prev Hin. cbn [PatternMatcher.re_split_from] in Hin.
      destruct (PatternMatcher.is_delim c) eqn:Hc.
      * cbn [tl] in Hin. apply regex_search_skip. apply (IHa true); [|exact Hin].
        cbn. now rewrite (delim_not_az09 c Hc).
      * destruct (PatternMatcher.re_split_from false s) as [|w ws] eqn:Hs.
        { now apply re_split_nonempty in Hs. }
        cbn [tl] in Hin. apply regex_search_skip. apply IHb. exact Hin.
Qed.

Lemma mem_In (x : string) (xs : list string) : Py.mem x xs = true <-> In x xs.
Proof.
  unfold Py.mem. rewrite existsb_exists. split.
  - intros (y & Hy & Heq). apply String.eqb_eq in Heq. now subst.
  - intros H. exists x. split; [exact H|apply String.eqb_refl].
Qed.

(** For a pattern that does not begin with a hyphen or an underscore, a
    file that the selection dialog counts in exact mode is accepted by
    the generator in exact mode. *)
Theorem X_dialog_exact_implies_generator_exact (filename pattern : string) :
  Py.startswith "-" (Py.lower pattern) = false ->
  Py.startswith "_" (Py.lower pattern) = false ->
  PatternMatcher._matches_pattern filename pattern true = true ->
  PatternMatcher.generator_matches filename pattern true = true.
Proof.
  intros H1 H2 H. unfold PatternMatcher._matches_pattern in H.
  rewrite H1, H2 in H. cbn [orb] in H. apply mem_In in H.
  unfold PatternMatcher.generator_matches.
  destruct (name_without_ext_split (Py.lower filename)) as (rest & Hsplit & Hrest).
  rewrite Hsplit at 1.
  apply (proj1 (segment_found (Py.lower pattern) rest Hrest
                  (PatternMatcher.name_without_ext (Py.lower filename))) false None);
    [reflexivity|exact H].
Qed.

Lemma X_dialog_exact_implies_generator_exact_witness :
  PatternMatcher._matches_pattern "photo_GenX-01.JPG" "genx" true = true /\
  PatternMatcher.generator_matches "photo_GenX-01.JPG" "genx" true = true.
Proof.
  split; [reflexivity|].
  apply (X_dialog_exact_implies_generator_exact "photo_GenX-01.JPG" "genx"); reflexivity.
Defined.

(** ** Exact mode only narrows the selection *)

Lemma boundary_startswith (p s : string) :
  PatternMatcher.pattern_then_boundary p s = true -> Py.startswith p s = true.
Proof.
  revert s. induction p as [|a p IH]; intros s H; [reflexivity|].
  destruct s as [|b s]; cbn in *; [discriminate|].
  apply andb_true_iff in H. destruct H as [Hab Hp]. rewrite Hab. cbn. now apply IH.
Qed.

Lemma regex_search_contains (p s : string) (prev : option ascii) :
  PatternMatcher.regex_search_from prev p s = true -> Py.contains p s = true.
Proof.
  revert prev. induction s as [|c s IH]; intros prev H; cbn [PatternMatcher.regex_search_from] in H.
  - rewrite orb_false_r in H. apply andb_true_iff in H.
    apply startswith_contains, boundary_startswith, H.
  - apply orb_true_iff in H. destruct H as [H|H].
    + apply andb_true_iff in H. apply startswith_contains, boundary_startswith, H.
    + apply contains_cons. now apply (IH (Some c)).
Qed.

Lemma first_segment_prefix (s w : string) (ws : list string) :
  PatternMatcher.re_split_from false s = w :: ws -> Py.startswith w s = true.
Proof.
  revert w ws. induction s as [|c s IH]; intros w ws H; cbn [PatternMatcher.re_split_from] in H.
  - now injection H as <- <-.
  - destruct (PatternMatcher.is_delim c).
    + now injection H as <- <-.
    + destruct (PatternMatcher.re_split_from false s) as [|w' ws'] eqn:Hs.
      * now apply re_split_nonempty in Hs.
      * injection H as <- <-. cbn. rewrite Ascii.eqb_refl. cbn. now apply (IH w' ws').
Qed.

Lemma segment_contains (p : string) :
  forall (s : string) (b : bool),
    In p (PatternMatcher.re_split_from b s) -> Py.contains p s = true.
Proof.
  induction s as [|c s IH]; intros b Hin; cbn [PatternMatcher.re_split_from] in Hin.
  - destruct Hin as [<-|[]]. reflexivity.
  - destruct (PatternMatcher.is_delim c).
    + destruct b.
      * apply contains_cons. now apply (IH true).
      * destruct Hin as [<-|Hin]; [reflexivity|]. apply contains_cons. now apply (IH true).
    + destruct (PatternMatcher.re_split_from false s) as [|w ws] eqn:Hs.
      { now apply re_split_nonempty in Hs. }
      destruct Hin as [<-|Hin].
      * apply startswith_contains. cbn. rewrite Ascii.eqb_refl. cbn.
        now apply (first_segment_prefix s w ws).
      * apply contains_cons. apply (IH false). rewrite Hs. now right.
Qed.

Lemma contains_name_without_ext (p s : string) :
  Py.contains p (PatternMatcher.name_without_ext s) = true -> Py.contains p s = true.
Proof.
  intros H. destruct (name_without_ext_split s) as (rest & Hsplit & _).
  rewrite Hsplit. now apply contains_app_r.
Qed.

(** In both implementations a file name that matches in exact mode also
    matches in substring mode. *)
Theorem X_exact_match_narrows (filename pattern : string) :
  (PatternMatcher._matches_pattern filename pattern true = true ->
   PatternMatcher._matches_pattern filename pattern false = true) /\
  (PatternMatcher.generator_matches filename pattern true = true ->
   PatternMatcher.generator_matches filename pattern false = true).
Proof.
  split.
  - unfold PatternMatcher._matches_pattern. intros H.
    apply contains_name_without_ext.
    destruct (Py.startswith "-" (Py.lower pattern) || Py.startswith "_" (Py.lower pattern)).
    + unfold Py.contains.
      destruct (Py.find (Py.lower pattern) (PatternMatcher.name_without_ext (Py.lower filename)));
        [reflexivity|discriminate].
    + apply mem_In in H. now apply (segment_contains _ _ false).
  - unfold PatternMatcher.generator_matches. apply regex_search_contains.
Qed.

Lemma X_exact_match_narrows_witness :
  PatternMatcher._matches_pattern "person-selfie.jpg" "-selfie" false = true /\
  PatternMatcher.generator_matches "my genx file.png" "GENX" false = true.
Proof.
  split.
  - apply (proj1 (X_exact_match_narrows "person-selfie.jpg" "-selfie")). reflexivity.
  - apply (proj2 (X_exact_match_narrows "my genx file.png" "GENX")). reflexivity.
Defined.

(** ** Patterns that exact mode can never match *)

Lemma segment_no_delim :
  forall (s : string) (b : bool) (p : string),
    In p (PatternMatcher.re_split_from b s) ->
    forall c, In c (list_ascii_of_string p) -> PatternMatcher.is_delim c = false.
Proof.
  induction s as [|c s IH]; intros b p Hin d Hd; cbn [PatternMatcher.re_split_from] in Hin.
  - destruct Hin as [<-|[]]. destruct Hd.
  - destruct (PatternMatcher.is_delim c) eqn:Hc.
    + destruct b.
      * now apply (IH true p).
      * destruct Hin as [<-|Hin]; [destruct Hd|]. now apply (IH true p).
    + destruct (PatternMatcher.re_split_from false s) as [|w ws] eqn:Hs.
      { now apply re_split_nonempty in Hs. }
      destruct Hin as [<-|Hin].
      * cbn in Hd. destruct Hd as [<-|Hd]; [exact Hc|].
        apply (IH false w); [rewrite Hs; now left|exact Hd].
      * apply (IH false p); [rewrite Hs; now right|exact Hd].
Qed.

Lemma lower_keeps_delim (c : ascii) :
  PatternMatcher.is_delim c = true -> Py.lower_char c = c.
Proof.
  destruct c as [[] [] [] [] [] [] [] []]; vm_compute; congruence.
Qed.

Lemma In_lower (c : ascii) (s : string) :
  In c (list_ascii_of_string s) -> In (Py.lower_char c) (list_ascii_of_string (Py.lower s)).
Proof.
  induction s as [|a s IH]; cbn; [tauto|]. intros [->|H]; [now left|right; now apply IH].
Qed.

(** In exact mode of the selection dialog, a pattern that holds a hyphen,
    an underscore, a dot or white space, and that does not begin with a
    hyphen or an underscore, matches no file name at all. *)
Theorem X_dialog_exact_rejects_delimited_pattern (filename pattern : string) (c : ascii) :
  Py.startswith "-" pattern = false ->
  Py.startswith "_" pattern = false ->
  In c (list_ascii_of_string pattern) ->
  PatternMatcher.is_delim c = true ->
  PatternMatcher._matches_pattern filename pattern true = false.
Proof.
  intros H1 H2 Hin Hc.
  assert (Hl1 : Py.startswith "-" (Py.lower pattern) = false).
  { destruct pattern as [|a p]; [reflexivity|]. cbn in *.
    destruct a as [[] [] [] [] [] [] [] []]; vm_compute in H1 |- *; congruence. }
  assert (Hl2 : Py.startswith "_" (Py.lower pattern) = false).
  { destruct pattern as [|a p]; [reflexivity|]. cbn in *.
    destruct a as [[] [] [] [] [] [] [] []]; vm_compute in H2 |- *; congruence. }
  unfold PatternMatcher._matches_pattern. rewrite Hl1, Hl2. cbn [orb].
  destruct (Py.mem (Py.lower pattern)
              (PatternMatcher.re_split (PatternMatcher.name_without_ext (Py.lower filename))))
    eqn:Hm; [|reflexivity].
  apply mem_In in Hm.
  pose proof (segment_no_delim _ _ _ Hm (Py.lower_char c) (In_lower c pattern Hin)) as Hno.
  rewrite (lower_keeps_delim c Hc) in Hno. congruence.
Qed.

Lemma X_dialog_exact_rejects_delimited_pattern_witness :
  PatternMatcher._matches_pattern "genx self.jpg" "genx self" true = false.
Proof.
  apply (X_dialog_exact_rejects_delimited_pattern "genx self.jpg" "genx self" " "%char).
  - reflexivity.
  - reflexivity.
  - cbn. tauto.
  - reflexivity.
Defined.

(** ** Tokens *)

Lemma split_cons (c : ascii) (r : string) :
  Py.split (String c r) =
  if Py.isspace c then Py.split r
  else match r with
       | EmptyString => [String c EmptyString]
       | String c' _ =>
           if Py.isspace c' then String c EmptyString :: Py.split r
           else match Py.split r with
                | w :: ws => String c w :: ws
                | [] => [String c EmptyString]
                end
       end.
Proof. reflexivity. Qed.

Lemma token_cons (c : ascii) (w : string) :
  Py.isspace c = false ->
  (forall d, In d (list_ascii_of_string w) -> Py.isspace d = false) ->
  is_token (String c w).
Proof.
  intros Hc Hw. split; [discriminate|]. intros d [<-|Hd]; [exact Hc|now apply Hw].
Qed.

(** What [split] returns are tokens. *)
Lemma split_tokens (s : string) : Forall is_token (Py.split s).
Proof.
  induction s as [|c s IH]; [constructor|].
  rewrite split_cons. destruct (Py.isspace c) eqn:Hc; [exact IH|].
  assert (H1 : is_token (String c EmptyString)) by (apply token_cons; [exact Hc|intros d []]).
  destruct s as [|c' s']; [now constructor|].
  destruct (Py.isspace c'); [now constructor|].
  destruct (Py.split (String c' s')) as [|w ws]; [now constructor|].
  inversion IH as [|? ? [_ Hw] Hws]; subst. constructor; [|exact Hws].
  now apply token_cons.
Qed.

Lemma token_tail (c : ascii) (w : string) :
  is_token (String c w) ->
  Py.isspace c = false /\ forall d, In d (list_ascii_of_string w) -> Py.isspace d = false.
Proof.
  intros [_ H]. split; [apply H; now left|]. intros d Hd. apply H. now right.
Qed.

Lemma split_token_app (w : string) (rest : string) :
  is_token w ->
  Py.split (w ++ String " "%char rest) = w :: Py.split rest.
Proof.
  induction w as [|c w IH]; intros Hw; [now destruct Hw|].
  destruct (token_tail c w Hw) as [Hc Hrest].
  cbn [append]. rewrite split_cons, Hc.
  destruct w as [|c' w'].
  - cbn [append]. change (Py.isspace " "%char) with true. cbv iota.
    rewrite (split_cons " "%char rest). reflexivity.
  - assert (Hw' : is_token (String c' w')).
    { apply token_cons; [apply Hrest; now left|]. intros d Hd. apply Hrest. now right. }
    destruct (token_tail c' w' Hw') as [Hc' _].
    rewrite (IH Hw'). cbn [append]. rewrite Hc'. reflexivity.
Qed.

Lemma split_token (w : string) : is_token w -> Py.split w = [w].
Proof.
  induction w as [|c w IH]; intros Hw; [now destruct Hw|].
  destruct (token_tail c w Hw) as [Hc Hrest].
  rewrite split_cons, Hc.
  destruct w as [|c' w']; [reflexivity|].
  assert (Hw' : is_token (String c' w')).
  { apply token_cons; [apply Hrest; now left|]. intros d Hd. apply Hrest. now right. }
  destruct (token_tail c' w' Hw') as [Hc' _].
  rewrite (IH Hw'), Hc'. reflexivity.
Qed.

(** Splitting what [join] made of tokens gives the tokens back. *)
Lemma split_join (ws : list string) :
  Forall is_token ws -> Py.split (Py.join " " ws) = ws.
Proof.
  induction 1 as [|w ws Hw Hws IH]; [reflexivity|].
  destruct ws as [|w' ws'].
  - cbn. now apply split_token.
  - change (Py.join " " (w :: w' :: ws'))
      with (w ++ String " "%char (Py.join " " (w' :: ws')))%string.
    rewrite split_token_app by exact Hw. now rewrite IH.
Qed.

Lemma join_nonempty (ws : list string) :
  Forall is_token ws -> ws <> [] -> Py.join " " ws <> EmptyString.
Proof.
  intros H Hne. destruct H as [|w ws [Hw _] _]; [congruence|].
  destruct w as [|c w]; [congruence|]. destruct ws; discriminate.
Qed.

Lemma Forall_removelast {A : Type} (P : A -> Prop) (l : list A) :
  Forall P l -> Forall P (removelast l).
Proof.
  induction 1 as [|x l Hx Hl IH]; [constructor|].
  cbn. destruct l; [constructor|]. constructor; assumption.
Qed.

Lemma middle_tokens (parts : list string) :
  Forall is_token parts -> Forall is_token (Py.middle parts).
Proof.
  intros H. unfold Py.middle. apply Forall_removelast.
  destruct H; [constructor|assumption].
Qed.

Lemma middle_nonempty (parts : list string) :
  (3 <= List.length parts)%nat -> Py.middle parts <> [].
Proof.
  destruct parts as [|a [|b [|c r]]]; cbn; try lia. discriminate.
Qed.

Lemma subject_nonempty (filename subject : string) :
  Subject.extract_name_from_genx_filename filename = Some subject -> subject <> EmptyString.
Proof.
  intros H. apply extract_name_spec in H. cbv zeta in H.
  destruct H as (Hlen & _ & _ & ->).
  apply join_nonempty; [|now apply middle_nonempty].
  apply middle_tokens, split_tokens.
Qed.

(** ** Subject names are normalised *)

(** A derived subject is never empty; it is the middle tokens of the
    file name joined by single blanks, and splitting it gives these
    tokens back. *)
Theorem X_subject_is_normalised (filename subject : string) :
  Subject.extract_name_from_genx_filename filename = Some subject ->
  subject <> EmptyString /\
  Py.split subject = Py.middle (Py.split (PurePath.stem filename)) /\
  Py.split subject <> [] /\
  Py.join " " (Py.split subject) = subject.
Proof.
  intros H. apply extract_name_spec in H. cbv zeta in H.
  destruct H as (Hlen & _ & _ & ->).
  pose proof (middle_tokens _ (split_tokens (PurePath.stem filename))) as Htok.
  pose proof (middle_nonempty _ Hlen) as Hne.
  rewrite (split_join _ Htok).
  repeat split; try assumption. now apply join_nonempty.
Qed.

Lemma X_subject_is_normalised_witness :
  "CIRILA MUNYON" <> EmptyString /\
  Py.split "CIRILA MUNYON" = Py.middle (Py.split (PurePath.stem "genx   CIRILA  MUNYON self.jpg")) /\
  Py.split "CIRILA MUNYON" <> [] /\
  Py.join " " (Py.split "CIRILA MUNYON") = "CIRILA MUNYON".
Proof.
  apply (X_subject_is_normalised "genx   CIRILA  MUNYON self.jpg" "CIRILA MUNYON").
  reflexivity.
Defined.

(** ** From a subject to a file name and back *)

Lemma rfind_dot_dotless (e : string) : dotless e -> Py.rfind_dot e = None.
Proof.
  induction e as [|c e IH]; intros H; [reflexivity|].
  cbn. rewrite IH by (intros d Hd; apply H; now right).
  destruct (Ascii.eqb_spec c "."%char) as [->|]; [|reflexivity].
  exfalso. apply (H "."%char); [now left|reflexivity].
Qed.

Lemma rfind_dot_app (base e : string) :
  dotless e ->
  Py.rfind_dot (base ++ String "."%char e) = Some (String.length base).
Proof.
  intros He. induction base as [|c base IH].
  - cbn. now rewrite (rfind_dot_dotless e He).
  - cbn. now rewrite IH.
Qed.

Lemma take_app (base rest : string) : Py.take (String.length base) (base ++ rest) = base.
Proof.
  unfold Py.take. induction base as [|c base IH]; cbn.
  - now destruct rest.
  - now rewrite IH.
Qed.

Lemma string_length_app (a b : string) :
  String.length (a ++ b) = (String.length a + String.length b)%nat.
Proof. induction a as [|c a IH]; cbn; [reflexivity|now rewrite IH]. Qed.

Lemma stem_app (base e : string) :
  base <> EmptyString -> e <> EmptyString -> dotless e ->
  PurePath.stem (base ++ String "."%char e) = base.
Proof.
  intros Hb He Hd. unfold PurePath.stem. rewrite (rfind_dot_app base e Hd).
  rewrite string_length_app. cbn [String.length].
  destruct base as [|c base]; [congruence|]. destruct e as [|d e]; [congruence|].
  assert (H : ((0 <? String.length (String c base))%nat
               && (String.length (String c base)
                   <? String.length (String c base) + S (String.length (String d e)) - 1)%nat)
              = true).
  { apply andb_true_iff. split; apply Nat.ltb_lt; cbn; lia. }
  rewrite H. apply take_app.
Qed.

Lemma lower_isspace (c : ascii) : Py.isspace (Py.lower_char c) = Py.isspace c.
Proof. destruct c as [[] [] [] [] [] [] [] []]; reflexivity. Qed.

Lemma upper_isspace (c : ascii) : Py.isspace (Py.upper_char c) = Py.isspace c.
Proof. destruct c as [[] [] [] [] [] [] [] []]; reflexivity. Qed.

Lemma lower_token (w : string) : is_token (Py.lower w) -> is_token w.
Proof.
  intros [Hne Hw]. split.
  - intros ->. now apply Hne.
  - intros c Hc. rewrite <- lower_isspace. apply Hw.
    clear -Hc. induction w as [|a w IH]; cbn in *; [tauto|].
    destruct Hc as [->|Hc]; [now left|right; now apply IH].
Qed.

Lemma last_item_app (xs : list string) (x : string) : Py.last_item (xs ++ [x]) = Some x.
Proof.
  unfold Py.last_item. destruct xs as [|a xs]; [reflexivity|].
  cbn [app]. f_equal. apply last_last.
Qed.

Lemma middle_app (first last_part : string) (ws : list string) :
  Py.middle (first :: ws ++ [last_part]) = ws.
Proof. unfold Py.middle. cbn [tl]. apply removelast_last. Qed.

(** A file named after a subject, [genx] and [self] in any case, single
    blanks, any extension, the whole name being one path component of ASCII
    characters: the subject is read back as it was written. *)
Theorem X_subject_round_trip (first last_part e : string) (ws : list string) :
  plain_name (Py.join " " (first :: ws ++ [last_part]) ++ String "."%char e) ->
  Py.lower first = "genx" -> Py.lower last_part = "self" ->
  ws <> [] -> Forall is_token ws ->
  e <> EmptyString -> dotless e ->
  Subject.extract_name_from_genx_filename
    (Py.join " " (first :: ws ++ [last_part]) ++ String "."%char e)
  = Some (Py.join " " ws).
Proof.
  intros _ Hf Hl Hne Hws He Hd.
  assert (Htf : is_token first).
  { apply lower_token. rewrite Hf. split; [discriminate|].
    intros c Hc. cbn in Hc. repeat (destruct Hc as [<-|Hc]; [reflexivity|]). destruct Hc. }
  assert (Htl : is_token last_part).
  { apply lower_token. rewrite Hl. split; [discriminate|].
    intros c Hc. cbn in Hc. repeat (destruct Hc as [<-|Hc]; [reflexivity|]). destruct Hc. }
  assert (Hall : Forall is_token (first :: ws ++ [last_part])).
  { constructor; [exact Htf|]. apply Forall_app. split; [exact Hws|]. now constructor. }
  apply extract_name_spec. cbv zeta.
  rewrite stem_app; [|now apply join_nonempty|exact He|exact Hd].
  rewrite (split_join _ Hall).
  split; [|split; [|split]].
  - cbn [List.length]. rewrite List.length_app. cbn.
    destruct ws; [congruence|cbn; lia].
  - exists first, (ws ++ [last_part]). now split.
  - exists last_part. split; [|exact Hl].
    change (first :: ws ++ [last_part]) with ((first :: ws) ++ [last_part]).
    apply last_item_app.
  - now rewrite middle_app.
Qed.

Lemma X_subject_round_trip_witness :
  Subject.extract_name_from_genx_filename "GenX Ana Maria O'Neil SELF.jpeg"
  = Some "Ana Maria O'Neil".
Proof.
  apply (X_subject_round_trip "GenX" "SELF" "jpeg" ["Ana"; "Maria"; "O'Neil"]).
  - intros c Hc. cbn in Hc.
    repeat (destruct Hc as [<-|Hc]; [repeat split; discriminate|]). destruct Hc.
  - reflexivity.
  - reflexivity.
  - discriminate.
  - repeat constructor; try discriminate;
      intros c Hc; cbn in Hc;
      repeat (destruct Hc as [<-|Hc]; [reflexivity|]); destruct Hc.
  - discriminate.
  - intros c Hc. cbn in Hc.
    repeat (destruct Hc as [<-|Hc]; [discriminate|]). destruct Hc.
Defined.

(** ** The duplicate guard: what of the name matters *)

Lemma all_parts_in_tokens (parts1 parts2 : list string) (video : FS.path) :
  (forall t, In t (map Py.upper parts1) <-> In t (map Py.upper parts2)) ->
  DuplicateGuard.all_parts_in parts1 video = DuplicateGuard.all_parts_in parts2 video.
Proof.
  intros H. unfold DuplicateGuard.all_parts_in.
  set (video_name := Py.upper (PurePath.stem (FS.name video))).
  assert (Hone : forall a b : list string,
            (forall t, In t (map Py.upper a) -> In t (map Py.upper b)) ->
            forallb (fun part => Py.contains (Py.upper part) video_name) b = true ->
            forallb (fun part => Py.contains (Py.upper part) video_name) a = true).
  { intros a b Hab Hb. apply forallb_forall. intros part Hpart.
    assert (Hin : In (Py.upper part) (map Py.upper b)) by (apply Hab; now apply in_map).
    apply in_map_iff in Hin. destruct Hin as (part' & Heq & Hin').
    rewrite <- Heq. rewrite forallb_forall in Hb. now apply Hb. }
  destruct (forallb (fun part => Py.contains (Py.upper part) video_name) parts2) eqn:H2.
  - apply (Hone parts1 parts2); [intros t; apply H|exact H2].
  - destruct (forallb (fun part => Py.contains (Py.upper part) video_name) parts1) eqn:H1;
      [|reflexivity].
    rewrite <- H2. symmetry. apply (Hone parts2 parts1); [intros t; apply H|exact H1].
Qed.

Lemma scan_tokens (parts1 parts2 : list string) (videos : list FS.path) :
  (forall t, In t (map Py.upper parts1) <-> In t (map Py.upper parts2)) ->
  DuplicateGuard.scan parts1 videos = DuplicateGuard.scan parts2 videos.
Proof.
  intros H. induction videos as [|v videos IH]; [reflexivity|].
  cbn [DuplicateGuard.scan]. rewrite (all_parts_in_tokens parts1 parts2 v H), IH. reflexivity.
Qed.

Lemma check_tokens (env : Env) (fs : FS.t) (name1 name2 : string) (root : FS.path) :
  (forall t, In t (map Py.upper (Py.split name1)) <-> In t (map Py.upper (Py.split name2))) ->
  DuplicateGuard.check_existing_videos_seen env fs name1 root
  = DuplicateGuard.check_existing_videos_seen env fs name2 root.
Proof.
  intros H. unfold DuplicateGuard.check_existing_videos_seen.
  destruct (negb (FS.exists_ fs root)); [reflexivity|]. now apply scan_tokens.
Qed.

Lemma split_map (f : ascii -> ascii) (s : string) :
  (forall c, Py.isspace (f c) = Py.isspace c) ->
  Py.split (Py.map_string f s) = map (Py.map_string f) (Py.split s).
Proof.
  intros Hf. induction s as [|c s IH]; [reflexivity|].
  cbn [Py.map_string]. rewrite !split_cons, Hf.
  destruct (Py.isspace c); [exact IH|].
  destruct s as [|c' s']; [reflexivity|].
  cbn [Py.map_string] in *. rewrite Hf.
  destruct (Py.isspace c'); [now rewrite IH|].
  rewrite IH. destruct (Py.split (String c' s')); reflexivity.
Qed.

Lemma upper_upper (s : string) : Py.upper (Py.upper s) = Py.upper s.
Proof.
  unfold Py.upper. induction s as [|c s IH]; [reflexivity|].
  cbn [Py.map_string]. rewrite IH. f_equal.
  destruct c as [[] [] [] [] [] [] [] []]; reflexivity.
Qed.

Lemma upper_lower (s : string) : Py.upper (Py.lower s) = Py.upper s.
Proof.
  unfold Py.upper, Py.lower. induction s as [|c s IH]; [reflexivity|].
  cbn [Py.map_string]. rewrite IH. f_equal.
  destruct c as [[] [] [] [] [] [] [] []]; reflexivity.
Qed.

(** The verdict of the duplicate guard, and the files it looks at,
    depend on the name only through the set of its tokens in upper case:
    neither the order of its tokens, nor a repeated token, nor the white
    space between tokens matters; and for a name of ASCII characters the
    case of the name does not matter either. *)
Theorem X_duplicate_guard_reads_token_set
    (env : Env) (fs : FS.t) (name1 name2 : string) (root : FS.path) :
  ((forall t, In t (map Py.upper (Py.split name1)) <-> In t (map Py.upper (Py.split name2))) ->
   DuplicateGuard.check_existing_videos_seen env fs name1 root
   = DuplicateGuard.check_existing_videos_seen env fs name2 root) /\
  (ascii_only name1 ->
   DuplicateGuard.check_existing_videos env fs (Py.upper name1) root
   = DuplicateGuard.check_existing_videos env fs name1 root /\
   DuplicateGuard.check_existing_videos env fs (Py.lower name1) root
   = DuplicateGuard.check_existing_videos env fs name1 root).
Proof.
  split; [apply check_tokens|]. intros _.
  unfold DuplicateGuard.check_existing_videos. split; f_equal.
  - apply check_tokens. intros t. unfold Py.upper at 2.
    rewrite (split_map Py.upper_char name1 upper_isspace), map_map.
    fold Py.upper. rewrite (map_ext _ _ upper_upper). reflexivity.
  - apply check_tokens. intros t. unfold Py.lower.
    rewrite (split_map Py.lower_char name1 lower_isspace), map_map.
    fold Py.lower. rewrite (map_ext _ _ upper_lower). reflexivity.
Qed.

Lemma X_duplicate_guard_reads_token_set_witness :
  DuplicateGuard.check_existing_videos_seen Sample.env
    [([], FS.Dir); (["downloads"], FS.Dir);
     (["downloads"; "jane_doe_final.mp4"], FS.File true (FS.Raw "b"))]
    "jane  DOE" ["downloads"]
  = DuplicateGuard.check_existing_videos_seen Sample.env
      [([], FS.Dir); (["downloads"], FS.Dir);
       (["downloads"; "jane_doe_final.mp4"], FS.File true (FS.Raw "b"))]
      "Doe Jane doe" ["downloads"] /\
  DuplicateGuard.check_existing_videos Sample.env
    [([], FS.Dir); (["downloads"], FS.Dir);
     (["downloads"; "jane_doe_final.mp4"], FS.File true (FS.Raw "b"))]
    (Py.lower "Jane DOE") ["downloads"]
  = DuplicateGuard.check_existing_videos Sample.env
      [([], FS.Dir); (["downloads"], FS.Dir);
       (["downloads"; "jane_doe_final.mp4"], FS.File true (FS.Raw "b"))]
      "Jane DOE" ["downloads"].
Proof.
  split.
  - apply (proj1 (X_duplicate_guard_reads_token_set Sample.env _ "jane  DOE" "Doe Jane doe"
                    ["downloads"])).
    intros t. vm_compute. tauto.
  - apply (proj2 (X_duplicate_guard_reads_token_set Sample.env _ "Jane DOE" "" ["downloads"])).
    intros c Hc. cbn in Hc.
    repeat (destruct Hc as [<-|Hc]; [reflexivity|]). destruct Hc.
Defined.

(** ** The duplicate guard on a name without tokens *)

(** For a name that is empty or blank, every video counts as a
    duplicate: the guard answers true exactly when the folder exists and
    holds a video at all, and it looks at the first video only. *)
Theorem X_duplicate_guard_blank_name
    (env : Env) (fs : FS.t) (name : string) (root : FS.path) :
  Py.split name = [] ->
  (DuplicateGuard.check_existing_videos env fs name root = true <->
   FS.exists_ fs root = true /\ exists video, Claimed.video_file env fs root video) /\
  (FS.exists_ fs root = true ->
   DuplicateGuard.check_existing_videos_seen env fs name root =
   match DuplicateGuard.candidates env fs root with
   | [] => (false, [])
   | video :: _ => (true, [video])
   end).
Proof.
  intros Hname. unfold DuplicateGuard.check_existing_videos,
    DuplicateGuard.check_existing_videos_seen. rewrite Hname.
  assert (Hscan : forall videos,
            DuplicateGuard.scan [] videos =
            match videos with [] => (false, []) | video :: _ => (true, [video]) end).
  { intros [|v videos]; reflexivity. }
  split.
  - destruct (FS.exists_ fs root); cbn [negb].
    + rewrite Hscan. split.
      * intros H. split; [reflexivity|].
        destruct (DuplicateGuard.candidates env fs root) as [|v videos] eqn:Hc; [discriminate|].
        exists v. apply candidates_spec. rewrite Hc. now left.
      * intros [_ (v & Hv)]. apply candidates_spec in Hv.
        destruct (DuplicateGuard.candidates env fs root); [destruct Hv|reflexivity].
    + split; [discriminate|]. intros [H _]. discriminate.
  - intros ->. cbn [negb]. apply Hscan.
Qed.

Lemma X_duplicate_guard_blank_name_witness :
  DuplicateGuard.check_existing_videos_seen Sample.env
    [([], FS.Dir); (["downloads"], FS.Dir);
     (["downloads"; "john_smith.mp4"], FS.File true (FS.Raw "a"));
     (["downloads"; "other.mov"], FS.File true (FS.Raw "b"))]
    "   " ["downloads"]
  = (true, [["downloads"; "john_smith.mp4"]]).
Proof.
  apply (proj2 (X_duplicate_guard_blank_name Sample.env
                  [([], FS.Dir); (["downloads"], FS.Dir);
                   (["downloads"; "john_smith.mp4"], FS.File true (FS.Raw "a"));
                   (["downloads"; "other.mov"], FS.File true (FS.Raw "b"))]
                  "   " ["downloads"] eq_refl)).
  reflexivity.
Defined.

(** ** The order of strings *)

Lemma ascii_compare_refl (a : ascii) : Ascii.compare a a = Eq.
Proof. unfold Ascii.compare. apply N.compare_refl. Qed.

Lemma ascii_compare_lt_trans (a b c : ascii) :
  Ascii.compare a b = Lt -> Ascii.compare b c = Lt -> Ascii.compare a c = Lt.
Proof.
  unfold Ascii.compare. rewrite !N.compare_lt_iff. apply N.lt_trans.
Qed.

Lemma string_compare_refl (s : string) : String.compare s s = Eq.
Proof.
  induction s as [|c s IH]; [reflexivity|]. cbn. now rewrite ascii_compare_refl.
Qed.

Lemma string_leb_refl (s : string) : String.leb s s = true.
Proof. unfold String.leb. now rewrite string_compare_refl. Qed.

Lemma string_leb_trans (a b c : string) :
  String.leb a b = true -> String.leb b c = true -> String.leb a c = true.
Proof.
  unfold String.leb. revert b c. induction a as [|x a IH]; intros b c Hab Hbc.
  - destruct c; reflexivity.
  - destruct b as [|y b]; [discriminate|]. destruct c as [|z c]; [discriminate|].
    cbn in *.
    destruct (Ascii.compare x y) eqn:Hxy; try discriminate.
    + apply Ascii.compare_eq_iff in Hxy. subst y.
      destruct (Ascii.compare x z) eqn:Hxz; try assumption; try reflexivity.
      now apply (IH b c).
    + destruct (Ascii.compare y z) eqn:Hyz; try discriminate.
      * apply Ascii.compare_eq_iff in Hyz. subst z. now rewrite Hxy.
      * now rewrite (ascii_compare_lt_trans x y z Hxy Hyz).
Qed.

(** ** The folders in alphabetical order *)

Lemma insert_sorted_perm (x : FS.path) (l : list FS.path) :
  Permutation (Scanner.insert_sorted x l) (x :: l).
Proof.
  induction l as [|y l IH]; [reflexivity|]. cbn [Scanner.insert_sorted].
  destruct (String.leb (Scanner.sort_key y) (Scanner.sort_key x)); [|reflexivity].
  rewrite IH. apply perm_swap.
Qed.

Lemma sort_folders_perm (l acc : list FS.path) :
  Permutation (fold_left (fun acc x => Scanner.insert_sorted x acc) l acc) (acc ++ l).
Proof.
  revert acc. induction l as [|x l IH]; intros acc; cbn [fold_left].
  - now rewrite app_nil_r.
  - rewrite IH, insert_sorted_perm. now rewrite <- Permutation_middle.
Qed.

Lemma insert_sorted_sorted (x : FS.path) (l : list FS.path) :
  StronglySorted key_le l -> StronglySorted key_le (Scanner.insert_sorted x l).
Proof.
  induction 1 as [|y l Hl IH Hy]; cbn [Scanner.insert_sorted].
  - repeat constructor.
  - destruct (String.leb (Scanner.sort_key y) (Scanner.sort_key x)) eqn:Hyx.
    + constructor; [exact IH|].
      apply (Permutation_Forall (Permutation_sym (insert_sorted_perm x l))).
      constructor; [exact Hyx|exact Hy].
    + assert (Hxy : key_le x y).
      { destruct (String.leb_total (Scanner.sort_key x) (Scanner.sort_key y)) as [H|H];
          [exact H|congruence]. }
      constructor; [now constructor|]. constructor; [exact Hxy|].
      revert Hy. apply Forall_impl. intros z Hz.
      now apply (string_leb_trans _ (Scanner.sort_key y)).
Qed.

Lemma sort_folders_sorted (l acc : list FS.path) :
  StronglySorted key_le acc ->
  StronglySorted key_le (fold_left (fun acc x => Scanner.insert_sorted x acc) l acc).
Proof.
  revert acc. induction l as [|x l IH]; intros acc Hacc; cbn [fold_left]; [exact Hacc|].
  apply IH. now apply insert_sorted_sorted.
Qed.

Lemma insert_sorted_stable (k : string) (x : FS.path) (l : list FS.path) :
  StronglySorted key_le l ->
  filter (has_key k) (Scanner.insert_sorted x l)
  = filter (has_key k) l ++ (if has_key k x then [x] else []).
Proof.
  induction 1 as [|y l Hl IH Hy]; cbn [Scanner.insert_sorted].
  - cbn. now destruct (has_key k x).
  - destruct (String.leb (Scanner.sort_key y) (Scanner.sort_key x)) eqn:Hyx.
    + cbn [filter]. rewrite IH. now destruct (has_key k y).
    + destruct (has_key k x) eqn:Hkx.
      * assert (Hnone : filter (has_key k) (y :: l) = []).
        { apply String.eqb_eq in Hkx.
          assert (Hall : Forall (fun z => has_key k z = false) (y :: l)).
          { constructor.
            - unfold has_key. apply String.eqb_neq. intros Heq.
              rewrite Heq, <- Hkx, string_leb_refl in Hyx. discriminate.
            - revert Hy. apply Forall_impl. intros z Hz.
              unfold has_key. apply String.eqb_neq. intros Heq.
              unfold key_le in Hz. rewrite Heq, <- Hkx in Hz. congruence. }
          clear -Hall. induction Hall as [|z r Hz _ IHr]; [reflexivity|].
          cbn [filter]. now rewrite Hz. }
        cbn [filter] in *. rewrite Hkx, Hnone. reflexivity.
      * cbn [filter]. rewrite Hkx, app_nil_r. reflexivity.
Qed.

Lemma sort_folders_stable (k : string) (l acc : list FS.path) :
  StronglySorted key_le acc ->
  filter (has_key k) (fold_left (fun acc x => Scanner.insert_sorted x acc) l acc)
  = filter (has_key k) acc ++ filter (has_key k) l.
Proof.
  revert acc. induction l as [|x l IH]; intros acc Hacc; cbn [fold_left].
  - now rewrite app_nil_r.
  - rewrite IH by now apply insert_sorted_sorted.
    rewrite insert_sorted_stable by exact Hacc. rewrite <- app_assoc. f_equal.
    cbn [filter]. now destruct (has_key k x).
Qed.

(** [get_all_folders] returns the sub-directories of the root, each as
    often as the root lists it, in the order of their upper-cased names;
    folders whose names differ by case only keep the order in which the
    root lists them. A missing root gives the empty list. *)
Theorem X_get_all_folders_sorted (fs : FS.t) (root_directory : FS.path) :
  (FS.is_dir fs root_directory = true ->
   let folders := Scanner.get_all_folders fs root_directory in
   let subdirs := filter (FS.is_dir fs) (FS.iterdir fs root_directory) in
   Permutation folders subdirs /\
   StronglySorted key_le folders /\
   forall k, filter (has_key k) folders = filter (has_key k) subdirs) /\
  (FS.exists_ fs root_directory = false -> Scanner.get_all_folders fs root_directory = []).
Proof.
  unfold Scanner.get_all_folders, Scanner.sort_folders. split.
  - intros Hdir.
    assert (Hex : FS.exists_ fs root_directory = true).
    { unfold FS.is_dir in Hdir. unfold FS.exists_.
      destruct (FS.lookup root_directory fs); [reflexivity|discriminate]. }
    rewrite Hex. cbn [negb]. cbv zeta. split; [|split].
    + apply (sort_folders_perm _ []).
    + apply sort_folders_sorted. constructor.
    + intros k. apply (sort_folders_stable k _ []). constructor.
  - intros ->. reflexivity.
Qed.

Lemma X_get_all_folders_sorted_witness :
  Scanner.get_all_folders Worlds.mixed_case ["root"]
    = [["root"; "Alpha"]; ["root"; "ALPHA"]; ["root"; "alpha"]; ["root"; "beta"]] /\
  StronglySorted key_le (Scanner.get_all_folders Worlds.mixed_case ["root"]) /\
  Scanner.get_all_folders Worlds.mixed_case ["missing"] = [].
Proof.
  split; [reflexivity|]. split.
  - apply (proj1 (X_get_all_folders_sorted Worlds.mixed_case ["root"]) eq_refl).
  - apply (proj2 (X_get_all_folders_sorted Worlds.mixed_case ["missing"]) eq_refl).
Defined.

(** ** The request body *)

(** The request body, layer by layer: the six entries that are always
    there, then what each [if] of lines 472-496 adds. *)
Lemma build_payload_layers (config : Dict.t) (character reference : data_uri)
    (target_ratio : Ratio.t) :
  Client.build_payload config character reference target_ratio =
  [ ("character", VDict [("type", VStr "image"); ("uri", VUri character)]);
    ("reference", VDict [("type", VStr "video"); ("uri", VUri reference)]);
    ("bodyControl", Dict.get "body_control" (VBool false) config);
    ("expressionIntensity", Dict.get "expression_intensity" (VFloat 1) config);
    ("model", Dict.get "model_version" (VStr "act_two") config);
    ("ratio", VStr (Ratio.api_value target_ratio)) ]
  ++ (if truthy (Dict.get "body_control" (VBool false) config)
      then [ ("motionStrength", Dict.get "motion_strength" (VFloat 1) config);
             ("stabilization", Dict.get "stabilization" (VBool true) config);
             ("preservePose", Dict.get "preserve_pose" (VBool false) config);
             ("motionSmoothing", Dict.get "motion_smoothing" (VFloat 0.5) config) ]
      else [])
  ++ (if truthy (Dict.get "quality" VNone config)
      then [("quality", Dict.get "quality" (VStr "standard") config)] else [])
  ++ (match Dict.get "seed" VNone config with
      | VNone => []
      | seed => [("seed", seed)]
      end)
  ++ (if truthy (Dict.get "prompt" VNone config)
      then [("prompt", Dict.get "prompt" VNone config)] else [])
  ++ (if truthy (Dict.get "negative_prompt" VNone config)
      then [("negativePrompt", Dict.get "negative_prompt" VNone config)] else []).
Proof.
  unfold Client.build_payload, Dict.set.
  generalize (Dict.get "quality" (VStr "standard") config).
  generalize (Dict.get "motion_strength" (VFloat 1) config).
  generalize (Dict.get "stabilization" (VBool true) config).
  generalize (Dict.get "preserve_pose" (VBool false) config).
  generalize (Dict.get "motion_smoothing" (VFloat 0.5) config).
  generalize (Dict.get "expression_intensity" (VFloat 1) config).
  generalize (Dict.get "model_version" (VStr "act_two") config).
  generalize (Dict.get "body_control" (VBool false) config).
  generalize (Dict.get "quality" VNone config).
  generalize (Dict.get "seed" VNone config).
  generalize (Dict.get "prompt" VNone config).
  generalize (Dict.get "negative_prompt" VNone config).
  intros negative_prompt prompt seed quality body_control model_version
         expression_intensity motion_smoothing preserve_pose stabilization
         motion_strength quality_value.
  destruct (truthy body_control), (truthy quality), (truthy prompt), (truthy negative_prompt).
  all: destruct seed.
  all: reflexivity.
Qed.

(** The request body holds every key once. It always carries the two
    media, the model and the ratio of the profile; the four motion
    settings are sent exactly when body control is on; a seed is sent
    whenever it is not [None], also when it is 0; quality and the two
    prompts are sent only when they are not empty. *)
Theorem X_payload_fields (config : Dict.t) (character reference : data_uri)
    (target_ratio : Ratio.t) :
  let payload := Client.build_payload config character reference target_ratio in
  let body_control := truthy (Dict.get "body_control" (VBool false) config) in
  distinct (map fst payload) = true /\
  Dict.lookup "character" payload
    = Some (VDict [("type", VStr "image"); ("uri", VUri character)]) /\
  Dict.lookup "reference" payload
    = Some (VDict [("type", VStr "video"); ("uri", VUri reference)]) /\
  Dict.lookup "ratio" payload = Some (VStr (Ratio.api_value target_ratio)) /\
  Dict.lookup "model" payload = Some (Dict.get "model_version" (VStr "act_two") config) /\
  Dict.lookup "expressionIntensity" payload
    = Some (Dict.get "expression_intensity" (VFloat 1) config) /\
  Dict.lookup "motionStrength" payload
    = (if body_control then Some (Dict.get "motion_strength" (VFloat 1) config) else None) /\
  Dict.lookup "stabilization" payload
    = (if body_control then Some (Dict.get "stabilization" (VBool true) config) else None) /\
  Dict.lookup "preservePose" payload
    = (if body_control then Some (Dict.get "preserve_pose" (VBool false) config) else None) /\
  Dict.lookup "motionSmoothing" payload
    = (if body_control then Some (Dict.get "motion_smoothing" (VFloat 0.5) config) else None) /\
  Dict.lookup "seed" payload
    = (match Dict.get "seed" VNone config with VNone => None | seed => Some seed end) /\
  Dict.lookup "quality" payload
    = (if truthy (Dict.get "quality" VNone config)
       then Some (Dict.get "quality" (VStr "standard") config) else None) /\
  Dict.lookup "prompt" payload
    = (if truthy (Dict.get "prompt" VNone config)
       then Some (Dict.get "prompt" VNone config) else None) /\
  Dict.lookup "negativePrompt" payload
    = (if truthy (Dict.get "negative_prompt" VNone config)
       then Some (Dict.get "negative_prompt" VNone config) else None).
Proof.
  cbv zeta. rewrite build_payload_layers.
  generalize (Dict.get "quality" (VStr "standard") config).
  generalize (Dict.get "motion_strength" (VFloat 1) config).
  generalize (Dict.get "stabilization" (VBool true) config).
  generalize (Dict.get "preserve_pose" (VBool false) config).
  generalize (Dict.get "motion_smoothing" (VFloat 0.5) config).
  generalize (Dict.get "expression_intensity" (VFloat 1) config).
  generalize (Dict.get "model_version" (VStr "act_two") config).
  generalize (Dict.get "body_control" (VBool false) config).
  generalize (Dict.get "quality" VNone config).
  generalize (Dict.get "seed" VNone config).
  generalize (Dict.get "prompt" VNone config).
  generalize (Dict.get "negative_prompt" VNone config).
  intros negative_prompt prompt seed quality body_control model_version
         expression_intensity motion_smoothing preserve_pose stabilization
         motion_strength quality_value.
  destruct (truthy body_control), (truthy quality), (truthy prompt), (truthy negative_prompt).
  all: destruct seed.
  all: repeat split.
  all: reflexivity.
Qed.

Lemma payload_ratio (config : Dict.t) (character reference : data_uri)
    (target_ratio : Ratio.t) :
  Dict.lookup "ratio" (Client.build_payload config character reference target_ratio)
  = Some (VStr (Ratio.api_value target_ratio)).
Proof. rewrite build_payload_layers. reflexivity. Qed.

Lemma payload_reference (config : Dict.t) (character reference : data_uri)
    (target_ratio : Ratio.t) :
  Dict.lookup "reference" (Client.build_payload config character reference target_ratio)
  = Some (VDict [("type", VStr "video"); ("uri", VUri reference)]).
Proof. rewrite build_payload_layers. reflexivity. Qed.

Lemma payload_character (config : Dict.t) (character reference : data_uri)
    (target_ratio : Ratio.t) :
  Dict.lookup "character" (Client.build_payload config character reference target_ratio)
  = Some (VDict [("type", VStr "image"); ("uri", VUri character)]).
Proof. rewrite build_payload_layers. reflexivity. Qed.

(** ** The resized image is sent as a JPEG *)

Lemma string_app_assoc (a b c : string) : ((a ++ b) ++ c = a ++ b ++ c)%string.
Proof. induction a as [|x a IH]; cbn; [reflexivity|now rewrite IH]. Qed.

Lemma substring_all (s : string) : substring 0 (String.length s) s = s.
Proof. induction s as [|c s IH]; cbn; [reflexivity|now rewrite IH]. Qed.

Lemma drop_app (base rest : string) : Py.drop (String.length base) (base ++ rest) = rest.
Proof.
  unfold Py.drop. rewrite string_length_app.
  replace (String.length base + String.length rest - String.length base)%nat
    with (String.length rest) by lia.
  induction base as [|c base IH]; cbn [String.length append substring].
  - apply substring_all.
  - exact IH.
Qed.

Lemma suffix_app (base e : string) :
  base <> EmptyString -> e <> EmptyString -> dotless e ->
  PurePath.suffix (base ++ String "."%char e) = String "."%char e.
Proof.
  intros Hb He Hd. unfold PurePath.suffix. rewrite (rfind_dot_app base e Hd).
  rewrite string_length_app. cbn [String.length].
  destruct base as [|c base]; [congruence|]. destruct e as [|d e]; [congruence|].
  assert (H1 : (0 <? String.length (String c base))%nat = true)
    by (apply Nat.ltb_lt; cbn; lia).
  assert (H2 : (String.length (String c base)
                <? String.length (String c base) + S (String.length (String d e)) - 1)%nat
               = true) by (apply Nat.ltb_lt; cbn; lia).
  rewrite H1, H2. cbn [andb]. apply drop_app.
Qed.

Lemma name_last (folder : FS.path) (name : string) : FS.name (folder ++ [name]) = name.
Proof. unfold FS.name. apply last_last. Qed.

(** When resizing succeeds, the file that is encoded next is the one that
    was just written. *)
Lemma resized_image_encoded
    (env : Env) (fs fs2 : FS.t) (image_path resized_path : FS.path)
    (target_ratio : Ratio.t) (temp_folder : string) (resized_img : Image.t) :
  Transform.resize_attempt env fs image_path target_ratio temp_folder
    = (fs2, Some (resized_path, resized_img)) ->
  Encode.encode_image_to_data_uri fs2 resized_path
    = Some (DataUri "image/jpeg" (FS.Jpeg 95 resized_img)).
Proof.
  unfold Transform.resize_attempt.
  destruct (FS.mkdir fs _) as [fs1|]; [|discriminate].
  destruct (pil_open env fs1 image_path) as [img0|]; [|discriminate].
  destruct (Image.size _) as [original_width original_height].
  destruct (Transform.crop_box _ _ _) as [box|]; [|discriminate].
  destruct (Transform.crop box _) as [cropped_img|]; [|discriminate].
  destruct (Transform.resize _ _ _) as [img|]; [|discriminate].
  destruct (Ratio.name target_ratio) as [n|]; [|discriminate].
  destruct (FS.write fs1 _ _) as [fs'|] eqn:Hwrite; [|discriminate].
  intros H. injection H as <- <- <-.
  apply write_read in Hwrite as [Hread _].
  2:{ intros Hnil. apply app_eq_nil in Hnil as [_ Hnil]. discriminate Hnil. }
  unfold Encode.encode_image_to_data_uri. cbn [append] in Hread |- *.
  rewrite Hread, name_last.
  replace (PurePath.stem (FS.name image_path) ++ String "_" (Py.replace_char ":" "x" n ++ ".jpg"))%string
    with ((PurePath.stem (FS.name image_path) ++ String "_" (Py.replace_char ":" "x" n))
          ++ String "."%char "jpg")%string
    by (now rewrite string_app_assoc).
  rewrite suffix_app; [reflexivity| |discriminate|].
  - destruct (PurePath.stem (FS.name image_path)); discriminate.
  - intros c Hc. cbn in Hc. intros ->. repeat destruct Hc as [Hc|Hc]; try discriminate Hc; auto.
Qed.

(** When resizing succeeds, the generation encodes the file that was
    just written and submits it: the request carries the resized image,
    saved as JPEG at quality 95 and labelled [image/jpeg] whatever the type
    and the name of the original image, and it is the only request of the
    generation. *)
Theorem X_resized_image_is_submitted
    (env : Env) (character_image_path output_folder : FS.path) (config : Dict.t)
    (st st0 : State) (reference : data_uri) (target_ratio : Ratio.t) (ratio_name : string)
    (fs2 : FS.t) (resized_path : FS.path) (resized_img : Image.t) :
  Client.prepare_driver env st = (st0, inr reference) ->
  Client.resolve_ratio env (fs st0) config character_image_path = Some target_ratio ->
  Ratio.name target_ratio = Some ratio_name ->
  Transform.resize_attempt env (fs st0) character_image_path target_ratio "temp_resized"
    = (fs2, Some (resized_path, resized_img)) ->
  Encode.encode_image_to_data_uri fs2 resized_path
    = Some (DataUri "image/jpeg" (FS.Jpeg 95 resized_img)) /\
  exists st' o rest,
    Client.create_act_two_generation env character_image_path output_folder config st
      = (st', o) /\
    trace st' =
      trace st
      ++ Post (Client.build_payload config (DataUri "image/jpeg" (FS.Jpeg 95 resized_img))
                 reference target_ratio) :: rest /\
    Trace.posted rest = [].
Proof.
  intros Hprep Hratio Hname Hresized.
  pose proof (resized_image_encoded _ _ _ _ _ _ _ _ Hresized) as Hencode.
  split; [exact Hencode|].
  unfold Client.create_act_two_generation.
  rewrite Hprep, Hratio, Hname. unfold Transform.resize_image_smart.
  rewrite Hresized, Hencode.
  apply prepare_driver_trace in Hprep.
  set (payload := Client.build_payload config _ reference target_ratio).
  destruct (Client.submit env payload (with_fs fs2 st0)) as [st2 [why|task_id]] eqn:Hsub;
    apply submit_trace in Hsub as [Hsub _]; rewrite trace_with_fs, Hprep in Hsub.
  - exists st2, (Client.Failed why), []. auto.
  - destruct (Client.poll env _ task_id st2 0) as [st' o] eqn:Hpoll.
    apply (poll_rounds env _ task_id 60 0) in Hpoll; [|reflexivity].
    destruct Hpoll as (j & tail & _ & Htr & Htail & _).
    destruct (rounds_client j task_id tail Htail) as [_ Hposted].
    exists st', o, (Trace.rounds j task_id ++ tail).
    split; [reflexivity|]. split; [|exact Hposted].
    rewrite Htr, Hsub, <- app_assoc. reflexivity.
Qed.

Lemma X_resized_image_is_submitted_witness :
  exists resized_img st' o rest,
    Client.create_act_two_generation Sample.env ["root"; "b"; "genx JOHN SMITH self.jpg"]
      ["out"] [] Sample.start = (st', o) /\
    trace st' =
      trace Sample.start
      ++ Post (Client.build_payload [] (DataUri "image/jpeg" (FS.Jpeg 95 resized_img))
                 (DataUri "video/mp4" (FS.Raw "driver-bytes"))
                 (Ratio.named "3:4" (Ratio.mk None "832:1104" 832 1104 (3 / 4)%float)))
         :: rest /\
    Trace.posted rest = [].
Proof.
  edestruct (X_resized_image_is_submitted Sample.env
               ["root"; "b"; "genx JOHN SMITH self.jpg"] ["out"] [] Sample.start)
    as [_ (st' & o & rest & Hrun & Htr & Hposted)].
  - vm_compute. reflexivity.
  - vm_compute. reflexivity.
  - vm_compute. reflexivity.
  - vm_compute. reflexivity.
  - eexists _, st', o, rest. split; [exact Hrun|]. split; [exact Htr|exact Hposted].
Defined.

(** ** The ratio of an image that cannot be measured *)

(** In smart mode an image that PIL cannot open, or whose height is 0,
    is given the aspect 1.0 and the size 0 x 0 by
    [analyze_image_aspect_ratio], so the square profile is requested for
    it. *)
Theorem X_unmeasurable_image_gets_square
    (env : Env) (fs : FS.t) (config : Dict.t) (image_path : FS.path) :
  is_str "smart" (Dict.get "aspect_ratio_mode" (VStr "smart") config) = true ->
  match pil_open env fs image_path with
  | Some img => snd (Image.size img) = 0%Z
  | None => True
  end ->
  Transform.analyze_image_aspect_ratio env fs image_path = (1%float, 0%Z, 0%Z) /\
  Client.resolve_ratio env fs config image_path
    = Some (Ratio.named "1:1" (Ratio.mk None "960:960" 960 960 1%float)).
Proof.
  intros Hsmart Himg.
  assert (Hanalyze : Transform.analyze_image_aspect_ratio env fs image_path
                     = (1%float, 0%Z, 0%Z)).
  { unfold Transform.analyze_image_aspect_ratio.
    destruct (pil_open env fs image_path) as [img|]; [|reflexivity].
    destruct (Image.size img) as [width height]. cbn [snd] in Himg. subst height.
    reflexivity. }
  split; [exact Hanalyze|].
  unfold Client.resolve_ratio. rewrite Hsmart, Hanalyze. vm_compute. reflexivity.
Qed.

Lemma X_unmeasurable_image_gets_square_witness :
  Transform.analyze_image_aspect_ratio Sample.env (fs Sample.corrupt) Sample.jane
    = (1%float, 0%Z, 0%Z) /\
  Client.resolve_ratio Sample.env (fs Sample.corrupt) [] Sample.jane
    = Some (Ratio.named "1:1" (Ratio.mk None "960:960" 960 960 1%float)).
Proof.
  apply (X_unmeasurable_image_gets_square Sample.env (fs Sample.corrupt) [] Sample.jane).
  - reflexivity.
  - vm_compute. exact I.
Defined.

(** ** A generation that saves a video *)

Lemma select_loop_catalog (x : float) (items : list (string * Ratio.t)) :
  forall acc : option Ratio.t * float,
    (forall r, fst acc = Some r ->
               exists key cfg, In (key, cfg) Ratio.AVAILABLE_RATIOS /\ r = Ratio.named key cfg) ->
    (forall entry, In entry items -> In entry Ratio.AVAILABLE_RATIOS) ->
    forall r, fst (Ratio.select_loop x items acc) = Some r ->
              exists key cfg, In (key, cfg) Ratio.AVAILABLE_RATIOS /\ r = Ratio.named key cfg.
Proof.
  unfold Ratio.select_loop.
  induction items as [|[key cfg] items IH]; intros acc Hacc Hitems; cbn [fold_left].
  - exact Hacc.
  - apply IH.
    + unfold Ratio.select_step. cbn [fst snd].
      destruct (PrimFloat.ltb _ _); [|exact Hacc].
      cbn [fst]. intros r H. injection H as <-. exists key, cfg.
      split; [apply Hitems; now left|reflexivity].
    + intros entry Hin. apply Hitems. now right.
Qed.

(** Whatever the aspect, [select_best_ratio] answers with an entry of the
    catalog under its own name, when it answers. *)
Lemma select_best_ratio_catalog (x : float) (r : Ratio.t) :
  Ratio.select_best_ratio x = Some r ->
  exists key cfg, In (key, cfg) Ratio.AVAILABLE_RATIOS /\ r = Ratio.named key cfg.
Proof.
  unfold Ratio.select_best_ratio.
  apply (select_loop_catalog x Ratio.AVAILABLE_RATIOS (None, infinity)).
  - cbn [fst]. discriminate.
  - auto.
Qed.

Lemma resolve_ratio_named (env : Env) (fs : FS.t) (config : Dict.t)
    (character_image_path : FS.path) (r : Ratio.t) (ratio_name : string) :
  Client.resolve_ratio env fs config character_image_path = Some r ->
  Ratio.name r = Some ratio_name ->
  is_str "smart" (Dict.get "aspect_ratio_mode" (VStr "smart") config) = true /\
  exists cfg, In (ratio_name, cfg) Ratio.AVAILABLE_RATIOS /\ r = Ratio.named ratio_name cfg.
Proof.
  intros Hr Hname.
  destruct (is_str "smart" (Dict.get "aspect_ratio_mode" (VStr "smart") config)) eqn:Hmode.
  - split; [reflexivity|]. unfold Client.resolve_ratio in Hr. rewrite Hmode in Hr.
    destruct (Transform.analyze_image_aspect_ratio env fs character_image_path)
      as [[image_aspect w] h].
    apply select_best_ratio_catalog in Hr as (key & cfg & Hin & ->).
    cbn [Ratio.name Ratio.named] in Hname. injection Hname as <-. eauto.
  - apply resolve_ratio_fixed in Hr; [congruence|exact Hmode].
Qed.

(** What was submitted by a generation that saved a video. *)
Lemma create_saved_posted (env : Env) (character_image_path output_folder : FS.path)
    (config : Dict.t) (st st' : State) (p : FS.path) :
  Client.create_act_two_generation env character_image_path output_folder config st
    = (st', Client.Saved p) ->
  exists st0 reference target_ratio uri rest,
    Client.prepare_driver env st = (st0, inr reference) /\
    Client.resolve_ratio env (fs st0) config character_image_path = Some target_ratio /\
    trace st' = trace st ++ Post (Client.build_payload config uri reference target_ratio) :: rest /\
    Trace.posted rest = [].
Proof.
  unfold Client.create_act_two_generation.
  destruct (Client.prepare_driver env st) as [st0 [why|reference]] eqn:Hprep; [discriminate|].
  destruct (Client.resolve_ratio _ _ _ _) as [target_ratio|] eqn:Hratio; [|discriminate].
  destruct (Ratio.name target_ratio) as [ratio_name|] eqn:Hname; [|discriminate].
  destruct (Transform.resize_image_smart _ _ _ _ _) as [fs1 resized_image_path].
  destruct (Encode.encode_image_to_data_uri fs1 resized_image_path) as [uri|]; [|discriminate].
  destruct (Client.submit env _ (with_fs fs1 st0)) as [st2 [why|task_id]] eqn:Hsub;
    [discriminate|].
  apply submit_trace in Hsub as [Hsub _]. rewrite trace_with_fs in Hsub.
  rewrite (prepare_driver_trace _ _ _ _ Hprep) in Hsub.
  intros Hpoll.
  apply (poll_rounds env _ task_id 60 0) in Hpoll; [|reflexivity].
  destruct Hpoll as (j & tail & _ & Htr & Htail & _).
  destruct (rounds_client j task_id tail Htail) as [_ Hposted].
  exists st0, reference, target_ratio, uri, (Trace.rounds j task_id ++ tail).
  split; [reflexivity|]. split; [exact Hratio|]. split; [|exact Hposted].
  rewrite Htr, Hsub, <- app_assoc. reflexivity.
Qed.

(** A generation that returns a path ran in smart mode, for a profile of
    the catalog: the path is [output_file] of the output folder, the image
    and the name of that profile; exactly one request was submitted,
    whose [ratio] is the API value of the same profile; the file at the path
    holds the body of a download, and the output folder is a directory. *)
Theorem X_saved_video_matches_request
    (env : Env) (character_image_path output_folder : FS.path)
    (config : Dict.t) (st st' : State) (p : FS.path) :
  Client.create_act_two_generation env character_image_path output_folder config st
    = (st', Client.Saved p) ->
  is_str "smart" (Dict.get "aspect_ratio_mode" (VStr "smart") config) = true /\
  exists key cfg payload rest,
    In (key, cfg) Ratio.AVAILABLE_RATIOS /\
    p = Client.output_file output_folder character_image_path key /\
    trace st' = trace st ++ Post payload :: rest /\
    Trace.posted rest = [] /\
    Dict.lookup "ratio" payload = Some (VStr (Ratio.api_value cfg)) /\
    (exists url video_response,
       http_download env url = Some video_response /\
       FS.read (fs st') p = Some (FS.Raw (content video_response))) /\
    FS.is_dir (fs st') output_folder = true.
Proof.
  intros Hrun.
  destruct (create_saved _ _ _ _ _ _ _ Hrun)
    as (st0 & reference & target_ratio & ratio_name & Hprep & Hratio & Hname & Hp & Hfile & Hdir).
  destruct (create_saved_posted _ _ _ _ _ _ _ Hrun)
    as (st0' & reference' & target_ratio' & uri & rest & Hprep' & Hratio' & Htr & Hposted).
  rewrite Hprep in Hprep'. injection Hprep' as <- <-.
  rewrite Hratio in Hratio'. injection Hratio' as <-.
  destruct (resolve_ratio_named _ _ _ _ _ _ Hratio Hname) as (Hsmart & cfg & Hin & ->).
  split; [exact Hsmart|].
  exists ratio_name, cfg, (Client.build_payload config uri reference (Ratio.named ratio_name cfg)),
    rest.
  split; [exact Hin|]. split; [exact Hp|]. split; [exact Htr|]. split; [exact Hposted|].
  split; [rewrite payload_ratio; reflexivity|]. split; [exact Hfile|exact Hdir].
Qed.

Lemma X_saved_video_matches_request_witness :
  exists key cfg payload rest,
    In (key, cfg) Ratio.AVAILABLE_RATIOS /\
    ["out"; "genx JANE DOE self_act_two_16x9.mp4"] = Client.output_file ["out"] Sample.jane key /\
    trace (fst (Client.create_act_two_generation Sample.env Sample.jane ["out"] [] Sample.start))
      = trace Sample.start ++ Post payload :: rest /\
    Dict.lookup "ratio" payload = Some (VStr (Ratio.api_value cfg)).
Proof.
  destruct (X_saved_video_matches_request Sample.env Sample.jane ["out"] [] Sample.start
              (fst (Client.create_act_two_generation Sample.env Sample.jane ["out"] []
                      Sample.start))
              ["out"; "genx JANE DOE self_act_two_16x9.mp4"])
    as (_ & key & cfg & payload & rest & Hin & Hp & Htr & _ & Hratio & _).
  - vm_compute. reflexivity.
  - exists key, cfg, payload, rest. auto.
Defined.

(** ** A task that succeeds *)

Lemma check_status_pending (env : Env) (output_path : FS.path) (task_id : value)
    (w : Z) (st : State) :
  Claimed.pending (http_task env task_id w) ->
  Client.check_status env output_path task_id w st = (emit (GetTask task_id) st, None).
Proof.
  intros (resp & status_data & Hresp & Hcode & Hjson & Hs & Hf).
  unfold Client.check_status. rewrite Hresp, Hcode, Hjson, Hs, Hf. reflexivity.
Qed.

(** Checks that find the task pending only lengthen the trace. *)
Lemma poll_skip_pending (env : Env) (output_path : FS.path) (task_id : value) :
  forall (j : nat) (w : Z) (st : State),
    (w + 10 * Z.of_nat j <= Client.max_wait)%Z ->
    (forall i : Z, (1 <= i <= Z.of_nat j)%Z ->
                   Claimed.pending (http_task env task_id (w + 10 * i)%Z)) ->
    Client.poll env output_path task_id st w =
    Client.poll env output_path task_id
      {| fs := fs st; driver_video_data_uri := driver_video_data_uri st;
         trace := trace st ++ Trace.rounds j task_id |}
      (w + 10 * Z.of_nat j).
Proof.
  induction j as [|j IH]; intros w st Hw Hpending.
  - cbn [Trace.rounds]. rewrite app_nil_r. replace (w + 10 * Z.of_nat 0)%Z with w by lia.
    now destruct st.
  - rewrite poll_body.
    assert (Hlt : (w <? Client.max_wait)%Z = true) by (apply Z.ltb_lt; lia).
    rewrite Hlt, check_status_pending
      by (replace (w + 10)%Z with (w + 10 * 1)%Z by lia; apply Hpending; lia).
    rewrite IH.
    + replace (w + 10 + 10 * Z.of_nat j)%Z with (w + 10 * Z.of_nat (S j))%Z by lia.
      f_equal. unfold sleep, emit. cbn [fs driver_video_data_uri trace Trace.rounds].
      f_equal. rewrite <- !app_assoc. reflexivity.
    + lia.
    + intros i Hi. replace (w + 10 + 10 * i)%Z with (w + 10 * (i + 1))%Z by lia.
      apply Hpending. lia.
Qed.

(** When the task is pending at the first [k - 1] checks and has
    succeeded at the [k]-th, one of the 60 that the loop makes, with a
    non-empty URL as its first output, and the download answers 200, then
    the generation client returns the output path after exactly [k] turns
    and one download, provided the parent folders can be made and the file
    written; the file then holds the body of the download. *)
Theorem X_poll_saves_at_first_success
    (env : Env) (output_path : FS.path) (task_id : value) (st : State) (k : nat)
    (status_response video_response : response) (status_data : Dict.t)
    (url : string) (more : list value) (fs1 fs2 : FS.t) :
  (1 <= k <= 60)%nat ->
  (forall i : Z, (1 <= i < Z.of_nat k)%Z ->
                 Claimed.pending (http_task env task_id (10 * i)%Z)) ->
  http_task env task_id (10 * Z.of_nat k)%Z = Some status_response ->
  status_code status_response = 200%Z ->
  json status_response = Some (VDict status_data) ->
  Dict.lookup "status" status_data = Some (VStr "SUCCEEDED") ->
  Dict.lookup "output" status_data = Some (VList (VStr url :: more)) ->
  url <> EmptyString ->
  http_download env url = Some video_response ->
  status_code video_response = 200%Z ->
  FS.mkdir_parents (fs st) (FS.parent output_path) = Some fs1 ->
  FS.write fs1 output_path (FS.Raw (content video_response)) = Some fs2 ->
  Client.poll env output_path task_id st 0 =
  ({| fs := fs2; driver_video_data_uri := driver_video_data_uri st;
      trace := trace st ++ Trace.rounds k task_id ++ [Download url] |},
   Client.Saved output_path).
Proof.
  intros Hk Hpending Htask Hcode Hjson Hstatus Houtput Hurl Hget Hvideo Hmk Hwrite.
  destruct k as [|j]; [lia|].
  rewrite (poll_skip_pending env output_path task_id j 0 st).
  2:{ unfold Client.max_wait. lia. }
  2:{ intros i Hi. cbn [Z.add]. apply Hpending. lia. }
  rewrite poll_body.
  assert (Hlt : (0 + 10 * Z.of_nat j <? Client.max_wait)%Z = true)
    by (apply Z.ltb_lt; unfold Client.max_wait; lia).
  rewrite Hlt.
  replace (0 + 10 * Z.of_nat j + 10)%Z with (10 * Z.of_nat (S j))%Z by lia.
  unfold Client.check_status. rewrite Htask, Hcode, Hjson. cbn [Z.eqb Pos.eqb negb].
  unfold Dict.get at 1. rewrite Hstatus. cbn [is_str]. rewrite String.eqb_refl.
  unfold Client.fetch_video, Client.first_output, Dict.get. rewrite Houtput.
  cbn [truthy]. destruct (String.eqb_spec url EmptyString) as [Heq|_]; [contradiction|].
  cbn [negb]. rewrite Hget, Hvideo. cbn [Z.eqb Pos.eqb].
  unfold sleep, emit. cbn [fs driver_video_data_uri trace]. rewrite Hmk, Hwrite.
  unfold with_fs. cbn [fs driver_video_data_uri trace]. f_equal. f_equal.
  rewrite <- !app_assoc. cbn [Trace.rounds app].
  f_equal. clear. induction j as [|j IH]; [reflexivity|].
  cbn [Trace.rounds app]. now rewrite IH.
Qed.

Lemma X_poll_saves_at_first_success_witness :
  exists fs2,
    Client.poll Sample.env ["out"; "clips"; "video.mp4"] (VStr "task-1") Sample.start 0 =
    ({| fs := fs2; driver_video_data_uri := None;
        trace := Trace.rounds 1 (VStr "task-1") ++ [Download "https://cdn/video"] |},
     Client.Saved ["out"; "clips"; "video.mp4"]).
Proof.
  eexists.
  apply (X_poll_saves_at_first_success Sample.env ["out"; "clips"; "video.mp4"] (VStr "task-1")
           Sample.start 1
           (Sample.ok_json [("status", VStr "SUCCEEDED");
                            ("output", VList [VStr "https://cdn/video"])])
           {| status_code := 200; text := ""; json := None; content := "mp4-bytes" |}
           [("status", VStr "SUCCEEDED"); ("output", VList [VStr "https://cdn/video"])]
           "https://cdn/video" []
           (FS.put ["out"; "clips"] FS.Dir Sample.disk)).
  - lia.
  - intros i Hi. cbn in Hi. lia.
  - reflexivity.
  - reflexivity.
  - reflexivity.
  - reflexivity.
  - reflexivity.
  - discriminate.
  - reflexivity.
  - reflexivity.
  - vm_compute. reflexivity.
  - vm_compute. reflexivity.
Defined.

(** ** Smart mode always finds a ratio *)

(** The aspect of an image of at least 1 x 1 pixels is a finite float. *)
Lemma aspect_finite (W H : Z) :
  (1 <= W < 2 ^ 51)%Z -> (1 <= H < 2 ^ 51)%Z ->
  Num.is_finite (PrimFloat.div (Num.of_int W) (Num.of_int H)) = true.
Proof.
  intros HW HH.
  destruct (of_int_exact W) as (mw & ew & HfW & HvW & HbW & HdW);
    [split; [lia|]; eapply Z.lt_trans; [apply HW | reflexivity]|].
  destruct (of_int_exact H) as (mh & eh & HfH & HvH & HbH & HdH);
    [split; [lia|]; eapply Z.lt_trans; [apply HH | reflexivity]|].
  assert (Hew := int_exponent_range W mw ew HW HvW HdW).
  assert (Heh := int_exponent_range H mh eh HH HvH HdH).
  assert (HWr : (1 <= IZR W)%R) by (apply IZR_le; lia).
  assert (HHr : (1 <= IZR H)%R) by (apply IZR_le; lia).
  assert (HWb : (IZR W <= IZR (2 ^ 52))%R) by (apply IZR_le; lia).
  assert (Hq : (F2R (Zpos mw) ew / F2R (Zpos mh) eh <= F2R (Zpos 4503599627370496) 0)%R).
  { rewrite HvW, HvH. unfold F2R, bpow. cbn [powerRZ]. rewrite Rmult_1_r.
    change (Z.pos 4503599627370496) with (2 ^ 52)%Z.
    apply Rle_trans with (IZR W); [|exact HWb].
    apply Rmult_le_reg_r with (IZR H); [lra|].
    unfold Rdiv. rewrite Rmult_assoc, Rinv_l by lra. nra. }
  pose proof (div_le _ _ mw mh ew eh HfW HfH HdW HdH ltac:(lia) 4503599627370496 0
                ltac:(vm_compute; reflexivity) Hq) as Hd.
  unfold Num.is_finite.
  destruct Hd as [->|(m' & e' & -> & _)]; reflexivity.
Qed.

(** For a finite aspect the selector answers, with an entry of the
    catalog under its own name. *)
Lemma select_best_ratio_total (image_aspect : float) :
  Num.is_finite image_aspect = true ->
  exists key cfg,
    In (key, cfg) Ratio.AVAILABLE_RATIOS /\
    Ratio.select_best_ratio image_aspect = Some (Ratio.named key cfg).
Proof.
  intros Hfin.
  assert (Hgood : forall entry, In entry Ratio.AVAILABLE_RATIOS ->
                    nonneg_finite (Ratio.difference image_aspect (snd entry))).
  { intros [k c] Hin. now apply (difference_nonneg_finite image_aspect k c). }
  pose proof (select_loop_invariant image_aspect Ratio.AVAILABLE_RATIOS Hgood) as Hinv.
  change (match Ratio.AVAILABLE_RATIOS with [] => _ | _ :: _ => ?P end) with P in Hinv.
  destruct Hinv as (before & key & cfg & after & Heq & Hsel & _).
  exists key, cfg. split.
  - rewrite Heq. apply in_or_app. right. now left.
  - unfold Ratio.select_best_ratio. now rewrite Hsel.
Qed.

(** In smart mode every image that PIL opens, of at least 1 x 1 pixels
    (and of sides below 2^51), is given a profile: its aspect is computed
    from its size without overflow, the selector answers with an entry of
    the catalog under its name, and the generation does not stop for want
    of a ratio or of the name of one. *)
Theorem X_smart_mode_finds_ratio
    (env : Env) (fs : FS.t) (config : Dict.t) (image_path : FS.path)
    (img : Image.t) (W H : Z) :
  is_str "smart" (Dict.get "aspect_ratio_mode" (VStr "smart") config) = true ->
  pil_open env fs image_path = Some img ->
  Image.size img = (W, H) ->
  (1 <= W < 2 ^ 51)%Z -> (1 <= H < 2 ^ 51)%Z ->
  Transform.analyze_image_aspect_ratio env fs image_path
    = (PrimFloat.div (Num.of_int W) (Num.of_int H), W, H) /\
  exists key cfg,
    In (key, cfg) Ratio.AVAILABLE_RATIOS /\
    Client.resolve_ratio env fs config image_path = Some (Ratio.named key cfg) /\
    Ratio.name (Ratio.named key cfg) = Some key.
Proof.
  intros Hsmart Hopen Hsize HW HH.
  assert (Hanalyze : Transform.analyze_image_aspect_ratio env fs image_path
                     = (PrimFloat.div (Num.of_int W) (Num.of_int H), W, H)).
  { unfold Transform.analyze_image_aspect_ratio, Num.true_div. rewrite Hopen, Hsize.
    assert (HH0 : (H =? 0)%Z = false) by (apply Z.eqb_neq; lia). now rewrite HH0. }
  split; [exact Hanalyze|].
  destruct (select_best_ratio_total _ (aspect_finite W H HW HH)) as (key & cfg & Hin & Hsel).
  exists key, cfg. split; [exact Hin|]. split; [|reflexivity].
  unfold Client.resolve_ratio. now rewrite Hsmart, Hanalyze.
Qed.

Lemma X_smart_mode_finds_ratio_witness :
  exists key cfg,
    In (key, cfg) Ratio.AVAILABLE_RATIOS /\
    Client.resolve_ratio Sample.env Sample.disk [] ["root"; "b"; "genx JOHN SMITH self.jpg"]
      = Some (Ratio.named key cfg) /\
    Ratio.name (Ratio.named key cfg) = Some key.
Proof.
  apply (X_smart_mode_finds_ratio Sample.env Sample.disk []
           ["root"; "b"; "genx JOHN SMITH self.jpg"]
           (Image.Decoded "john-bytes" "RGBA" 600 800) 600 800).
  - reflexivity.
  - reflexivity.
  - reflexivity.
  - split; [lia|reflexivity].
  - split; [lia|reflexivity].
Defined.

(** ** What the reason of a failure tells about the requests made *)

Lemma fetch_video_failed (env : Env) (output_path : FS.path) (status_data : Dict.t)
    (st st' : State) (why : Client.failure) :
  Client.fetch_video env output_path status_data st = (st', Client.Failed why) ->
  match why with
  | Client.NoVideoUrl => trace st' = trace st
  | Client.DownloadFailed => exists url, trace st' = trace st ++ [Download url]
  | Client.Exception => True
  | _ => False
  end.
Proof.
  unfold Client.fetch_video.
  destruct (Client.first_output status_data) as [video_url|];
    [|intros H; injection H as <- <-; exact I].
  destruct (truthy video_url); [|intros H; injection H as <- <-; reflexivity].
  destruct video_url; try (intros H; injection H as <- <-; exact I).
  destruct (http_download env s) as [video_response|];
    [|intros H; injection H as <- <-; exact I].
  destruct (status_code video_response =? 200)%Z;
    [|intros H; injection H as <- <-; now exists s].
  destruct (FS.mkdir_parents _ _) as [fs1|]; [|intros H; injection H as <- <-; exact I].
  destruct (FS.write fs1 output_path _) as [fs2|]; [discriminate|].
  intros H; injection H as <- <-; exact I.
Qed.

Lemma check_status_failed (env : Env) (output_path : FS.path) (task_id : value)
    (w : Z) (st st' : State) (why : Client.failure) :
  Client.check_status env output_path task_id w st = (st', Some (Client.Failed why)) ->
  match why with
  | Client.StatusCheckFailed | Client.TaskFailed | Client.NoVideoUrl =>
      trace st' = trace st ++ [GetTask task_id]
  | Client.DownloadFailed =>
      exists url, trace st' = trace st ++ [GetTask task_id; Download url]
  | Client.Exception => True
  | _ => False
  end.
Proof.
  unfold Client.check_status.
  destruct (http_task env task_id w) as [resp|];
    [|intros H; injection H as <- <-; exact I].
  destruct (negb _); [intros H; injection H as <- <-; reflexivity|].
  destruct (json resp) as [[| | | | | | |status_data]|];
    try (intros H; injection H as <- <-; exact I).
  destruct (is_str "SUCCEEDED" _).
  - destruct (Client.fetch_video env output_path status_data _) as [st2 o] eqn:Hfetch.
    intros H; injection H as <- ->. apply fetch_video_failed in Hfetch.
    rewrite trace_emit in Hfetch.
    destruct why; try exact Hfetch; try (now destruct Hfetch).
    destruct Hfetch as (url & ->). exists url. now rewrite <- app_assoc.
  - destruct (is_str "FAILED" _); [|discriminate].
    intros H; injection H as <- <-. reflexivity.
Qed.

Lemma poll_failed (env : Env) (output_path : FS.path) (task_id : value) :
  forall (k : nat) (w : Z) (st st' : State) (why : Client.failure),
    w = (Client.max_wait - 10 * Z.of_nat k)%Z ->
    Client.poll env output_path task_id st w = (st', Client.Failed why) ->
    match why with
    | Client.TimedOut => trace st' = trace st ++ Trace.rounds k task_id
    | Client.StatusCheckFailed | Client.TaskFailed | Client.NoVideoUrl =>
        exists j, (1 <= j <= k)%nat /\ trace st' = trace st ++ Trace.rounds j task_id
    | Client.DownloadFailed =>
        exists j url, (1 <= j <= k)%nat /\
                      trace st' = trace st ++ Trace.rounds j task_id ++ [Download url]
    | Client.Exception => True
    | _ => False
    end.
Proof.
  induction k as [|k IH]; intros w st st' why Hw; rewrite poll_body.
  - assert (Hlt : (w <? Client.max_wait)%Z = false) by (apply Z.ltb_ge; lia).
    rewrite Hlt. intros H; injection H as <- <-. cbn. now rewrite app_nil_r.
  - assert (Hlt : (w <? Client.max_wait)%Z = true) by (apply Z.ltb_lt; lia).
    rewrite Hlt.
    destruct (Client.check_status env output_path task_id (w + 10) (sleep 10 st))
      as [st1 [o1|]] eqn:Hcheck.
    + intros H; injection H as <- ->.
      pose proof (check_status_trace _ _ _ _ _ _ _ Hcheck) as (Hno & _).
      apply check_status_failed in Hcheck.
      unfold sleep, emit in Hcheck. cbn [trace] in Hcheck.
      destruct why; try exact Hcheck; try (now destruct Hno);
        try (exists 1%nat; split; [lia|]; rewrite Hcheck, <- app_assoc; reflexivity).
      destruct Hcheck as (url & Htr). exists 1%nat, url. split; [lia|].
      rewrite Htr, <- app_assoc. reflexivity.
    + intros Hpoll. apply check_status_trace in Hcheck as [Htr _].
      unfold sleep in Htr. rewrite trace_emit, <- app_assoc in Htr.
      apply IH in Hpoll; [|lia].
      destruct why; try exact Hpoll.
      * destruct Hpoll as (j & Hj & Hpoll). exists (S j). split; [lia|].
        rewrite Hpoll, Htr, <- app_assoc. reflexivity.
      * destruct Hpoll as (j & url & Hj & Hpoll). exists (S j), url. split; [lia|].
        rewrite Hpoll, Htr, <- app_assoc. reflexivity.
      * destruct Hpoll as (j & Hj & Hpoll). exists (S j). split; [lia|].
        rewrite Hpoll, Htr, <- app_assoc. reflexivity.
      * destruct Hpoll as (j & Hj & Hpoll). exists (S j). split; [lia|].
        rewrite Hpoll, Htr, <- app_assoc. reflexivity.
      * rewrite Hpoll, Htr, <- app_assoc. reflexivity.
Qed.

Lemma prepare_driver_failed (env : Env) (st st0 : State) (why : Client.failure) :
  Client.prepare_driver env st = (st0, inl why) ->
  why = Client.DriverVideoNotFound \/ why = Client.DriverEncodeFailed.
Proof.
  unfold Client.prepare_driver.
  destruct (negb _); [intros H; injection H as <- <-; now left|].
  destruct (driver_video_data_uri st); [discriminate|].
  destruct (Encode.encode_video_to_data_uri _ _); [discriminate|].
  intros H; injection H as <- <-. now right.
Qed.

Lemma submit_failed (env : Env) (payload : Dict.t) (st st2 : State) (why : Client.failure) :
  Client.submit env payload st = (st2, inl why) ->
  why = Client.TaskCreationFailed \/ why = Client.Exception.
Proof.
  unfold Client.submit.
  destruct (http_post env payload) as [resp|];
    [|intros H; injection H as <- <-; now right].
  destruct (negb _); [intros H; injection H as <- <-; now left|].
  destruct (json resp) as [[| | | | | | |task_data]|];
    try (intros H; injection H as <- <-; now right).
  destruct (Dict.lookup "id" task_data); [discriminate|].
  intros H; injection H as <- <-; now right.
Qed.

(** The reason for which a generation failed tells which requests were
    made. Nothing was requested when the driver video was missing or could
    not be encoded, or when the image could not be encoded. A rejected
    submission is the only request of its generation. A time-out comes after
    the submission and exactly 60 turns of sleeping ten seconds and checking
    the status; a failed status check, a failed task and a success without
    a URL come after 1 to 60 turns and no download; a failed download comes
    after 1 to 60 turns and that one download. *)
Theorem X_failure_reason_tells_requests
    (env : Env) (character_image_path output_folder : FS.path) (config : Dict.t)
    (st st' : State) (why : Client.failure) :
  Client.create_act_two_generation env character_image_path output_folder config st
    = (st', Client.Failed why) ->
  match why with
  | Client.DriverVideoNotFound | Client.DriverEncodeFailed | Client.ImageEncodeFailed =>
      trace st' = trace st
  | Client.TaskCreationFailed =>
      exists payload, trace st' = trace st ++ [Post payload]
  | Client.TimedOut =>
      exists payload task_id,
        trace st' = trace st ++ Post payload :: Trace.rounds 60 task_id
  | Client.StatusCheckFailed | Client.TaskFailed | Client.NoVideoUrl =>
      exists payload task_id j,
        (1 <= j <= 60)%nat /\
        trace st' = trace st ++ Post payload :: Trace.rounds j task_id
  | Client.DownloadFailed =>
      exists payload task_id j url,
        (1 <= j <= 60)%nat /\
        trace st' = trace st ++ Post payload :: Trace.rounds j task_id ++ [Download url]
  | Client.Exception => True
  end.
Proof.
  unfold Client.create_act_two_generation.
  destruct (Client.prepare_driver env st) as [st0 [why0|reference]] eqn:Hprep;
    pose proof (prepare_driver_trace _ _ _ _ Hprep) as Htr0.
  { intros H; injection H as <- <-.
    apply prepare_driver_failed in Hprep as [->| ->]; exact Htr0. }
  destruct (Client.resolve_ratio _ _ _ _) as [target_ratio|];
    [|intros H; injection H as <- <-; exact I].
  destruct (Ratio.name target_ratio) as [ratio_name|];
    [|intros H; injection H as <- <-; exact I].
  destruct (Transform.resize_image_smart _ _ _ _ _) as [fs1 resized_image_path].
  destruct (Encode.encode_image_to_data_uri fs1 resized_image_path) as [uri|];
    [|intros H; injection H as <- <-; rewrite trace_with_fs; exact Htr0].
  destruct (Client.submit env _ (with_fs fs1 st0)) as [st2 [why2|task_id]] eqn:Hsub;
    pose proof (submit_trace _ _ _ _ _ Hsub) as [Htr2 _];
    rewrite trace_with_fs, Htr0 in Htr2.
  { intros H; injection H as <- <-.
    apply submit_failed in Hsub as [->| ->]; [eauto|exact I]. }
  intros Hpoll. apply (poll_failed env _ task_id 60 0) in Hpoll; [|reflexivity].
  destruct why; try exact Hpoll; try (now destruct Hpoll).
  - destruct Hpoll as (j & Hj & Hpoll). eexists _, task_id, j. split; [exact Hj|].
    rewrite Hpoll, Htr2, <- app_assoc. reflexivity.
  - destruct Hpoll as (j & url & Hj & Hpoll). eexists _, task_id, j, url. split; [exact Hj|].
    rewrite Hpoll, Htr2, <- app_assoc. reflexivity.
  - destruct Hpoll as (j & Hj & Hpoll). eexists _, task_id, j. split; [exact Hj|].
    rewrite Hpoll, Htr2, <- app_assoc. reflexivity.
  - destruct Hpoll as (j & Hj & Hpoll). eexists _, task_id, j. split; [exact Hj|].
    rewrite Hpoll, Htr2, <- app_assoc. reflexivity.
  - eexists _, task_id. rewrite Hpoll, Htr2, <- app_assoc. reflexivity.
Qed.

Lemma X_failure_reason_tells_requests_witness :
  exists payload task_id,
    trace (fst (Client.create_act_two_generation Sample.env_running Sample.jane ["out"] []
                  Sample.start))
    = trace Sample.start ++ Post payload :: Trace.rounds 60 task_id.
Proof.
  apply (X_failure_reason_tells_requests Sample.env_running Sample.jane ["out"] [] Sample.start
           (fst (Client.create_act_two_generation Sample.env_running Sample.jane ["out"] []
                   Sample.start))
           Client.TimedOut).
  vm_compute. reflexivity.
Defined.

(** ** The pauses of one folder *)



(** ** What the summary counts as skipped *)

(** What the loop of [get_genx_image_files] keeps: the image files that
    match the pattern, but for those already generated. *)
Lemma keeps_split (env : Env) (fs : FS.t) (search_pattern : string) (exact_match : bool)
    (f : FS.path) :
  Scanner.keeps env fs search_pattern exact_match f
  = Scanner.is_image_file fs f
    && PatternMatcher.generator_matches (FS.name f) search_pattern exact_match
    && negb (Terms.already_generated env fs f).
Proof.
  unfold Scanner.keeps, Terms.already_generated.
  destruct (Scanner.is_image_file fs f); [|reflexivity].
  destruct (PatternMatcher.generator_matches _ _ _); [|reflexivity]. cbn [andb].
  destruct (Subject.extract_name_from_genx_filename (FS.name f)) as [person_name|] eqn:Hname;
    [|reflexivity].
  apply subject_nonempty in Hname.
  destruct (String.eqb_spec person_name EmptyString); [contradiction|reflexivity].
Qed.

Lemma keeps_is_genx_image (env : Env) (fs : FS.t) (f : FS.path) :
  Scanner.keeps env fs "genx" false f
  = Terms.is_genx_image fs f && negb (Terms.already_generated env fs f).
Proof.
  rewrite keeps_split. f_equal.
  unfold Scanner.is_image_file, Terms.is_genx_image, PatternMatcher.generator_matches.
  change (Py.lower "genx") with "genx".
  destruct (FS.is_file fs f); [|reflexivity]. cbn [andb]. apply andb_comm.
Qed.

Lemma filter_split_length {A : Type} (p q : A -> bool) (l : list A) :
  (List.length (filter (fun x => p x && negb (q x)) l)
   + List.length (filter (fun x => p x && q x) l)
   = List.length (filter p l))%nat.
Proof.
  induction l as [|x l IH]; [reflexivity|]. cbn [filter].
  destruct (p x), (q x); cbn [andb negb List.length]; lia.
Qed.

(** For a folder that exists, the summary grows by the images of the
    folder that carry ['genx'], split in two: [skipped_duplicates] by those
    that name a subject for whom the duplicate guard finds a video,
    [total_images] by all the others, which are the ones processed. A file
    without a subject is never counted as skipped. *)
Theorem X_skipped_duplicates_counted
    (env : Env) (output_directory : FS.path) (delay : Z) (co_located_output : bool)
    (folder : FS.path) (st st' : State) (s s' : Batch.summary) :
  FS.is_dir (fs st) folder = true ->
  Batch.process_folder env output_directory delay co_located_output (st, s) folder = (st', s') ->
  let entries := FS.iterdir (fs st) folder in
  Batch.skipped_duplicates s' =
    (Batch.skipped_duplicates s
     + Z.of_nat (List.length
         (filter (fun f => Terms.is_genx_image (fs st) f && Terms.already_generated env (fs st) f)
                 entries)))%Z /\
  Batch.total_images s' =
    (Batch.total_images s
     + Z.of_nat (List.length
         (filter (fun f => Terms.is_genx_image (fs st) f
                           && negb (Terms.already_generated env (fs st) f))
                 entries)))%Z.
Proof.
  intros Hdir Hrun entries. unfold Batch.process_folder in Hrun.
  apply process_images_spec in Hrun as (evs & _ & _ & _ & _ & _ & Htot & Hskip & _).
  rewrite Htot, Hskip.
  cbn [Batch.count_folder Batch.total_images Batch.skipped_duplicates].
  assert (Hex : FS.exists_ (fs st) folder = true).
  { unfold FS.is_dir in Hdir. unfold FS.exists_.
    destruct (FS.lookup folder (fs st)); [reflexivity|discriminate]. }
  unfold Scanner.get_genx_image_files. rewrite Hex. cbn [negb].
  rewrite (filter_ext _ _ (keeps_is_genx_image env (fs st))).
  unfold Batch.total_found. fold entries.
  pose proof (filter_split_length (Terms.is_genx_image (fs st))
                (Terms.already_generated env (fs st)) entries) as Hsplit.
  unfold Terms.is_genx_image at 3 in Hsplit.
  split; lia.
Qed.

Lemma X_skipped_duplicates_counted_witness :
  Batch.skipped_duplicates
    (snd (Batch.process_folder Sample.env ["out"] 0 false
            (Worlds.jane_done, Batch.empty_summary) ["root"; "a"])) = 1%Z /\
  Batch.total_images
    (snd (Batch.process_folder Sample.env ["out"] 0 false
            (Worlds.jane_done, Batch.empty_summary) ["root"; "a"])) = 0%Z.
Proof.
  pose proof (X_skipped_duplicates_counted Sample.env ["out"] 0 false ["root"; "a"]
                Worlds.jane_done
                (fst (Batch.process_folder Sample.env ["out"] 0 false
                        (Worlds.jane_done, Batch.empty_summary) ["root"; "a"]))
                Batch.empty_summary
                (snd (Batch.process_folder Sample.env ["out"] 0 false
                        (Worlds.jane_done, Batch.empty_summary) ["root"; "a"]))
                eq_refl (surjective_pairing _)) as H.
  vm_compute in H. vm_compute. exact H.
Defined.

(** ** Where the videos of a batch go *)

Lemma saved_app (a b : list event) : Terms.saved (a ++ b) = Terms.saved a ++ Terms.saved b.
Proof.
  induction a as [|[] a IH]; simpl; rewrite ?IH; reflexivity.
Qed.

Lemma client_events_unsaved (evs : list event) :
  forallb Trace.is_client evs = true -> Terms.saved evs = [].
Proof.
  induction evs as [|[] evs IH]; simpl; intros H; try discriminate H; auto.
Qed.

(** With the configuration of a batch a saved video is named after a profile of the
    catalog. *)
Lemma create_saved_default (env : Env) (image_path output_folder : FS.path)
    (st st' : State) (p : FS.path) :
  Client.create_act_two_generation env image_path output_folder [] st = (st', Client.Saved p) ->
  exists key cfg, In (key, cfg) Ratio.AVAILABLE_RATIOS /\
                  p = Client.output_file output_folder image_path key.
Proof.
  intros Hrun.
  destruct (create_saved _ _ _ _ _ _ _ Hrun)
    as (st0 & reference & target_ratio & ratio_name & _ & Hratio & Hname & Hp & _).
  destruct (resolve_ratio_named _ _ _ _ _ _ Hratio Hname) as (_ & cfg & Hin & _).
  exists ratio_name, cfg. split; [exact Hin|exact Hp].
Qed.

Lemma process_images_saved (env : Env) (output_directory : FS.path) (delay : Z)
    (co_located_output : bool) (n : Z) :
  forall (images : list FS.path) (i : Z) (st st' : State) (s s' : Batch.summary),
    Batch.process_images env output_directory delay co_located_output n i images (st, s)
      = (st', s') ->
    exists evs,
      trace st' = trace st ++ evs /\
      Trace.processed evs = images /\
      Forall (fun p => exists image_path key cfg,
                In image_path images /\ In (key, cfg) Ratio.AVAILABLE_RATIOS /\
                p = Client.output_file
                      (if co_located_output then FS.parent image_path else output_directory)
                      image_path key)
             (Terms.saved evs).
Proof.
  induction images as [|image_path rest IH]; intros i st st' s s'.
  - simpl. intros H; injection H as <- <-. exists []. rewrite app_nil_r.
    repeat split. constructor.
  - rewrite process_images_cons. cbv zeta.
    destruct (Client.create_act_two_generation env image_path _ []
                (emit (Processing image_path) st)) as [st2 o] eqn:Hrun.
    pose proof (create_trace _ _ _ _ _ _ _ Hrun) as (cevs & Htr2 & Hclient & _).
    pose proof (client_events_unsaved _ Hclient) as Hunsaved.
    apply client_events_silent in Hclient as (Hp & _ & _ & _).
    rewrite trace_emit in Htr2. cbn [fst snd].
    intros Hrest. apply IH in Hrest as (evs & Htr & Hproc & Hsaved).
    set (outcome_event := match Client.result o with
                          | Some result => Success result
                          | None => Failure image_path
                          end).
    set (pause := if (i <? n)%Z && (0 <? delay)%Z then [Delay delay] else []).
    exists (Processing image_path :: cevs ++ outcome_event :: pause ++ evs).
    split; [|split].
    + rewrite Htr. subst outcome_event pause.
      destruct (Client.result o); destruct ((i <? n)%Z && (0 <? delay)%Z);
        rewrite ?trace_emit, Htr2, <- ?app_assoc; reflexivity.
    + cbn [Trace.processed]. rewrite processed_app, Hp. cbn [app]. f_equal.
      assert (Hpause : Trace.processed pause = [])
        by (subst pause; now destruct ((i <? n)%Z && (0 <? delay)%Z)).
      subst outcome_event. destruct (Client.result o);
        cbn [Trace.processed]; now rewrite processed_app, Hpause.
    + cbn [Terms.saved]. rewrite saved_app, Hunsaved. cbn [app].
      assert (Hpause : Terms.saved pause = [])
        by (subst pause; now destruct ((i <? n)%Z && (0 <? delay)%Z)).
      assert (Hrest : Forall (fun p => exists image key cfg,
                        In image (image_path :: rest) /\ In (key, cfg) Ratio.AVAILABLE_RATIOS /\
                        p = Client.output_file
                              (if co_located_output then FS.parent image else output_directory)
                              image key)
                      (Terms.saved (pause ++ evs))).
      { rewrite saved_app, Hpause. cbn [app]. revert Hsaved. apply Forall_impl.
        intros p (image & key & cfg & Hin & Hcat & Hpath).
        exists image, key, cfg. split; [now right|]. split; assumption. }
      subst outcome_event. destruct o as [p|why]; cbn [Client.result Terms.saved];
        [|exact Hrest].
      constructor; [|exact Hrest].
      apply create_saved_default in Hrun as (key & cfg & Hcat & Hpath).
      exists image_path, key, cfg. split; [now left|]. split; assumption.
Qed.

Lemma process_folders_saved (env : Env) (output_directory : FS.path) (delay : Z)
    (co_located_output : bool) :
  forall (folders : list FS.path) (st st' : State) (s s' : Batch.summary),
    fold_left (Batch.process_folder env output_directory delay co_located_output)
      folders (st, s) = (st', s') ->
    exists evs,
      trace st' = trace st ++ evs /\
      Forall (fun p => exists image_path key cfg,
                In image_path (Trace.processed evs) /\ In (key, cfg) Ratio.AVAILABLE_RATIOS /\
                p = Client.output_file
                      (if co_located_output then FS.parent image_path else output_directory)
                      image_path key)
             (Terms.saved evs).
Proof.
  induction folders as [|folder rest IH]; intros st st' s s'; cbn [fold_left].
  - intros H; injection H as <- <-. exists []. rewrite app_nil_r. split; [reflexivity|constructor].
  - destruct (Batch.process_folder env output_directory delay co_located_output (st, s) folder)
      as [st1 s1] eqn:Hfolder.
    unfold Batch.process_folder in Hfolder.
    apply process_images_saved in Hfolder as (evs1 & Htr1 & Hproc1 & Hsaved1).
    intros Hrest. apply IH in Hrest as (evs2 & Htr2 & Hsaved2).
    exists (evs1 ++ evs2). split; [rewrite Htr2, Htr1, app_assoc; reflexivity|].
    rewrite saved_app, processed_app. apply Forall_app. split.
    + revert Hsaved1. apply Forall_impl. intros p (image & key & cfg & Hin & Hcat & Hpath).
      exists image, key, cfg. split; [|split; assumption].
      apply in_or_app. left. now rewrite Hproc1.
    + revert Hsaved2. apply Forall_impl. intros p (image & key & cfg & Hin & Hcat & Hpath).
      exists image, key, cfg. split; [|split; assumption].
      apply in_or_app. now right.
Qed.

(** Every video that a batch reports as saved is the output file of an
    image that the batch processed, for a profile of the catalog: it lies in
    the folder of that image when the output is co-located, and in the
    output directory otherwise. *)
Theorem X_batch_output_location
    (env : Env) (target_directory output_directory : FS.path) (delay : Z)
    (co_located_output : bool) (st st' : State) (s : Batch.summary) :
  Batch.process_all_images env target_directory output_directory delay co_located_output st
    = (st', Some s) ->
  exists evs,
    trace st' = trace st ++ evs /\
    Forall (fun p => exists image_path key cfg,
              In image_path (Trace.processed evs) /\ In (key, cfg) Ratio.AVAILABLE_RATIOS /\
              p = Client.output_file
                    (if co_located_output then FS.parent image_path else output_directory)
                    image_path key /\
              FS.parent p = (if co_located_output then FS.parent image_path
                             else output_directory))
           (Terms.saved evs).
Proof.
  unfold Batch.process_all_images. destruct (negb _); [discriminate|].
  destruct (Scanner.get_all_folders (fs st) target_directory) as [|folder rest];
    [discriminate|].
  destruct (fold_left _ (folder :: rest) (st, Batch.empty_summary)) as [st1 s1] eqn:Hfold.
  intros H. injection H as <- <-.
  apply process_folders_saved in Hfold as (evs & Htr & Hsaved).
  exists evs. split; [exact Htr|]. revert Hsaved. apply Forall_impl.
  intros p (image & key & cfg & Hin & Hcat & Hpath).
  exists image, key, cfg. repeat split; try assumption.
  rewrite Hpath. unfold Client.output_file, FS.parent. apply removelast_last.
Qed.

Lemma X_batch_output_location_witness :
  exists evs,
    trace (fst (Batch.process_all_images Sample.env ["root"] ["out"] 0 true Sample.start))
      = trace Sample.start ++ evs /\
    Forall (fun p => exists image_path key cfg,
              In image_path (Trace.processed evs) /\ In (key, cfg) Ratio.AVAILABLE_RATIOS /\
              p = Client.output_file (FS.parent image_path) image_path key /\
              FS.parent p = FS.parent image_path)
           (Terms.saved evs).
Proof.
  apply (X_batch_output_location Sample.env ["root"] ["out"] 0 true Sample.start
           (fst (Batch.process_all_images Sample.env ["root"] ["out"] 0 true Sample.start))
           {| Batch.total_images := 2; Batch.successful_generations := 2;
              Batch.failed_generations := 0; Batch.skipped_duplicates := 0 |}).
  vm_compute. reflexivity.
Defined.

(** ** The driver video is encoded once *)

Lemma posted_app (a b : list event) : Trace.posted (a ++ b) = Trace.posted a ++ Trace.posted b.
Proof.
  induction a as [|[] a IH]; simpl; rewrite ?IH; reflexivity.
Qed.

Lemma fetch_video_driver (env : Env) (output_path : FS.path) (status_data : Dict.t)
    (st st' : State) (o : Client.outcome) :
  Client.fetch_video env output_path status_data st = (st', o) ->
  driver_video_data_uri st' = driver_video_data_uri st.
Proof.
  unfold Client.fetch_video.
  destruct (Client.first_output status_data) as [video_url|];
    [|intros H; injection H as <- <-; reflexivity].
  destruct (truthy video_url); [|intros H; injection H as <- <-; reflexivity].
  destruct video_url; try (intros H; injection H as <- <-; reflexivity).
  destruct (http_download env s) as [video_response|];
    [|intros H; injection H as <- <-; reflexivity].
  destruct (status_code video_response =? 200)%Z;
    [|intros H; injection H as <- <-; reflexivity].
  destruct (FS.mkdir_parents _ _) as [fs1|]; [|intros H; injection H as <- <-; reflexivity].
  destruct (FS.write fs1 output_path _) as [fs2|];
    intros H; injection H as <- <-; reflexivity.
Qed.

Lemma check_status_driver (env : Env) (output_path : FS.path) (task_id : value)
    (w : Z) (st st' : State) (r : option Client.outcome) :
  Client.check_status env output_path task_id w st = (st', r) ->
  driver_video_data_uri st' = driver_video_data_uri st.
Proof.
  unfold Client.check_status.
  destruct (http_task env task_id w) as [resp|];
    [|intros H; injection H as <- <-; reflexivity].
  destruct (negb _); [intros H; injection H as <- <-; reflexivity|].
  destruct (json resp) as [[| | | | | | |status_data]|];
    try (intros H; injection H as <- <-; reflexivity).
  destruct (is_str "SUCCEEDED" _).
  - destruct (Client.fetch_video env output_path status_data _) as [st2 o] eqn:Hfetch.
    intros H; injection H as <- <-. now apply fetch_video_driver in Hfetch.
  - destruct (is_str "FAILED" _); intros H; injection H as <- <-; reflexivity.
Qed.

Lemma poll_driver (env : Env) (output_path : FS.path) (task_id : value) :
  forall (k : nat) (w : Z) (st st' : State) (o : Client.outcome),
    w = (Client.max_wait - 10 * Z.of_nat k)%Z ->
    Client.poll env output_path task_id st w = (st', o) ->
    driver_video_data_uri st' = driver_video_data_uri st.
Proof.
  induction k as [|k IH]; intros w st st' o Hw; rewrite poll_body.
  - assert (Hlt : (w <? Client.max_wait)%Z = false) by (apply Z.ltb_ge; lia).
    rewrite Hlt. intros H; injection H as <- <-. reflexivity.
  - assert (Hlt : (w <? Client.max_wait)%Z = true) by (apply Z.ltb_lt; lia).
    rewrite Hlt.
    destruct (Client.check_status env output_path task_id (w + 10) (sleep 10 st))
      as [st1 [o1|]] eqn:Hcheck; apply check_status_driver in Hcheck.
    + intros H; injection H as <- <-. exact Hcheck.
    + intros Hpoll. apply IH in Hpoll; [|lia]. now rewrite Hpoll, Hcheck.
Qed.

Lemma submit_driver (env : Env) (payload : Dict.t) (st st2 : State)
    (r : Client.failure + value) :
  Client.submit env payload st = (st2, r) ->
  driver_video_data_uri st2 = driver_video_data_uri st.
Proof.
  unfold Client.submit.
  destruct (http_post env payload) as [resp|];
    [|intros H; injection H as <- <-; reflexivity].
  destruct (negb _); [intros H; injection H as <- <-; reflexivity|].
  destruct (json resp) as [[| | | | | | |task_data]|];
    try (intros H; injection H as <- <-; reflexivity).
  destruct (Dict.lookup "id" task_data);
    intros H; injection H as <- <-; reflexivity.
Qed.

(** The driver video is read only while nothing is cached; what is
    handed on is what the cache then holds. *)
Lemma prepare_driver_cache (env : Env) (st st0 : State) (r : Client.failure + data_uri) :
  Client.prepare_driver env st = (st0, r) ->
  (forall u, driver_video_data_uri st = Some u -> driver_video_data_uri st0 = Some u) /\
  (forall u, r = inr u -> driver_video_data_uri st0 = Some u).
Proof.
  unfold Client.prepare_driver.
  destruct (negb _); [intros H; injection H as <- <-; split; [auto|discriminate]|].
  destruct (driver_video_data_uri st) as [u0|] eqn:Hcache.
  - intros H; injection H as <- <-. split; [intros u Hu; congruence|].
    intros u Hu. injection Hu as <-. exact Hcache.
  - destruct (Encode.encode_video_to_data_uri _ _) as [u1|];
      intros H; injection H as <- <-; (split; [discriminate|]).
    + intros u Hu. injection Hu as <-. reflexivity.
    + discriminate.
Qed.

Lemma create_driver (env : Env) (character_image_path output_folder : FS.path)
    (config : Dict.t) (st st' : State) (o : Client.outcome) :
  Client.create_act_two_generation env character_image_path output_folder config st = (st', o) ->
  exists evs,
    trace st' = trace st ++ evs /\
    forallb Trace.is_client evs = true /\
    (forall u, driver_video_data_uri st = Some u -> driver_video_data_uri st' = Some u) /\
    (forall payload, In payload (Trace.posted evs) ->
       exists u, driver_video_data_uri st' = Some u /\
                 Dict.lookup "reference" payload
                 = Some (VDict [("type", VStr "video"); ("uri", VUri u)])).
Proof.
  unfold Client.create_act_two_generation.
  destruct (Client.prepare_driver env st) as [st0 [why|reference]] eqn:Hprep;
    pose proof (prepare_driver_trace _ _ _ _ Hprep) as Htr0;
    apply prepare_driver_cache in Hprep as [Hkeep Hcache].
  { intros H; injection H as <- <-. exists []. rewrite app_nil_r.
    repeat split; auto. intros payload []. }
  specialize (Hcache reference eq_refl).
  destruct (Client.resolve_ratio _ _ _ _) as [target_ratio|];
    [|intros H; injection H as <- <-; exists []; rewrite app_nil_r;
      repeat split; auto; intros payload []].
  destruct (Ratio.name target_ratio) as [ratio_name|];
    [|intros H; injection H as <- <-; exists []; rewrite app_nil_r;
      repeat split; auto; intros payload []].
  destruct (Transform.resize_image_smart _ _ _ _ _) as [fs1 resized_image_path].
  destruct (Encode.encode_image_to_data_uri fs1 resized_image_path) as [uri|];
    [|intros H; injection H as <- <-; exists []; rewrite app_nil_r;
      repeat split; auto; intros payload []].
  destruct (Client.submit env _ (with_fs fs1 st0)) as [st2 [why|task_id]] eqn:Hsub;
    pose proof (submit_driver _ _ _ _ _ Hsub) as Hd2;
    apply submit_trace in Hsub as [Hsub _]; rewrite trace_with_fs, Htr0 in Hsub;
    cbn [with_fs driver_video_data_uri] in Hd2.
  { intros H; injection H as <- <-. eexists. split; [exact Hsub|].
    split; [reflexivity|]. split.
    - intros u Hu. rewrite Hd2. auto.
    - intros payload [<-|[]]. exists reference. split; [congruence|]. apply payload_reference. }
  intros Hpoll.
  pose proof (poll_driver env _ task_id 60 0 _ _ _ eq_refl Hpoll) as Hd3.
  apply (poll_rounds env _ task_id 60 0) in Hpoll; [|reflexivity].
  destruct Hpoll as (j & tail & _ & Htr & Htail & _).
  destruct (rounds_client j task_id tail Htail) as [Hclient Hposted].
  exists (Post (Client.build_payload config uri reference target_ratio)
            :: Trace.rounds j task_id ++ tail).
  split; [rewrite Htr, Hsub, <- app_assoc; reflexivity|].
  split; [exact Hclient|]. split.
  - intros u Hu. rewrite Hd3, Hd2. auto.
  - cbn [Trace.posted]. rewrite Hposted. intros payload [<-|[]].
    exists reference. split; [congruence|]. apply payload_reference.
Qed.

Lemma process_images_driver (env : Env) (output_directory : FS.path) (delay : Z)
    (co_located_output : bool) (n : Z) :
  forall (images : list FS.path) (i : Z) (st st' : State) (s s' : Batch.summary),
    Batch.process_images env output_directory delay co_located_output n i images (st, s)
      = (st', s') ->
    exists evs,
      trace st' = trace st ++ evs /\
      (forall u, driver_video_data_uri st = Some u -> driver_video_data_uri st' = Some u) /\
      (forall payload, In payload (Trace.posted evs) ->
         exists u, driver_video_data_uri st' = Some u /\
                   Dict.lookup "reference" payload
                   = Some (VDict [("type", VStr "video"); ("uri", VUri u)])).
Proof.
  induction images as [|image_path rest IH]; intros i st st' s s'.
  - simpl. intros H; injection H as <- <-. exists []. rewrite app_nil_r.
    repeat split; auto. intros payload [].
  - rewrite process_images_cons. cbv zeta.
    destruct (Client.create_act_two_generation env image_path _ []
                (emit (Processing image_path) st)) as [st2 o] eqn:Hrun.
    apply create_driver in Hrun as (cevs & Htr2 & _ & Hkeep2 & Hposted2).
    rewrite trace_emit in Htr2. cbn [fst snd emit driver_video_data_uri] in *.
    set (logged := match Client.result o with
                   | Some result => emit (Success result) st2
                   | None => emit (Failure image_path) st2
                   end).
    set (paused := if (i <? n)%Z && (0 <? delay)%Z then emit (Delay delay) logged else logged).
    assert (Hsame : driver_video_data_uri paused = driver_video_data_uri st2).
    { subst paused logged.
      destruct ((i <? n)%Z && (0 <? delay)%Z); destruct (Client.result o); reflexivity. }
    assert (Hevs : exists tail, trace paused = trace st2 ++ tail /\ Trace.posted tail = []).
    { subst paused logged.
      destruct ((i <? n)%Z && (0 <? delay)%Z); destruct (Client.result o);
        cbn [emit trace]; rewrite <- ?app_assoc; eexists; split; reflexivity. }
    destruct Hevs as (tail & Htail & Hnone).
    intros Hrest. apply IH in Hrest as (evs & Htr & Hkeep & Hposted).
    exists (Processing image_path :: cevs ++ tail ++ evs).
    split; [|split].
    + rewrite Htr, Htail, Htr2, <- !app_assoc. reflexivity.
    + intros u Hu. apply Hkeep. rewrite Hsame. auto.
    + cbn [Trace.posted]. rewrite !posted_app, Hnone. cbn [app].
      intros payload Hin. apply in_app_or in Hin as [Hin|Hin]; [|auto].
      destruct (Hposted2 payload Hin) as (u & Hu & Href).
      exists u. split; [|exact Href]. apply Hkeep. now rewrite Hsame.
Qed.

Lemma process_folders_driver (env : Env) (output_directory : FS.path) (delay : Z)
    (co_located_output : bool) :
  forall (folders : list FS.path) (st st' : State) (s s' : Batch.summary),
    fold_left (Batch.process_folder env output_directory delay co_located_output)
      folders (st, s) = (st', s') ->
    exists evs,
      trace st' = trace st ++ evs /\
      (forall u, driver_video_data_uri st = Some u -> driver_video_data_uri st' = Some u) /\
      (forall payload, In payload (Trace.posted evs) ->
         exists u, driver_video_data_uri st' = Some u /\
                   Dict.lookup "reference" payload
                   = Some (VDict [("type", VStr "video"); ("uri", VUri u)])).
Proof.
  induction folders as [|folder rest IH]; intros st st' s s'; cbn [fold_left].
  - intros H; injection H as <- <-. exists []. rewrite app_nil_r.
    repeat split; auto. intros payload [].
  - destruct (Batch.process_folder env output_directory delay co_located_output (st, s) folder)
      as [st1 s1] eqn:Hfolder.
    unfold Batch.process_folder in Hfolder.
    apply process_images_driver in Hfolder as (evs1 & Htr1 & Hkeep1 & Hposted1).
    intros Hrest. apply IH in Hrest as (evs2 & Htr2 & Hkeep2 & Hposted2).
    exists (evs1 ++ evs2). split; [rewrite Htr2, Htr1, app_assoc; reflexivity|]. split.
    + auto.
    + rewrite posted_app. intros payload Hin. apply in_app_or in Hin as [Hin|Hin]; [|auto].
      destruct (Hposted1 payload Hin) as (u & Hu & Href). exists u. auto.
Qed.

(** A batch encodes the driver video at most once: every request it
    submits carries, as its [reference], the data URI that the generator
    holds at the end of the batch, so all requests carry the same one; a
    data URI that was already held at the start is the one that is used,
    whatever the file on disk holds by then. *)
Theorem X_driver_video_encoded_once
    (env : Env) (target_directory output_directory : FS.path) (delay : Z)
    (co_located_output : bool) (st st' : State) (r : option Batch.summary) :
  Batch.process_all_images env target_directory output_directory delay co_located_output st
    = (st', r) ->
  exists evs,
    trace st' = trace st ++ evs /\
    (forall u, driver_video_data_uri st = Some u -> driver_video_data_uri st' = Some u) /\
    (forall payload, In payload (Trace.posted evs) ->
       exists u, driver_video_data_uri st' = Some u /\
                 Dict.lookup "reference" payload
                 = Some (VDict [("type", VStr "video"); ("uri", VUri u)])).
Proof.
  unfold Batch.process_all_images.
  destruct (negb _).
  { intros H; injection H as <- <-. exists []. rewrite app_nil_r.
    repeat split; auto. intros payload []. }
  destruct (Scanner.get_all_folders (fs st) target_directory) as [|folder rest].
  { intros H; injection H as <- <-. exists []. rewrite app_nil_r.
    repeat split; auto. intros payload []. }
  destruct (fold_left _ (folder :: rest) (st, Batch.empty_summary)) as [st1 s1] eqn:Hfold.
  intros H. injection H as <- <-.
  now apply process_folders_driver in Hfold.
Qed.

Lemma X_driver_video_encoded_once_witness :
  exists evs,
    trace (fst (Batch.process_all_images Sample.env ["root"] ["out"] 0 false Sample.start))
      = trace Sample.start ++ evs /\
    (forall payload, In payload (Trace.posted evs) ->
       exists u,
         driver_video_data_uri
           (fst (Batch.process_all_images Sample.env ["root"] ["out"] 0 false Sample.start))
         = Some u /\
         Dict.lookup "reference" payload
         = Some (VDict [("type", VStr "video"); ("uri", VUri u)])).
Proof.
  destruct (X_driver_video_encoded_once Sample.env ["root"] ["out"] 0 false Sample.start
              (fst (Batch.process_all_images Sample.env ["root"] ["out"] 0 false Sample.start))
              (snd (Batch.process_all_images Sample.env ["root"] ["out"] 0 false Sample.start))
              (surjective_pairing _))
    as (evs & Htr & _ & Hposted).
  exists evs. split; [exact Htr|exact Hposted].
Defined.

(** An image without width is never wider than 16:9. *)
Lemma zero_width_not_wider (original_height : Z) :
  PrimFloat.ltb (16 / 9)%float (PrimFloat.div (Num.of_int 0) (Num.of_int original_height))
  = false.
Proof.
  rewrite ltb_spec, (div_spec (Num.of_int 0)).
  change (Prim2SF (Num.of_int 0)) with (S754_zero false).
  destruct (Prim2SF (Num.of_int original_height)) as [s|s| |s m e];
    try destruct s; vm_compute; reflexivity.
Qed.

Lemma legacy_crop_box (original_width original_height : Z) :
  Legacy.crop_box original_width original_height
  = Transform.crop_box original_width original_height (16 / 9)%float.
Proof.
  unfold Legacy.crop_box, Transform.crop_box, Num.true_div. cbv zeta.
  destruct (original_height =? 0)%Z; [reflexivity|].
  destruct (PrimFloat.ltb _ _) eqn:Hwider; [|reflexivity].
  destruct (Num.to_int _) as [new_width|]; [|reflexivity].
  destruct (Z.eqb_spec original_width 0) as [->|_]; [|reflexivity].
  rewrite zero_width_not_wider in Hwider. discriminate Hwider.
Qed.

(** [resize_image_to_16_9] does what [resize_image_smart] does for the
    16:9 profile as [select_best_ratio] hands it on: the same file system
    afterwards and the same path, under the same name. *)
Theorem X_legacy_resize_is_smart_16_9
    (env : Env) (fs : FS.t) (image_path : FS.path) (temp_folder : string) :
  Legacy.resize_image_to_16_9 env fs image_path temp_folder
  = Transform.resize_image_smart env fs image_path
      (Ratio.named "16:9" (Ratio.mk None "1280:720" 1280 720 (16 / 9)%float)) temp_folder /\
  Ratio.lookup "16:9" Ratio.AVAILABLE_RATIOS
  = Some (Ratio.mk None "1280:720" 1280 720 (16 / 9)%float).
Proof.
  split; [|reflexivity].
  unfold Legacy.resize_image_to_16_9, Transform.resize_image_smart.
  f_equal. unfold Legacy.resize_attempt, Transform.resize_attempt.
  destruct (FS.mkdir fs _) as [fs1|]; [|reflexivity].
  destruct (pil_open env fs1 image_path) as [img0|]; [|reflexivity].
  cbv zeta. destruct (Image.size _) as [original_width original_height].
  rewrite legacy_crop_box. reflexivity.
Qed.

Lemma pm_insert_perm (x : FS.path) (l : list FS.path) :
  Permutation (PathManager.insert_sorted x l) (x :: l).
Proof.
  induction l as [|y l IH]; [reflexivity|]. cbn [PathManager.insert_sorted].
  destruct (String.leb (FS.name y) (FS.name x)); [|reflexivity].
  rewrite IH. apply perm_swap.
Qed.

Lemma pm_sorted_perm (l acc : list FS.path) :
  Permutation (fold_left (fun acc x => PathManager.insert_sorted x acc) l acc) (acc ++ l).
Proof.
  revert acc. induction l as [|x l IH]; intros acc; cbn [fold_left].
  - now rewrite app_nil_r.
  - rewrite IH, pm_insert_perm. now rewrite <- Permutation_middle.
Qed.

Lemma pm_insert_sorted (x : FS.path) (l : list FS.path) :
  StronglySorted name_le l -> StronglySorted name_le (PathManager.insert_sorted x l).
Proof.
  induction 1 as [|y l Hl IH Hy]; cbn [PathManager.insert_sorted].
  - repeat constructor.
  - destruct (String.leb (FS.name y) (FS.name x)) eqn:Hyx.
    + constructor; [exact IH|].
      apply (Permutation_Forall (Permutation_sym (pm_insert_perm x l))).
      constructor; [exact Hyx|exact Hy].
    + assert (Hxy : name_le x y).
      { destruct (String.leb_total (FS.name x) (FS.name y)) as [H|H]; [exact H|congruence]. }
      constructor; [now constructor|]. constructor; [exact Hxy|].
      revert Hy. apply Forall_impl. intros z Hz.
      now apply (string_leb_trans _ (FS.name y)).
Qed.

Lemma pm_sorted_sorted (l acc : list FS.path) :
  StronglySorted name_le acc ->
  StronglySorted name_le (fold_left (fun acc x => PathManager.insert_sorted x acc) l acc).
Proof.
  revert acc. induction l as [|x l IH]; intros acc Hacc; cbn [fold_left]; [exact Hacc|].
  apply IH. now apply pm_insert_sorted.
Qed.

Lemma unique_incl (env : Env) (paths : list FS.path) (p : FS.path) :
  In p (PathManager.unique env paths) -> In p paths.
Proof.
  induction paths as [|q rest IH]; [auto|]. cbn [PathManager.unique].
  intros [->|Hin]; [now left|]. apply filter_In in Hin as [Hin _]. right. auto.
Qed.

Lemma unique_nil (env : Env) (paths : list FS.path) :
  PathManager.unique env paths = [] <-> paths = [].
Proof. destruct paths; cbn; split; congruence. Qed.

Lemma all_videos_spec (env : Env) (fs : FS.t) (project_dir video : FS.path) :
  In video (PathManager.all_videos env fs (project_dir ++ ["assets"])) <->
  is_asset_video env fs project_dir video.
Proof.
  unfold PathManager.all_videos, is_asset_video, PathManager.glob, FS.exists_, FS.is_dir.
  destruct (FS.lookup (project_dir ++ ["assets"]) fs) as [[|readable d]|].
  - rewrite in_flat_map. split.
    + intros (ext & Hext & Hin). split; [reflexivity|].
      apply in_app_or in Hin as [Hin|Hin]; apply filter_In in Hin as [Hin Hm];
        (split; [exact Hin|]); exists ext; auto.
    + intros (_ & Hin & ext & Hext & Hm). exists ext. split; [exact Hext|].
      apply in_or_app. destruct Hm as [Hm|Hm]; [left|right]; apply filter_In; auto.
  - split.
    + intros Hin. apply in_flat_map in Hin as (ext & _ & Hin). destruct Hin.
    + intros [H _]. discriminate H.
  - split; [intros []|]. intros [H _]. discriminate H.
Qed.

Lemma driver_videos_incl (env : Env) (fs : FS.t) (project_dir video : FS.path) :
  In video (PathManager.get_all_driver_videos env fs project_dir) ->
  is_asset_video env fs project_dir video.
Proof.
  unfold PathManager.get_all_driver_videos, PathManager.sorted_by_name. cbv zeta. intros Hin.
  apply (Permutation_in _ (pm_sorted_perm _ [])) in Hin. cbn [app] in Hin.
  apply all_videos_spec. now apply unique_incl in Hin.
Qed.

Lemma driver_videos_nil (env : Env) (fs : FS.t) (project_dir : FS.path) :
  PathManager.get_all_driver_videos env fs project_dir = [] <->
  PathManager.all_videos env fs (project_dir ++ ["assets"]) = [].
Proof.
  unfold PathManager.get_all_driver_videos, PathManager.sorted_by_name. cbv zeta. split.
  - intros H. apply (unique_nil env).
    pose proof (pm_sorted_perm (PathManager.unique env
        (PathManager.all_videos env fs (project_dir ++ ["assets"]))) []) as Hperm.
    rewrite H in Hperm. cbn [app] in Hperm. now apply Permutation_nil in Hperm.
  - intros ->. reflexivity.
Qed.

Lemma child_parent (fs : FS.t) (dir p : FS.path) :
  In p (FS.iterdir fs dir) -> FS.parent p = dir /\ p = dir ++ [FS.name p].
Proof.
  unfold FS.iterdir. intros Hin. apply in_map_iff in Hin as ([q n] & <- & Hin).
  apply filter_In in Hin as [_ Hchild]. cbn [fst] in *. unfold FS.child_of in Hchild.
  destruct q as [|a q]; [discriminate|]. apply path_eqb_eq in Hchild.
  split; [exact Hchild|]. rewrite <- Hchild. unfold FS.parent, FS.name.
  apply app_removelast_last. discriminate.
Qed.

(** [get_all_driver_videos] lists entries of the folder [assets] of the
    project only, each with the name of a video, in the order of their
    names. [get_default_driver_video] answers [None] exactly when there is
    no such entry; otherwise it answers one of the list, and never looks
    anywhere else: the first in the order of names among those whose name
    carries ['driver'] in any case when there is one, the first of all
    otherwise. *)
Theorem X_default_driver_video (env : Env) (fs : FS.t) (project_dir : FS.path) :
  let videos := PathManager.get_all_driver_videos env fs project_dir in
  StronglySorted name_le videos /\
  (forall video, In video videos ->
     is_asset_video env fs project_dir video /\
     FS.parent video = project_dir ++ ["assets"]) /\
  match PathManager.get_default_driver_video env fs project_dir with
  | None => forall video, ~ is_asset_video env fs project_dir video
  | Some chosen =>
      exists before after,
        videos = before ++ chosen :: after /\
        Forall (fun video => names_driver video = false) before /\
        (names_driver chosen = true \/
         (before = [] /\ Forall (fun video => names_driver video = false) after))
  end.
Proof.
  intros videos. split; [|split].
  - apply pm_sorted_sorted. constructor.
  - intros video Hin. apply driver_videos_incl in Hin. split; [exact Hin|].
    destruct Hin as (_ & Hin & _). now apply child_parent in Hin.
  - unfold PathManager.get_default_driver_video. fold videos.
    destruct videos as [|first rest] eqn:Hvideos.
    + intros video Hvideo. apply all_videos_spec in Hvideo.
      apply driver_videos_nil in Hvideos. rewrite Hvideos in Hvideo. destruct Hvideo.
    + fold names_driver. change (fun video => Py.contains "driver" (Py.lower (FS.name video)))
        with names_driver.
      assert (Hfind : forall l,
                match find names_driver l with
                | Some chosen => exists before after,
                    l = before ++ chosen :: after /\
                    Forall (fun video => names_driver video = false) before /\
                    names_driver chosen = true
                | None => Forall (fun video => names_driver video = false) l
                end).
      { induction l as [|v l IH]; [constructor|]. cbn [find].
        destruct (names_driver v) eqn:Hv.
        - exists [], l. repeat split; auto.
        - destruct (find names_driver l) as [chosen|].
          + destruct IH as (before & after & -> & Hbefore & Hchosen).
            exists (v :: before), after. repeat split; auto.
          + constructor; assumption. }
      specialize (Hfind (first :: rest)).
      destruct (find names_driver (first :: rest)) as [chosen|].
      * cbv beta iota in Hfind. destruct Hfind as (before & after & Heq & Hbefore & Hchosen).
        exists before, after. auto.
      * exists [], rest. split; [reflexivity|]. split; [constructor|].
        right. split; [reflexivity|]. cbv beta iota in Hfind. now inversion Hfind.
Qed.

Lemma lower_lower (s : string) : Py.lower (Py.lower s) = Py.lower s.
Proof.
  unfold Py.lower. induction s as [|c s IH]; [reflexivity|].
  cbn [Py.map_string]. rewrite IH. f_equal.
  destruct c as [[] [] [] [] [] [] [] []]; reflexivity.
Qed.

Lemma ui_matches_generator (fs : FS.t) (search_pattern : string) (exact : bool) (f : FS.path) :
  UI.matches fs (Py.lower search_pattern) exact f
  = Scanner.is_image_file fs f
    && PatternMatcher.generator_matches (FS.name f) search_pattern exact.
Proof.
  unfold UI.matches, Scanner.is_image_file, PatternMatcher.generator_matches.
  change UI.image_extensions with Scanner.image_extensions.
  destruct (FS.is_file fs f && _); reflexivity.
Qed.

Lemma filter_filter {A : Type} (p q : A -> bool) (l : list A) :
  filter q (filter p l) = filter (fun x => p x && q x) l.
Proof.
  induction l as [|x l IH]; [reflexivity|]. cbn [filter].
  destruct (p x); cbn [filter andb]; [destruct (q x)|]; now rewrite IH.
Qed.

(** For a folder and the pattern of the configuration, the images that
    the generator finds eligible are the files that the menu lists for that
    folder, in the same order, without those that name a subject for whom
    the duplicate guard finds a video: the menu never counts fewer files
    than are processed. *)
Theorem X_menu_listing_and_generator
    (env : Env) (fs : FS.t) (config : Dict.t) (folder : FS.path) (search_pattern : string) :
  Dict.get "image_search_pattern" (VStr "genx") config = VStr search_pattern ->
  FS.is_dir fs folder = true ->
  exists files,
    UI.get_genx_files_in_folder config fs folder = Some files /\
    Scanner.get_genx_image_files env fs folder search_pattern (UI.exact_match config)
    = filter (fun f => negb (Terms.already_generated env fs f)) files /\
    (List.length (Scanner.get_genx_image_files env fs folder search_pattern
                    (UI.exact_match config))
     <= List.length files)%nat.
Proof.
  intros Hpattern Hdir.
  unfold UI.get_genx_files_in_folder, UI.pattern. rewrite Hpattern, Hdir.
  eexists. split; [reflexivity|].
  assert (Hex : FS.exists_ fs folder = true).
  { unfold FS.is_dir in Hdir. unfold FS.exists_.
    destruct (FS.lookup folder fs); [reflexivity|discriminate]. }
  assert (Heq : Scanner.get_genx_image_files env fs folder search_pattern
                  (UI.exact_match config)
                = filter (fun f => negb (Terms.already_generated env fs f))
                    (filter (UI.matches fs (Py.lower search_pattern) (UI.exact_match config))
                            (FS.iterdir fs folder))).
  { unfold Scanner.get_genx_image_files. rewrite Hex. cbn [negb].
    rewrite filter_filter. apply filter_ext. intros f.
    now rewrite keeps_split, ui_matches_generator. }
  split; [exact Heq|]. rewrite Heq. apply filter_length_le.
Qed.

Lemma X_menu_listing_and_generator_witness :
  exists files,
    UI.get_genx_files_in_folder [] (fs Worlds.jane_done) ["root"; "a"] = Some files /\
    Scanner.get_genx_image_files Sample.env (fs Worlds.jane_done) ["root"; "a"] "genx" false
    = filter (fun f => negb (Terms.already_generated Sample.env (fs Worlds.jane_done) f)) files /\
    (List.length (Scanner.get_genx_image_files Sample.env (fs Worlds.jane_done) ["root"; "a"]
                    "genx" false)
     <= List.length files)%nat.
Proof.
  apply (X_menu_listing_and_generator Sample.env (fs Worlds.jane_done) [] ["root"; "a"] "genx");
    reflexivity.
Defined.

(** ** The count and the folders of the menu agree *)

Lemma count_files (fs : FS.t) (pattern : string) (exact : bool) (files : list FS.path) :
  forall count : Z,
    fold_left (fun count file_path =>
                 if UI.matches fs pattern exact file_path then (count + 1)%Z else count)
              files count
    = (count + Z.of_nat (List.length (filter (UI.matches fs pattern exact) files)))%Z.
Proof.
  induction files as [|f files IH]; intros count; cbn [fold_left filter].
  - cbn. lia.
  - rewrite IH. destruct (UI.matches fs pattern exact f); cbn [List.length]; lia.
Qed.

(** The number that the menu shows for a root folder is the number of
    files that it lists, added up over the folders that it lists: no file
    is counted outside these folders, and the count is zero exactly when no
    folder is listed. *)
Theorem X_menu_count_is_sum_of_listings
    (config : Dict.t) (fs : FS.t) (root_directory : FS.path) (count : Z) :
  UI.count_genx_files config fs root_directory = Some count ->
  count = total (map (listed config fs) (UI.get_all_folders config fs root_directory)) /\
  (0 <= count)%Z /\
  (count = 0%Z <-> UI.get_all_folders config fs root_directory = []).
Proof.
  unfold UI.count_genx_files, UI.get_all_folders.
  destruct (UI.pattern config) as [pattern|] eqn:Hpattern; [|discriminate].
  intros H. injection H as <-.
  destruct (FS.is_dir fs root_directory); [|cbn; repeat split; auto; lia].
  assert (Hlisted : forall folder_path,
            FS.is_dir fs folder_path = true ->
            UI.get_genx_files_in_folder config fs folder_path
            = Some (filter (UI.matches fs pattern (UI.exact_match config))
                           (FS.iterdir fs folder_path))).
  { intros folder_path Hdir. unfold UI.get_genx_files_in_folder.
    now rewrite Hpattern, Hdir. }
  assert (Hloop : forall folders start,
            let kept := filter (fun folder_path =>
                          FS.is_dir fs folder_path
                          && match UI.get_genx_files_in_folder config fs folder_path with
                             | Some (_ :: _) => true
                             | _ => false
                             end) folders in
            fold_left
              (fun count folder_path =>
                 if FS.is_dir fs folder_path then
                   fold_left
                     (fun count file_path =>
                        if UI.matches fs pattern (UI.exact_match config) file_path
                        then (count + 1)%Z else count)
                     (FS.iterdir fs folder_path) count
                 else count)
              folders start
            = (start + total (map (listed config fs) kept))%Z /\
            (0 <= total (map (listed config fs) kept))%Z /\
            (total (map (listed config fs) kept) = 0%Z <-> kept = [])).
  { induction folders as [|folder folders IH]; intros start; cbn [fold_left filter].
    - cbn. repeat split; auto; lia.
    - destruct (FS.is_dir fs folder) eqn:Hdir; cbn [andb].
      + rewrite count_files. specialize (IH (start + Z.of_nat (List.length
            (filter (UI.matches fs pattern (UI.exact_match config)) (FS.iterdir fs folder))))%Z).
        cbv zeta in IH. destruct IH as (IH & Hpos & Hzero). rewrite IH.
        rewrite (Hlisted folder Hdir).
        destruct (filter (UI.matches fs pattern (UI.exact_match config)) (FS.iterdir fs folder))
          as [|f files] eqn:Hfiles.
        * cbn [List.length Z.of_nat]. split; [lia|]. split; [exact Hpos|exact Hzero].
        * assert (Hl : listed config fs folder = Z.of_nat (List.length (f :: files))).
          { unfold listed. now rewrite (Hlisted folder Hdir), Hfiles. }
          cbn [map]. change (total (?x :: ?l)) with (x + total l)%Z. rewrite Hl.
          split; [lia|]. split; [lia|]. split; [|discriminate].
          cbn [List.length] in *. lia.
      + apply IH. }
  destruct (Hloop (FS.iterdir fs root_directory) 0%Z) as (Hcount & Hpos & Hzero).
  cbv zeta in Hcount, Hpos, Hzero. rewrite Hcount. cbn [Z.add].
  split; [reflexivity|]. split; [exact Hpos|exact Hzero].
Qed.

Lemma X_menu_count_is_sum_of_listings_witness :
  2%Z = total (map (listed [] Sample.disk) (UI.get_all_folders [] Sample.disk ["root"])) /\
  (0 <= 2)%Z /\
  (2%Z = 0%Z <-> UI.get_all_folders [] Sample.disk ["root"] = []).
Proof.
  apply (X_menu_count_is_sum_of_listings [] Sample.disk ["root"] 2). reflexivity.
Defined.

(** ** Fixed mode, in general *)

Lemma fixed_mode_never_saves_witness :
  Client.result
    (snd (Client.create_act_two_generation Sample.env Sample.jane ["out"]
            [("aspect_ratio_mode", VStr "fixed"); ("fixed_aspect_ratio", VStr "9:16")]
            Sample.start))
  = None /\
  Trace.posted
    (trace (fst (Client.create_act_two_generation Sample.env Sample.jane ["out"]
                   [("aspect_ratio_mode", VStr "fixed"); ("fixed_aspect_ratio", VStr "9:16")]
                   Sample.start)))
  = Trace.posted (trace Sample.start).
Proof.
  apply (fixed_mode_never_saves Sample.env Sample.jane ["out"]
           [("aspect_ratio_mode", VStr "fixed"); ("fixed_aspect_ratio", VStr "9:16")]
           Sample.start).
  reflexivity.
Defined.
